(** * AdobeConnectDL: acquisition pipeline

    A shallow embedding of the downloader package (internal/downloader):
    the transfer primitive [downloadFile], the helpers [sanitize],
    [mergeCookies], [isHTMLResponse], [isZipSignature] and [extractZip],
    the worker pool ([DownloadPool]) and the per-recording orchestrator
    ([Downloader.Download]), with [parseRecordingURL], [formatMilliseconds]
    and [truncateURL], and of the helpers of the command line
    (cmd/download.go).

    Conventions.
    - A Go [string] is the list of its Unicode code points ([rune], an
      integer), the view Go's [regexp] and [strings.TrimSpace] take of it.
      ASCII literals are lifted with [go].
    - A [[]byte] is a list of integers in 0..255.
    - A nil-able pointer is an [option].
    - Every fallible call to the operating system or the network takes its
      outcome from an explicit record of outcomes, so that each error branch
      of the source is reachable in the model.
    - File-system effects are recorded as a trace of events in the order in
      which they take place. *)

From Stdlib Require Import ZArith List String Ascii Bool Lia DecimalString DecimalPos Sorted.
From Stdlib Require Uint63 PrimFloat.
From stdpp Require Import base decidable option list gmap.
Import ListNotations.
Local Open Scope Z_scope.

(* ===================================================================== *)
(** ** Go strings *)
(* ===================================================================== *)

Module GoString.

Definition rune := Z.
Abbreviation gostring := (list Z).

(** Lift an ASCII literal to a Go string. *)
Definition go (s : string) : gostring :=
  map (fun a => Z.of_N (N_of_ascii a)) (list_ascii_of_string s).

Definition eqb (a b : gostring) : bool := bool_decide (a = b).

(** [strings.HasPrefix(s, prefix)]. *)
Fixpoint hasPrefix (s prefix : gostring) {struct prefix} : bool :=
  match prefix, s with
  | [], _ => true
  | _ :: _, [] => false
  | p :: ps, c :: cs => (p =? c) && hasPrefix cs ps
  end.

(** [strings.Contains(s, substr)]. *)
Fixpoint contains (s substr : gostring) : bool :=
  hasPrefix s substr ||
  match s with
  | [] => false
  | _ :: cs => contains cs substr
  end.

(** ASCII part of [unicode.ToLower]. *)
Definition toLowerRune (c : rune) : rune :=
  if (65 <=? c) && (c <=? 90) then c + 32 else c.

(** [strings.ToLower], on the ASCII letters.  The only two non-ASCII runes
    whose lower case is ASCII are U+0130 (to [i]) and U+212A (to [k]);
    neither letter matters to the one caller, which searches the result for
    [text/html]. *)
Definition toLower (s : gostring) : gostring := map toLowerRune s.

(** [unicode.IsSpace]. *)
Definition isSpace (c : rune) : bool :=
  ((9 <=? c) && (c <=? 13)) || (c =? 32) || (c =? 133) || (c =? 160)
  || (c =? 5760) || ((8192 <=? c) && (c <=? 8202))
  || (c =? 8232) || (c =? 8233) || (c =? 8239) || (c =? 8287) || (c =? 12288).

(** [strings.TrimLeftFunc(s, unicode.IsSpace)]. *)
Fixpoint trimLeft (s : gostring) : gostring :=
  match s with
  | [] => []
  | c :: cs => if isSpace c then trimLeft cs else s
  end.

(** [strings.TrimRightFunc(s, unicode.IsSpace)]. *)
Definition trimRight (s : gostring) : gostring := rev (trimLeft (rev s)).

(** [strings.TrimSpace(s)]. *)
Definition trimSpace (s : gostring) : gostring := trimRight (trimLeft s).

(** The string does not start with white space. *)
Definition noLead (s : gostring) : Prop :=
  match s with [] => True | c :: _ => isSpace c = false end.

(** The string does not end with white space. *)
Definition noTrail (s : gostring) : Prop := noLead (rev s).

Definition allSpace (s : gostring) : Prop := Forall (fun c => isSpace c = true) s.

(** [fmt.Sprintf] of an integer with the verb [%d]. *)
Definition decimal (z : Z) : gostring := go (NilZero.string_of_int (Z.to_int z)).

End GoString.


(* ===================================================================== *)
(** ** Errors *)
(* ===================================================================== *)

Module Errors.
Import GoString.

(** The package-level error values, compared by identity. *)
Inductive Sentinel :=
  | SNotFound          (* ErrNotFound *)
  | SInvalidZip        (* ErrInvalidZip *)
  | SAuthRequired      (* ErrAuthRequired *)
  | SDirectoryExists.  (* ErrDirectoryExists *)

#[global] Instance Sentinel_eq_dec : EqDecision Sentinel.
Proof. solve_decision. Defined.

(** A Go [error] value as this package builds or receives it. *)
Inductive Error :=
  | ESentinel (s : Sentinel)
  | ENew (msg : gostring)                 (* errors.New, fmt.Errorf without %w *)
  | EWrap (pre : gostring) (inner : Error) (post : gostring)
                                          (* fmt.Errorf with one %w *)
  | EExternal (msg : gostring).           (* returned by os, io, net or a context *)

Definition sentinelString (s : Sentinel) : gostring :=
  match s with
  | SNotFound => go "resource not found"
  | SInvalidZip => go "invalid zip content"
  | SAuthRequired =>
      go "authentication required: this recording requires a valid session token"
  | SDirectoryExists => go "output directory already exists"
  end.

(** [err.Error()]. *)
Fixpoint errorString (e : Error) : gostring :=
  match e with
  | ESentinel s => sentinelString s
  | ENew msg => msg
  | EWrap pre inner post => pre ++ errorString inner ++ post
  | EExternal msg => msg
  end.

(** [errors.Is(err, target)] for a package-level target. *)
Fixpoint errorsIs (e : Error) (target : Sentinel) : bool :=
  match e with
  | ESentinel s => bool_decide (s = target)
  | EWrap _ inner _ => errorsIs inner target
  | ENew _ | EExternal _ => false
  end.

Abbreviation ErrNotFound := (ESentinel SNotFound).
Abbreviation ErrInvalidZip := (ESentinel SInvalidZip).
Abbreviation ErrAuthRequired := (ESentinel SAuthRequired).
Abbreviation ErrDirectoryExists := (ESentinel SDirectoryExists).

End Errors.

(* ===================================================================== *)
(** ** Paths: the functions of [path/filepath] the package calls *)
(* ===================================================================== *)

Module Path.
Import GoString.

(** [os.PathSeparator] on the platforms with a slash. *)
Definition sep : Z := 47.
Definition dot : gostring := go ".".
Definition dotdot : gostring := go "..".

(** [strings.Split(s, "/")]. *)
Fixpoint splitSep (s : gostring) : list gostring :=
  match s with
  | [] => [[]]
  | c :: cs =>
      let r := splitSep cs in
      if c =? sep then [] :: r
      else match r with
           | [] => [[c]]
           | x :: xs => (c :: x) :: xs
           end
  end.

(** [strings.Join(elems, "/")]. *)
Fixpoint joinSep (l : list gostring) : gostring :=
  match l with
  | [] => []
  | [x] => x
  | x :: xs => x ++ sep :: joinSep xs
  end.

(** The element pass of [filepath.Clean]: empty and [.] elements are
    dropped; [..] removes the element before it, is dropped at the root and
    is kept at the start of a relative path.  [stack] holds the elements
    kept so far, the last one first. *)
Fixpoint cleanStack (rooted : bool) (stack comps : list gostring) : list gostring :=
  match comps with
  | [] => rev stack
  | c :: cs =>
      if eqb c [] || eqb c dot then cleanStack rooted stack cs
      else if eqb c dotdot then
        match stack with
        | top :: below =>
            if eqb top dotdot then cleanStack rooted (c :: stack) cs
            else cleanStack rooted below cs
        | [] => if rooted then cleanStack rooted [] cs
                else cleanStack rooted [c] cs
        end
      else cleanStack rooted (c :: stack) cs
  end.

(** [filepath.Clean(path)]. *)
Definition Clean (path : gostring) : gostring :=
  let rooted := hasPrefix path [sep] in
  let out := (if rooted then [sep] else [])
             ++ joinSep (cleanStack rooted [] (splitSep path)) in
  if eqb out [] then dot else out.

(** [filepath.Join(a, b)]: empty elements before the first non-empty one
    are ignored, the rest is joined with the separator and cleaned. *)
Definition Join (a b : gostring) : gostring :=
  if negb (eqb a []) then Clean (a ++ sep :: b)
  else if negb (eqb b []) then Clean b
  else [].

Fixpoint dropToSep (r : gostring) : gostring :=
  match r with
  | [] => []
  | c :: cs => if c =? sep then r else dropToSep cs
  end.

(** [filepath.Dir(path)]: all but the last element, cleaned. *)
Definition Dir (path : gostring) : gostring :=
  Clean (rev (dropToSep (rev path))).

(** [target] has the cleaned [dest] followed by a separator as a prefix:
    it names something below [dest]. *)
Definition strictlyUnder (dest target : gostring) : Prop :=
  exists rest, target = Clean dest ++ sep :: rest.

(** A path element that names a file or directory: not empty, not [.],
    not [..], without a separator. *)
Definition isName (c : gostring) : Prop :=
  c <> [] /\ c <> dot /\ c <> dotdot /\ ~ In sep c.

(** The last element of the path is a name. *)
Definition endsInName (path : gostring) : Prop :=
  exists c, last (splitSep path) = Some c /\ isName c.

(** The elements of [target] are those of the cleaned [dest] followed by
    one or more names: [target] is reached from [dest] by going down only. *)
Definition descends (dest target : gostring) : Prop :=
  exists more, more <> [] /\ Forall isName more
               /\ splitSep target = splitSep (Clean dest) ++ more.

(** In a list of path elements, a name is followed by names only. *)
Fixpoint namesAfterName (l : list gostring) : Prop :=
  match l with
  | [] => True
  | c :: t => (isName c -> Forall isName t) /\ namesAfterName t
  end.

End Path.

(* ===================================================================== *)
(** ** Cookies: [mergeCookies] *)
(* ===================================================================== *)

Module Cookies.
Import GoString.

(** [http.Cookie]; [mergeCookies] reads no field but [Name] and writes no
    field but [Name] and [Value]. *)
Record Cookie := mkCookie { Name : gostring; Value : gostring }.

(** A [*http.Cookie]: [None] is the nil pointer. *)
Abbreviation CookiePtr := (option Cookie).

Definition BREEZESESSION : gostring := go "BREEZESESSION".

(** [seen[key]] on a Go [map[string]bool]: a missing key reads [false]. *)
Definition seenAt (seen : gmap (list Z) bool) (key : gostring) : bool :=
  default false (seen !! key).

(** The loop [for _, c := range extra] of [mergeCookies], with the two
    variables it updates. *)
Fixpoint mergeLoop (seen : gmap (list Z) bool) (cookies : list CookiePtr)
    (extra : list CookiePtr) : list CookiePtr :=
  match extra with
  | [] => cookies
  | c :: rest =>
      match c with
      | None => mergeLoop seen cookies rest
      | Some ck =>
          if eqb (Name ck) [] then mergeLoop seen cookies rest
          else
            let key := Name ck in
            if seenAt seen key then mergeLoop seen cookies rest
            else mergeLoop (<[key := true]> seen) (cookies ++ [c]) rest
      end
  end.

Definition mergeCookies (session : gostring) (extra : list CookiePtr)
    : list CookiePtr :=
  let seen : gmap (list Z) bool := ∅ in
  let cookies : list CookiePtr := [] in
  if negb (eqb session []) then
    mergeLoop (<[BREEZESESSION := true]> seen)
              (cookies ++ [Some (mkCookie BREEZESESSION session)]) extra
  else mergeLoop seen cookies extra.

(** The names of the non-nil cookies of a list, in order. *)
Definition names (l : list CookiePtr) : list gostring :=
  omap (fun c : CookiePtr => Name <$> c) l.

(** The invariant of the loop: [seen] holds exactly the names of the
    cookies collected so far, and these are pairwise different, non-nil and
    non-empty. *)
Record mergeInv (seen : gmap (list Z) bool) (cookies : list CookiePtr) : Prop := {
  inv_seen : forall k, seenAt seen k = true <-> In k (names cookies);
  inv_nodup : List.NoDup (names cookies);
  inv_nonnil : List.Forall (fun c : CookiePtr => c <> None) cookies;
  inv_named : List.Forall (fun k : gostring => k <> []) (names cookies)
}.

End Cookies.

(* ===================================================================== *)
(** ** File names: [sanitize] *)
(* ===================================================================== *)

Module Sanitize.
Import GoString.

(** Membership in the character class of the regular expression in
    [sanitize]: less-than (60), greater-than (62), colon (58), double quote
    (34), slash (47), backslash (92), vertical bar (124), question mark
    (63), asterisk (42) and the control characters 0 to 31. *)
Definition isIllegal (c : rune) : bool :=
  (c =? 60) || (c =? 62) || (c =? 58) || (c =? 34) || (c =? 47)
  || (c =? 92) || (c =? 124) || (c =? 63) || (c =? 42)
  || ((0 <=? c) && (c <=? 31)).

(** [re.ReplaceAllString(name, " ")] for the pattern [[...]+]: every maximal
    run of runes of the class becomes one space.  [inRun] says that the
    previous rune belonged to the class. *)
Fixpoint replaceRuns (inRun : bool) (s : gostring) : gostring :=
  match s with
  | [] => []
  | c :: cs =>
      if isIllegal c then
        if inRun then replaceRuns true cs else 32 :: replaceRuns true cs
      else c :: replaceRuns false cs
  end.

Definition fallbackName : gostring := go "recording".

(** No rune of the string belongs to the class. *)
Definition legal (s : gostring) : Prop := Forall (fun c => isIllegal c = false) s.

Definition sanitize (name : gostring) : gostring :=
  let name := trimSpace name in
  let name := replaceRuns false name in
  let name := trimSpace name in
  if eqb name [] then fallbackName else name.

(** The spec's wording of the fallback condition: the input is empty once
    the illegal characters are removed and the rest is trimmed. *)
Definition reducesToEmpty (name : gostring) : Prop :=
  trimSpace (filter (fun c => isIllegal c = false) name) = [].

End Sanitize.

(* ===================================================================== *)
(** ** Effects and the monad of fallible, effectful code *)
(* ===================================================================== *)

Module Effects.
Import GoString Errors Cookies.

(** What the package does to the outside world, in the order it does it. *)
Inductive Event :=
  | EvGet (url : gostring) (cookies : list CookiePtr) (referer accept : gostring)
      (* client.Do of a GET request with these cookies and headers *)
  | EvMkdirAll (path : gostring)                  (* os.MkdirAll *)
  | EvCreate (path : gostring)                    (* os.Create, or os.OpenFile
                                                     with O_CREATE and O_TRUNC *)
  | EvWrite (path : gostring) (data : list Z)     (* bytes handed to the file *)
  | EvRemove (path : gostring)                    (* os.Remove *)
  | EvRename (old new : gostring)                 (* os.Rename *)
  | EvCopyFile (dst src : gostring)               (* copyFile *)
  | EvReadDir (path : gostring)                   (* os.ReadDir *)
  | EvWait (what : gostring).                     (* a receive that blocks until
                                                     another goroutine is done *)

(** An event is recorded when the call it stands for succeeds; a call that
    fails is visible in the error it makes the caller return.

    The files that exist after a run, as far as the events tell: a file
    comes to exist when it is created, renamed to or copied to, and ceases
    to exist when it is removed or renamed away.  Writing goes through the
    open file and neither creates nor removes a name. *)
Definition apply (ev : Event) (files : gset (list Z)) : gset (list Z) :=
  match ev with
  | EvCreate p => {[ p ]} ∪ files
  | EvRemove p => files ∖ {[ p ]}
  | EvRename old new =>
      if decide (old ∈ files) then {[ new ]} ∪ (files ∖ {[ old ]}) else files
  | EvCopyFile dst src =>
      if decide (src ∈ files) then {[ dst ]} ∪ files else files
  | _ => files
  end.

Definition filesAfter (tr : list Event) (files : gset (list Z)) : gset (list Z) :=
  fold_left (fun fs ev => apply ev fs) tr files.

(** The bytes handed to the file [path] in the course of the events, in the
    order in which they are handed over. *)
Fixpoint written (path : gostring) (tr : list Event) : list Z :=
  match tr with
  | [] => []
  | EvWrite p d :: rest =>
      if eqb p path then d ++ written path rest else written path rest
  | _ :: rest => written path rest
  end.

(** A computation that emits events and ends in an error or a value. *)
Definition M (A : Type) : Type := list Event * (Error + A).

Definition ret {A} (a : A) : M A := ([], inr a).
Definition fail {A} (e : Error) : M A := ([], inl e).
Definition emit (ev : Event) : M unit := ([ev], inr tt).

Definition bind {A B} (m : M A) (k : A -> M B) : M B :=
  match m with
  | (t, inl e) => (t, inl e)
  | (t, inr a) => let '(t', r) := k a in (t ++ t', r)
  end.

(** [if err != nil { return err }] for a call whose error comes from the
    environment. *)
Definition try (outcome : option gostring) : M unit :=
  match outcome with
  | Some msg => fail (EExternal msg)
  | None => ret tt
  end.

(** [if cond { return err }]. *)
Definition failWhen (cond : bool) (e : Error) : M unit :=
  if cond then fail e else ret tt.

Definition trace {A} (m : M A) : list Event := fst m.

(** The Go [error] result of a computation without a value: [None] is nil. *)
Definition errOf {A} (m : M A) : option Error :=
  match snd m with inl e => Some e | inr _ => None end.

End Effects.

Declare Scope go_scope.
Delimit Scope go_scope with go.
Notation "x <- m ;; k" := (Effects.bind m (fun x => k))
  (at level 89, m at next level, right associativity) : go_scope.
Notation "m ;;; k" := (Effects.bind m (fun _ => k))
  (at level 89, right associativity) : go_scope.

(* ===================================================================== *)
(** ** The transfer primitive: [downloadFile] *)
(* ===================================================================== *)

Module Transfer.
Import GoString Errors Cookies Path Effects.
Local Open Scope go_scope.

Inductive fileKind := fileKindBinary | fileKindZip | fileKindVideo.

#[global] Instance fileKind_eq_dec : EqDecision fileKind.
Proof. solve_decision. Defined.

Record downloadOptions := mkDownloadOptions {
  Cookies : list CookiePtr;
  Referer : gostring;
  Kind : fileKind
}.

Definition videoAccept : gostring :=
  go "video/webm,video/ogg,video/*;q=0.9,application/ogg;q=0.7,audio/*;q=0.6,*/*;q=0.5".

(** What the server answered: the status code, the value of
    [Header.Get] for Content-Type, the bytes the body delivers, and the
    error with which the body stops, if it stops otherwise than by its
    plain end. *)
Record Response := mkResponse {
  StatusCode : Z;
  ContentType : gostring;
  Body : list Z;
  BodyErr : option gostring
}.

(** The outcome of every fallible call [downloadFile] makes. *)
Record Outcomes := mkOutcomes {
  newRequest : option gostring;       (* http.NewRequestWithContext *)
  roundTrip : gostring + Response;    (* d.client.Do *)
  mkdirAll : option gostring;         (* os.MkdirAll(filepath.Dir(dest)) *)
  create : option gostring;           (* os.Create(dest) *)
  writeHead : option gostring;        (* bufferedFile.Write(head[:n]) *)
  copyWrite : option gostring;        (* the writes of io.Copy *)
  flush : option gostring;            (* bufferedFile.Flush *)
  headIsEOF : bool;                   (* errors.Is(readErr, io.ErrUnexpectedEOF)
                                         || errors.Is(readErr, io.EOF), for the
                                         error with which the body stops *)
  readOn : option gostring            (* the error, if any, of reading on in
                                         io.Copy a body that has stopped with
                                         such an error *)
}.

(** [bytes.TrimSpace], left end: the ASCII white space and the UTF-8
    encodings of the other runes of [unicode.IsSpace].  The right end of
    the trimmed slice matters to no caller: [isHTMLResponse] reads its
    length against zero and its first byte. *)
Fixpoint bytesTrimLeft (b : list Z) : list Z :=
  match b with
  | [] => []
  | c :: r1 =>
      if c <? 128 then
        if ((9 <=? c) && (c <=? 13)) || (c =? 32) then bytesTrimLeft r1 else b
      else
        match r1 with
        | [] => b
        | d :: r2 =>
            if (c =? 194) && ((d =? 133) || (d =? 160)) then bytesTrimLeft r2
            else
              match r2 with
              | [] => b
              | e :: r3 =>
                  if ((c =? 225) && (d =? 154) && (e =? 128))
                  || ((c =? 226) && (d =? 128)
                      && (((128 <=? e) && (e <=? 138)) || (e =? 168)
                          || (e =? 169) || (e =? 175)))
                  || ((c =? 226) && (d =? 129) && (e =? 159))
                  || ((c =? 227) && (d =? 128) && (e =? 128))
                  then bytesTrimLeft r3 else b
              end
        end
  end.

(** [isHTMLResponse(headers, chunk)]. *)
Definition isHTMLResponse (contentType : gostring) (chunk : list Z) : bool :=
  if contains (toLower contentType) (go "text/html") then true
  else match bytesTrimLeft chunk with
       | [] => false
       | c :: _ => c =? 60
       end.

(** [isZipSignature(b)]. *)
Definition isZipSignature (b : list Z) : bool :=
  match b with
  | b0 :: b1 :: b2 :: b3 :: _ => (b0 =? 80) && (b1 =? 75) && (b2 =? 3) && (b3 =? 4)
  | _ => false
  end.

Definition errForbidden : Error :=
  ENew (go "returned 403 (token may be expired or already used)").
Definition errUnexpectedStatus (code : Z) : Error :=
  ENew (go "unexpected status " ++ decimal code).
Definition errHTMLInsteadOfVideo : Error :=
  ENew (go "returned HTML instead of video").
Definition errTooSmall (n : Z) : Error :=
  ENew (go "file too small (" ++ decimal n ++ go " bytes), likely an error page").

(** The three tests on [resp.StatusCode] in [downloadFile]. *)
Definition statusError (code : Z) : option Error :=
  if code =? 403 then Some errForbidden
  else if code =? 404 then Some ErrNotFound
  else if 300 <=? code then Some (errUnexpectedStatus code)
  else None.

Definition failWith (e : option Error) : M unit :=
  match e with Some e => fail e | None => ret tt end.

(** The size of the array [head]. *)
Definition headSize : nat := 4096.

(** [downloadFile(ctx, fileURL, dest, opts, logger)].  Logging is left out,
    and so is progress reporting, which changes neither the bytes written
    nor the error returned.

    [io.ReadFull] fills [head] unless the body stops before: a body that
    ends early gives io.ErrUnexpectedEOF or io.EOF, which [downloadFile]
    lets pass, and a body that stops early with an error gives that error,
    which [downloadFile] lets pass as well when [errors.Is] finds one of the
    two in it.  [io.Copy] then reads the body on. *)
Definition downloadFile (fileURL dest : gostring) (opts : downloadOptions)
    (o : Outcomes) : M unit :=
  try (newRequest o) ;;;
  let accept :=
    if bool_decide (Kind opts = fileKindVideo) || bool_decide (Kind opts = fileKindBinary)
    then videoAccept else [] in
  emit (EvGet fileURL (Cookies opts) (Referer opts) accept) ;;;
  resp <- match roundTrip o with
          | inl msg => fail (EWrap (go "request failed: ") (EExternal msg) [])
          | inr resp => ret resp
          end ;;
  failWith (statusError (StatusCode resp)) ;;;
  failWhen (bool_decide (Kind opts = fileKindVideo)
            && contains (ContentType resp) (go "text/html"))
           errHTMLInsteadOfVideo ;;;
  try (mkdirAll o) ;;;
  emit (EvMkdirAll (Dir dest)) ;;;
  try (create o) ;;;
  emit (EvCreate dest) ;;;
  let head := take headSize (Body resp) in
  let n := length head in
  try (if (n <? headSize)%nat && negb (headIsEOF o) then BodyErr resp else None) ;;;
  failWhen (isHTMLResponse (ContentType resp) head) ErrNotFound ;;;
  failWhen (bool_decide (Kind opts = fileKindZip) && (4 <=? n)%nat
            && negb (isZipSignature head))
           ErrInvalidZip ;;;
  try (writeHead o) ;;;
  emit (EvWrite dest head) ;;;
  let rest := drop headSize (Body resp) in
  match (if (n <? headSize)%nat
         then match BodyErr resp with Some _ => readOn o | None => None end
         else BodyErr resp), copyWrite o with
  | Some msg, _ | None, Some msg => fail (EWrap (go "write file: ") (EExternal msg) [])
  | None, None => ret tt
  end ;;;
  emit (EvWrite dest rest) ;;;
  match flush o with
  | Some msg => fail (EWrap (go "flush buffer: ") (EExternal msg) [])
  | None => ret tt
  end ;;;
  let totalWritten := Z.of_nat n + Z.of_nat (length rest) in
  failWhen (bool_decide (Kind opts = fileKindVideo) && (totalWritten <? 1024))
           (errTooSmall totalWritten) ;;;
  ret tt.

(** The first four bytes of a ZIP file. *)
Definition zipMagic : list Z := [80; 75; 3; 4].

(** Outcomes with no fault of the operating system or the network. *)
Definition served (resp : Response) : Outcomes :=
  mkOutcomes None (inr resp) None None None None None false None.

(** What a transfer to [dest] may do: send its request, make the directory
    of [dest], create [dest] and write to it. *)
Definition transferEvent (dest : gostring) (ev : Event) : Prop :=
  match ev with
  | EvGet _ _ _ _ => True
  | EvMkdirAll p => p = Dir dest
  | EvCreate p | EvWrite p _ => p = dest
  | _ => False
  end.

End Transfer.

(* ===================================================================== *)
(** ** Archive extraction: [extractZip] *)
(* ===================================================================== *)

Module Zip.
Import GoString Errors Path Effects.
Local Open Scope go_scope.

(** An entry of [r.File]: its name, whether [f.FileInfo().IsDir()] holds,
    and its decompressed content. *)
Record File := mkFile {
  Name : gostring;
  IsDir : bool;
  Content : list Z
}.

(** The outcome of every fallible call the loop makes for one entry. *)
Record EntryOutcomes := mkEntryOutcomes {
  mkdirTarget : option gostring;   (* os.MkdirAll(target, f.Mode()) *)
  mkdirParent : option gostring;   (* os.MkdirAll(filepath.Dir(target), 0o755) *)
  openEntry : option gostring;     (* f.Open() *)
  openFile : option gostring;      (* os.OpenFile(target, ...) *)
  copy : option gostring           (* io.Copy(out, rc) *)
}.

Definition noFault : EntryOutcomes := mkEntryOutcomes None None None None None.

Definition errUnsafePath (name : gostring) : Error :=
  ENew (go "unsafe path in zip: " ++ name).

(** The body of the loop [for _, f := range r.File]. *)
Definition extractEntry (dest : gostring) (f : File) (io : EntryOutcomes) : M unit :=
  let target := Join dest (Name f) in
  failWhen (negb (hasPrefix target (Clean dest ++ [sep])))
           (errUnsafePath (Name f)) ;;;
  if IsDir f then
    try (mkdirTarget io) ;;;
    emit (EvMkdirAll target)
  else
    try (mkdirParent io) ;;;
    emit (EvMkdirAll (Dir target)) ;;;
    try (openEntry io) ;;;
    try (openFile io) ;;;
    emit (EvCreate target) ;;;
    try (copy io) ;;;
    emit (EvWrite target (Content f)).

Fixpoint extractLoop (dest : gostring) (files : list (File * EntryOutcomes)) : M unit :=
  match files with
  | [] => ret tt
  | (f, io) :: rest => extractEntry dest f io ;;; extractLoop dest rest
  end.

(** [extractZip(zipPath, dest)].  [archive] is what [zip.OpenReader(zipPath)]
    returns: an error, or the entries in the order of the archive. *)
Definition extractZip (archive : gostring + list (File * EntryOutcomes))
    (dest : gostring) : M unit :=
  match archive with
  | inl msg => fail (EExternal msg)
  | inr files => extractLoop dest files
  end.

(** An event that touches nothing but the target of an entry name, that
    target being strictly under [dest], or the directory that holds it. *)
Definition inside (dest : gostring) (ev : Event) : Prop :=
  exists name,
    let t := Join dest name in
    strictlyUnder dest t
    /\ (ev = EvMkdirAll t \/ ev = EvMkdirAll (Dir t) \/ ev = EvCreate t
        \/ exists d, ev = EvWrite t d).

(** The files an event creates or writes are reached from [dest] by going
    down only. *)
Definition writesBelow (dest : gostring) (ev : Event) : Prop :=
  match ev with
  | EvCreate p | EvWrite p _ => descends dest p
  | _ => True
  end.

End Zip.

(* ===================================================================== *)
(** ** The worker pool: [DownloadPool] *)
(* ===================================================================== *)

Module Pool.
Import GoString Errors Effects.

Inductive JobType :=
  JobTypeDocument | JobTypeZip | JobTypeMP4 | JobTypeVTT | JobTypeExtract.

(** A [DownloadJob].  [jobId] tells the submitted jobs apart; [work] is the
    call [processJob] makes for the job ([extractZip] for an extraction job,
    [downloadFile] for the others) with the outcomes it meets; [ctxErr] is
    [job.Ctx.Err()] at the time a worker picks the job up ([None] when the
    context is nil or not cancelled). *)
Record DownloadJob := mkJob {
  jobId : nat;
  Type_ : JobType;
  hasOnComplete : bool;          (* job.OnComplete != nil *)
  ctxErr : option gostring;
  work : M unit
}.

(** One invocation of a completion callback: [job.OnComplete(err)] made by
    worker [callWorker]. *)
Record Call := mkCall {
  callWorker : nat;
  callJob : nat;
  callErr : option Error
}.

(** The pool.  [jobs] is the content of the buffered channel [p.jobs],
    oldest first, and [capacity] its buffer size; [senders] are the jobs of
    the goroutines blocked in the send [p.jobs <- job], oldest first; [busy]
    pairs each worker that has received a job and not finished it with that
    job; [calls] and [effects] record the callbacks invoked and the events
    emitted so far. *)
Record Pool := mkPool {
  numWorkers : nat;
  capacity : nat;
  started : bool;
  stopped : bool;
  jobs : list DownloadJob;
  senders : list DownloadJob;
  busy : list (nat * DownloadJob);
  completed : Z;
  failed : Z;
  calls : list Call;
  effects : list Event
}.

(** [atomic.Int64.Add]. *)
Definition add64 (x d : Z) : Z := (x + d + 2 ^ 63) mod 2 ^ 64 - 2 ^ 63.

(** [NewDownloadPool(client, config)]. *)
Definition NewDownloadPool (NumWorkers QueueSize : Z) : Pool :=
  let NumWorkers := if NumWorkers <=? 0 then 12 else NumWorkers in
  let QueueSize := if QueueSize <=? 0 then 1000 else QueueSize in
  mkPool (Z.to_nat NumWorkers) (Z.to_nat QueueSize) false false [] [] [] 0 0 [] [].

(** [p.Start()]: the workers run from now on. *)
Definition Start (p : Pool) : Pool :=
  if started p then p
  else mkPool (numWorkers p) (capacity p) true (stopped p) (jobs p) (senders p)
              (busy p) (completed p) (failed p) (calls p) (effects p).

(** How a call of [Submit] proceeds. *)
Inductive Submitted :=
  | Accepted    (* the job is in the queue; Submit returns true *)
  | Blocked     (* the queue is full; the caller waits in the send and
                   Submit returns true once a worker has made room *)
  | Rejected.   (* the pool is stopped; Submit returns false *)

(** [p.Submit(job)]. *)
Definition Submit (p : Pool) (job : DownloadJob) : Pool * Submitted :=
  if stopped p then (p, Rejected)
  else if (length (jobs p) <? capacity p)%nat then
    (mkPool (numWorkers p) (capacity p) (started p) (stopped p)
            (jobs p ++ [job]) (senders p) (busy p)
            (completed p) (failed p) (calls p) (effects p), Accepted)
  else
    (mkPool (numWorkers p) (capacity p) (started p) (stopped p)
            (jobs p) (senders p ++ [job]) (busy p)
            (completed p) (failed p) (calls p) (effects p), Blocked).

(** The receive [for job := range p.jobs] of worker [w]: the oldest job
    leaves the buffer, and the oldest blocked sender, if any, puts its job
    in the room made. *)
Definition receive (w : nat) (p : Pool) : option Pool :=
  match jobs p with
  | [] => None
  | job :: rest =>
      Some (mkPool (numWorkers p) (capacity p) (started p) (stopped p)
                   (rest ++ take 1 (senders p)) (drop 1 (senders p))
                   ((w, job) :: busy p)
                   (completed p) (failed p) (calls p) (effects p))
  end.

(** The error [processJob] hands to the callback. *)
Definition outcome (job : DownloadJob) : option Error :=
  match ctxErr job with
  | Some msg => Some (EExternal msg)
  | None => errOf (work job)
  end.

Definition callback (w : nat) (job : DownloadJob) (err : option Error) : list Call :=
  if hasOnComplete job then [mkCall w (jobId job) err] else [].

(** [p.processJob(job)] run by worker [w], from the state in which the
    worker holds the job. *)
Definition processJob (w : nat) (job : DownloadJob) (p : Pool) : Pool :=
  match ctxErr job with
  | Some msg =>
      mkPool (numWorkers p) (capacity p) (started p) (stopped p)
             (jobs p) (senders p) (busy p)
             (completed p) (add64 (failed p) 1)
             (calls p ++ callback w job (Some (EExternal msg))) (effects p)
  | None =>
      let err := errOf (work job) in
      mkPool (numWorkers p) (capacity p) (started p) (stopped p)
             (jobs p) (senders p) (busy p)
             (match err with Some _ => completed p | None => add64 (completed p) 1 end)
             (match err with Some _ => add64 (failed p) 1 | None => failed p end)
             (calls p ++ callback w job err) (effects p ++ trace (work job))
  end.

Definition withBusy (p : Pool) (b : list (nat * DownloadJob)) : Pool :=
  mkPool (numWorkers p) (capacity p) (started p) (stopped p)
         (jobs p) (senders p) b (completed p) (failed p) (calls p) (effects p).

(** [p.Stop()], up to its wait for the workers: the channel is closed.
    Closing a channel on which a sender is blocked makes that sender panic;
    the step is taken only when there is none. *)
Definition close (p : Pool) : Pool :=
  mkPool (numWorkers p) (capacity p) (started p) true
         (jobs p) (senders p) (busy p) (completed p) (failed p) (calls p) (effects p).

(** How often [id] occurs among the jobs waiting or being processed, and
    among the callbacks made. *)
Definition occ (id : nat) (l : list DownloadJob) : nat :=
  length (filter (fun j => jobId j = id) l).

Definition pending (id : nat) (p : Pool) : nat :=
  occ id (jobs p) + occ id (senders p) + occ id (map snd (busy p)).

Definition called (id : nat) (p : Pool) : nat :=
  length (filter (fun c => callJob c = id) (calls p)).

(** No job of the pool, past or present, has this identity. *)
Definition fresh (id : nat) (p : Pool) : Prop :=
  pending id p = 0%nat /\ called id p = 0%nat.

(** The steps of a running pool: a worker receives a job, a worker finishes
    the job it holds, somebody submits another job, somebody stops the
    pool. *)
Inductive step (p : Pool) : Pool -> Prop :=
  | step_receive w p' :
      started p = true -> (w < numWorkers p)%nat ->
      (forall j, ~ In (w, j) (busy p)) ->
      receive w p = Some p' -> step p p'
  | step_finish w job b1 b2 :
      busy p = b1 ++ (w, job) :: b2 ->
      step p (processJob w job (withBusy p (b1 ++ b2)))
  | step_submit job :
      fresh (jobId job) p -> step p (fst (Submit p job))
  | step_stop :
      senders p = [] -> step p (close p).





End Pool.

(* ===================================================================== *)
(** ** The recording orchestrator: [Downloader.Download] *)
(* ===================================================================== *)

Module Orchestrator.
Import GoString Errors Cookies Path Effects Sanitize.
Local Open Scope go_scope.

(** [Options], without the logger, the progress callback and the subtitle
    embedder, which change neither the result nor the error. *)
Record Options := mkOptions {
  OutputDir : gostring;
  Session : gostring;
  Overwrite : bool
}.

Record Result := mkResult {
  Title : gostring;
  RootDir : gostring;
  MP4Path : gostring;
  ZipPath : gostring;
  ExtractedDir : gostring;
  Warnings : list gostring
}.

(** [Result{}]. *)
Definition noResult : Result := mkResult [] [] [] [] [] [].

Record recordingInfo := mkRecordingInfo {
  ID : gostring;
  BaseURL : gostring;
  Source : gostring;
  Hostname : gostring
}.

Record pageInfo := mkPageInfo {
  pageTitle : gostring;              (* pageInfo.Title *)
  VideoSrc : gostring;
  VTTPath : gostring;
  pageCookies : list CookiePtr       (* pageInfo.Cookies *)
}.

(** [pageInfo{}]. *)
Definition noPageInfo : pageInfo := mkPageInfo [] [] [] [].

(** What the recording page answers: the status code, the error with which
    reading the body stops, if any, and what the scraping functions
    ([parseHTMLTitle], [findCASRecordingURL], [parseVideoElement],
    [findVTTFromJS]) find in the body, with the cookies of the response. *)
Record PageResponse := mkPageResponse {
  pageStatus : Z;
  pageBodyErr : option gostring;
  htmlTitle : gostring;
  casURL : gostring;
  videoTag : gostring;
  trackTag : gostring;
  jsVTT : gostring;
  respCookies : list CookiePtr
}.

Record PageOutcomes := mkPageOutcomes {
  pageNewRequest : option gostring;          (* http.NewRequestWithContext *)
  pageRoundTrip : gostring + PageResponse    (* d.client.Do *)
}.

(** The request of [fetchPageInfo]: the session cookie, when there is a
    session, and no header of the package's own. *)
Definition pageRequest (pageURL session : gostring) : Event :=
  let cookies :=
    if negb (eqb session []) then [Some (mkCookie BREEZESESSION session)] else [] in
  EvGet pageURL cookies [] [].

(** [d.fetchPageInfo(ctx, pageURL, session, logger)]. *)
Definition fetchPageInfo (pageURL session : gostring) (o : PageOutcomes) : M pageInfo :=
  try (pageNewRequest o) ;;;
  emit (pageRequest pageURL session) ;;;
  resp <- match pageRoundTrip o with
          | inl msg => fail (EExternal msg)
          | inr resp => ret resp
          end ;;
  failWhen ((pageStatus resp =? 500) || (pageStatus resp =? 401)
            || (pageStatus resp =? 403)) ErrAuthRequired ;;;
  failWhen (400 <=? pageStatus resp)
           (Transfer.errUnexpectedStatus (pageStatus resp)) ;;;
  try (pageBodyErr resp) ;;;
  let videoSrc := if negb (eqb (casURL resp) []) then casURL resp else videoTag resp in
  let vttPath :=
    if eqb (trackTag resp) [] && negb (eqb (jsVTT resp) [])
    then jsVTT resp else trackTag resp in
  ret (mkPageInfo (htmlTitle resp) videoSrc vttPath (respCookies resp)).

(** Everything one run of [Download] meets.  [poolCtxErr] is the error of
    the context when a worker of the shared pool picks a job of this
    recording up.  [cleanupAfter] is the schedule of an early return: the
    number of events of the archive download that have taken place when
    [Download] removes the staged archive. *)
Record World := mkWorld {
  parsed : gostring + recordingInfo;    (* parseRecordingURL(rawURL) *)
  querySession : gostring;              (* the session parameter of rawURL *)
  page : PageOutcomes;
  zipDownload : Transfer.Outcomes;
  videoDownload : Transfer.Outcomes;
  poolCtxErr : option gostring;
  readDir : gostring + nat;             (* os.ReadDir(rootDir): the entries *)
  mkdirRoot : option gostring;          (* os.MkdirAll(rootDir, 0o755) *)
  renameZip : option gostring;          (* os.Rename(tempZipPath, zipPath) *)
  copyZip : option gostring;            (* copyFile(zipPath, tempZipPath) *)
  renameMP4 : option gostring;
  copyMP4 : option gostring;
  archive : gostring + list (Zip.File * Zip.EntryOutcomes);  (* zip.OpenReader *)
  writeMetadata : option gostring;
  cleanupAfter : nat
}.

Definition authGuidance : gostring :=
  [10; 10]
  ++ go "To access private recordings, you need to include a session token in the URL."
  ++ [10]
  ++ go "Example: https://your-domain.adobeconnect.com/recording-id/?session=YOUR_SESSION_TOKEN"
  ++ [10; 10] ++ go "To get a session token:" ++ [10]
  ++ go "1. Log into Adobe Connect in your browser" ++ [10]
  ++ go "2. Open the recording page" ++ [10]
  ++ go "3. Copy the URL from your browser's address bar (it should contain ?session=...)"
  ++ [10]
  ++ go "4. Use that complete URL with this tool".

Definition errAuthGuidance (pageErr : Error) : Error := EWrap [] pageErr authGuidance.
Definition errDirectoryExists (rootDir : gostring) : Error :=
  EWrap [] ErrDirectoryExists (go ": " ++ rootDir).
Definition errCreateOutputDir (msg : gostring) : Error :=
  EWrap (go "create output dir: ") (EExternal msg) [].
Definition errNoAssets : Error :=
  ENew (go "no assets could be downloaded (MP4 and ZIP unavailable)").

Definition warnNoMP4 : gostring := go "MP4 rendition not available".
Definition warnNoZip : gostring := go "Raw recording ZIP not available".
Definition warnInvalidZip : gostring := go "ZIP response was invalid".

Definition addWarning (r : Result) (msg : gostring) : Result :=
  mkResult (Title r) (RootDir r) (MP4Path r) (ZipPath r) (ExtractedDir r)
           (Warnings r ++ [msg]).
Definition setZipPath (r : Result) (path : gostring) : Result :=
  mkResult (Title r) (RootDir r) (MP4Path r) path (ExtractedDir r) (Warnings r).
Definition setMP4Path (r : Result) (path : gostring) : Result :=
  mkResult (Title r) (RootDir r) path (ZipPath r) (ExtractedDir r) (Warnings r).
Definition setExtractedDir (r : Result) (path : gostring) : Result :=
  mkResult (Title r) (RootDir r) (MP4Path r) (ZipPath r) path (Warnings r).

Definition tempZipPath (baseOutputDir id : gostring) : gostring :=
  Join baseOutputDir (go "." ++ id ++ go "_temp.zip").
Definition tempMP4Path (baseOutputDir id : gostring) : gostring :=
  Join baseOutputDir (go "." ++ id ++ go "_temp.mp4").
Definition zipURL (info : recordingInfo) : gostring :=
  BaseURL info ++ go "/output/" ++ ID info ++ go ".zip?download=zip".

(** One transfer started by [Download]: through the shared pool, whose
    worker first looks at the context (the pool is running, as
    [NewWithPool] asks), or in a goroutine of its own. *)
Definition runTask (usesPool : bool) (ctxErr : option gostring) (work : M unit) : M unit :=
  if usesPool then
    match ctxErr with
    | Some msg => fail (EExternal msg)
    | None => work
    end
  else work.

(** The clean-up of the three early returns,
    [os.Remove(tempZipPath); <-zipDownloadDone], among the events of the
    archive download that runs beside it. *)
Definition cleanup (k : nat) (zipEvents : list Event) (tempZip : gostring) : list Event :=
  take k zipEvents ++ [EvRemove tempZip] ++ drop k zipEvents
  ++ [EvWait (go "zipDownloadDone")].

(** The treatment of the archive after [<-zipDownloadDone]: the events, the
    result, and [zipErr]. *)
Definition placeZip (w : World) (zipDownloadErr : option Error)
    (tempZip zipPath : gostring) (result : Result)
    : list Event * Result * option Error :=
  match zipDownloadErr with
  | Some e =>
      let result :=
        if errorsIs e SNotFound then addWarning result warnNoZip
        else if errorsIs e SInvalidZip then addWarning result warnInvalidZip
        else result in
      ([EvRemove tempZip], result, Some e)
  | None =>
      match renameZip w with
      | Some _ =>
          match copyZip w with
          | Some msg => ([], result, Some (EExternal msg))
          | None => ([EvCopyFile zipPath tempZip; EvRemove tempZip],
                     setZipPath result zipPath, None)
          end
      | None => ([EvRename tempZip zipPath], setZipPath result zipPath, None)
      end
  end.

(** The extraction goroutine, up to [result.ExtractedDir = extractDir].
    What follows it there (captions, names, document list and downloads,
    chat log) writes below [rootDir] and changes no field of the result. *)
Definition extract (w : World) (zipErr : option Error) (rootDir : gostring)
    (result : Result) : list Event * Result :=
  if bool_decide (zipErr = None) && negb (eqb (ZipPath result) []) then
    let extractDir := Join rootDir (go "raw") in
    let r := Zip.extractZip (archive w) extractDir in
    (trace r ++ [EvWait (go "extractDone")],
     match errOf r with
     | Some _ => result
     | None => setExtractedDir result extractDir
     end)
  else ([EvWait (go "extractDone")], result).

(** The treatment of the video from [mp4Res := <-mp4ResultCh] on. *)
Definition placeMP4 (w : World) (started : bool) (mp4Task : M unit)
    (tempMP4 mp4Path : gostring) (result : Result) : list Event * Result :=
  let mp4DownloadErr := if started then errOf mp4Task else None in
  let mp4DownloadedPath :=
    if started then match errOf mp4Task with Some _ => [] | None => tempMP4 end
    else [] in
  let ev1 :=
    if started then
      trace mp4Task ++ [EvWait (go "mp4ResultCh")]
      ++ match mp4DownloadErr with Some _ => [EvRemove tempMP4] | None => [] end
    else [] in
  if bool_decide (mp4DownloadErr = None) && negb (eqb mp4DownloadedPath []) then
    match renameMP4 w with
    | Some _ =>
        match copyMP4 w with
        | Some _ => (ev1, result)
        | None => (ev1 ++ [EvCopyFile mp4Path mp4DownloadedPath; EvRemove mp4DownloadedPath],
                   setMP4Path result mp4Path)
        end
    | None => (ev1 ++ [EvRename mp4DownloadedPath mp4Path], setMP4Path result mp4Path)
    end
  else if negb (eqb mp4DownloadedPath []) then
    (ev1 ++ [EvRemove mp4DownloadedPath], result)
  else if negb (bool_decide (mp4DownloadErr = None)) && negb (eqb tempMP4 []) then
    (ev1 ++ [EvRemove tempMP4], result)
  else (ev1, result).

(** The end of [Download], from the test of [result.MP4Path] on. *)
Definition finish (w : World) (result : Result) : Result * option Error :=
  let result :=
    if eqb (MP4Path result) [] then addWarning result warnNoMP4 else result in
  if eqb (MP4Path result) [] && eqb (ZipPath result) [] then (result, Some errNoAssets)
  else
    match writeMetadata w with
    | Some msg => (addWarning result (go "write metadata: " ++ msg), None)
    | None => (result, None)
    end.

(** The archive download [Download] starts at once. *)
Definition zipTask (usesPool : bool) (rawURL session : gostring)
    (info : recordingInfo) (baseOutputDir : gostring) (w : World) : M unit :=
  runTask usesPool (poolCtxErr w)
    (Transfer.downloadFile (zipURL info) (tempZipPath baseOutputDir (ID info))
       (Transfer.mkDownloadOptions (mergeCookies session []) rawURL Transfer.fileKindZip)
       (zipDownload w)).

(** [session], once the option and the query parameter are looked at. *)
Definition sessionOf (opts : Options) (w : World) : gostring :=
  if eqb (Session opts) [] then querySession w else Session opts.

(** [baseOutputDir]. *)
Definition baseOf (opts : Options) : gostring :=
  if eqb (OutputDir opts) [] then go "." else OutputDir opts.

(** [Download] from [result := Result{Title: title, RootDir: rootDir}] on:
    the output directory exists and is meant to take the files. *)
Definition assemble (usesPool : bool) (rawURL session baseOutputDir title : gostring)
    (info : recordingInfo) (pageInfo : pageInfo) (zipRun : M unit) (w : World)
    : list Event * (Result * option Error) :=
  let rootDir := Join baseOutputDir title in
  let tempZip := tempZipPath baseOutputDir (ID info) in
  let tempMP4 := tempMP4Path baseOutputDir (ID info) in
  let result := mkResult title rootDir [] [] [] [] in
  let cookies := mergeCookies session (pageCookies pageInfo) in
  let referer := rawURL in
  let mp4Path := Join rootDir (go "recording.mp4") in
  let zipPath := Join rootDir (go "raw.zip") in
  let started := negb (eqb (VideoSrc pageInfo) []) in
  let mp4Task :=
    runTask usesPool (poolCtxErr w)
      (Transfer.downloadFile (VideoSrc pageInfo) tempMP4
         (Transfer.mkDownloadOptions cookies referer Transfer.fileKindVideo)
         (videoDownload w)) in
  let '(evZip, result, zipErr) := placeZip w (errOf zipRun) tempZip zipPath result in
  let '(evMP4, result) := placeMP4 w started mp4Task tempMP4 mp4Path result in
  let '(evExtract, result) := extract w zipErr rootDir result in
  (trace zipRun ++ [EvWait (go "zipDownloadDone")] ++ evZip ++ evMP4 ++ evExtract,
   finish w result).

(** [d.Download(ctx, rawURL, opts)]: the events of the run, the result and
    the error.  [usesPool] is [d.pool != nil].  On the paths that run to the
    end the events of the goroutines are listed goroutine by goroutine, in
    the order in which [Download] waits for them. *)
Definition Download (usesPool : bool) (rawURL : gostring) (opts : Options) (w : World)
    : list Event * (Result * option Error) :=
  match parsed w with
  | inl msg => ([], (noResult, Some (ENew msg)))
  | inr info =>
    let session := sessionOf opts w in
    let title := sanitize (ID info) in
    let baseOutputDir := baseOf opts in
    let pageRes := fetchPageInfo rawURL session (page w) in
    let tempZip := tempZipPath baseOutputDir (ID info) in
    let zipRun := zipTask usesPool rawURL session info baseOutputDir w in
    let pageInfo := match snd pageRes with inl _ => noPageInfo | inr pi => pi end in
    let pageErr := errOf pageRes in
    let title :=
      if bool_decide (pageErr = None) && negb (eqb (pageTitle pageInfo) [])
      then sanitize (pageTitle pageInfo) else title in
    let authFailure :=
      match pageErr with
      | Some e => errorsIs e SAuthRequired
      | None => false
      end in
    if authFailure then
      (trace pageRes ++ cleanup (cleanupAfter w) (trace zipRun) tempZip,
       (noResult, option_map errAuthGuidance pageErr))
    else
      let rootDir := Join baseOutputDir title in
      let nonEmpty :=
        negb (Overwrite opts)
        && match readDir w with inl _ => false | inr n => (0 <? n)%nat end in
      let evDir := if Overwrite opts then [] else
                     match readDir w with inl _ => [] | inr _ => [EvReadDir rootDir] end in
      if nonEmpty then
        (trace pageRes ++ evDir ++ cleanup (cleanupAfter w) (trace zipRun) tempZip,
         (mkResult title rootDir [] [] [] [], Some (errDirectoryExists rootDir)))
      else
        match mkdirRoot w with
        | Some msg =>
            (trace pageRes ++ evDir ++ cleanup (cleanupAfter w) (trace zipRun) tempZip,
             (noResult, Some (errCreateOutputDir msg)))
        | None =>
            let '(ev, out) :=
              assemble usesPool rawURL session baseOutputDir title info pageInfo zipRun w in
            (trace pageRes ++ evDir ++ [EvMkdirAll rootDir] ++ ev, out)
        end
  end.

(** [pageInfo] once [pageRes := <-pageCh] is received: the zero value when
    the page could not be fetched. *)
Definition pageInfoOf (rawURL : gostring) (opts : Options) (w : World) : pageInfo :=
  match snd (fetchPageInfo rawURL (sessionOf opts w) (page w)) with
  | inl _ => noPageInfo
  | inr pi => pi
  end.

(** [title] once the page has answered: the title of the page when there
    is one, the identifier of the recording otherwise. *)
Definition titleOf (rawURL : gostring) (opts : Options) (w : World)
    (info : recordingInfo) : gostring :=
  if bool_decide (errOf (fetchPageInfo rawURL (sessionOf opts w) (page w)) = None)
     && negb (eqb (pageTitle (pageInfoOf rawURL opts w)) [])
  then sanitize (pageTitle (pageInfoOf rawURL opts w)) else sanitize (ID info).

(** The video download [Download] starts when the page names a video. *)
Definition videoTask (usesPool : bool) (rawURL session : gostring)
    (info : recordingInfo) (baseOutputDir : gostring) (pageInfo : pageInfo) (w : World)
    : M unit :=
  runTask usesPool (poolCtxErr w)
    (Transfer.downloadFile (VideoSrc pageInfo) (tempMP4Path baseOutputDir (ID info))
       (Transfer.mkDownloadOptions (mergeCookies session (pageCookies pageInfo)) rawURL
          Transfer.fileKindVideo)
       (videoDownload w)).

(** [Download] takes one of its three early returns: the page asks for
    authentication, the directory of the recording holds something and is
    not to be overwritten, or the directory cannot be made. *)
Definition returnsEarly (rawURL : gostring) (opts : Options) (w : World) : bool :=
  match errOf (fetchPageInfo rawURL (sessionOf opts w) (page w)) with
  | Some e => errorsIs e SAuthRequired
  | None => false
  end
  || (negb (Overwrite opts)
      && match readDir w with inl _ => false | inr n => (0 <? n)%nat end)
  || match mkdirRoot w with Some _ => true | None => false end.

(** The warnings [Download] records for the archive, the video and the
    metadata file when it runs to the end. *)
Definition archiveWarnings (zipDownloadErr : option Error) : list gostring :=
  match zipDownloadErr with
  | Some e =>
      if errorsIs e SNotFound then [warnNoZip]
      else if errorsIs e SInvalidZip then [warnInvalidZip]
      else []
  | None => []
  end.


Definition metadataWarnings (w : World) : list gostring :=
  match writeMetadata w with
  | Some msg => [go "write metadata: " ++ msg]
  | None => []
  end.

End Orchestrator.

(* ===================================================================== *)
(** ** Concrete inputs used by the examples *)
(* ===================================================================== *)

Module Samples.
Import GoString Errors Effects Pool.


(** A running pool whose queue of one place is taken. *)
Definition fullPool : Pool :=
  fst (Submit (Start (NewDownloadPool 1 1)) (mkJob 7 JobTypeDocument false None (ret tt))).

(** A job with a completion callback. *)
Definition zipJob : DownloadJob := mkJob 0 JobTypeZip true None (ret tt).

(** A recording whose page, archive and video are all served. *)
Definition rawURL : gostring := go "https://h/rec/".

Definition info : Orchestrator.recordingInfo :=
  Orchestrator.mkRecordingInfo (go "rec") (go "https://h/rec") rawURL (go "h").

Definition opts : Orchestrator.Options := Orchestrator.mkOptions (go "out") [] false.

Definition servedPage : Orchestrator.PageOutcomes :=
  Orchestrator.mkPageOutcomes None
    (inr (Orchestrator.mkPageResponse 200 None (go "Lecture 1")
            (go "https://h/rec/output/rec.mp4") [] [] [] [])).

Definition zipBody : list Z := [80; 75; 3; 4; 20; 0; 0; 0].
Definition videoBody : list Z := repeat 0 2048.

Definition binary (body : list Z) : Transfer.Response :=
  Transfer.mkResponse 200 (go "application/octet-stream") body None.

(** The world in which everything is served and no call fails; the
    recording directory does not exist yet. *)
Definition goodWorld : Orchestrator.World :=
  Orchestrator.mkWorld (inr info) [] servedPage
    (Transfer.served (binary zipBody)) (Transfer.served (binary videoBody))
    None (inl (go "no such file or directory")) None None None None None
    (inr [(Zip.mkFile (go "indexstream.xml") false [60], Zip.noFault)])
    None 0.

Definition withZip (o : Transfer.Outcomes) (w : Orchestrator.World) : Orchestrator.World :=
  Orchestrator.mkWorld (Orchestrator.parsed w) (Orchestrator.querySession w)
    (Orchestrator.page w) o (Orchestrator.videoDownload w)
    (Orchestrator.poolCtxErr w) (Orchestrator.readDir w) (Orchestrator.mkdirRoot w)
    (Orchestrator.renameZip w) (Orchestrator.copyZip w) (Orchestrator.renameMP4 w)
    (Orchestrator.copyMP4 w) (Orchestrator.archive w) (Orchestrator.writeMetadata w)
    (Orchestrator.cleanupAfter w).

Definition withPage (o : Orchestrator.PageOutcomes) (w : Orchestrator.World)
    : Orchestrator.World :=
  Orchestrator.mkWorld (Orchestrator.parsed w) (Orchestrator.querySession w)
    o (Orchestrator.zipDownload w) (Orchestrator.videoDownload w)
    (Orchestrator.poolCtxErr w) (Orchestrator.readDir w) (Orchestrator.mkdirRoot w)
    (Orchestrator.renameZip w) (Orchestrator.copyZip w) (Orchestrator.renameMP4 w)
    (Orchestrator.copyMP4 w) (Orchestrator.archive w) (Orchestrator.writeMetadata w)
    (Orchestrator.cleanupAfter w).

Definition withReadDir (r : gostring + nat) (w : Orchestrator.World) : Orchestrator.World :=
  Orchestrator.mkWorld (Orchestrator.parsed w) (Orchestrator.querySession w)
    (Orchestrator.page w) (Orchestrator.zipDownload w) (Orchestrator.videoDownload w)
    (Orchestrator.poolCtxErr w) r (Orchestrator.mkdirRoot w)
    (Orchestrator.renameZip w) (Orchestrator.copyZip w) (Orchestrator.renameMP4 w)
    (Orchestrator.copyMP4 w) (Orchestrator.archive w) (Orchestrator.writeMetadata w)
    (Orchestrator.cleanupAfter w).

(** The archive is answered with status 403, the video is served. *)
Definition forbiddenZipWorld : Orchestrator.World :=
  withZip (Transfer.served (Transfer.mkResponse 403 (go "text/plain") [] None)) goodWorld.



(** The archive is answered with status 404. *)
Definition missingZipWorld : Orchestrator.World :=
  withZip (Transfer.served (Transfer.mkResponse 404 (go "text/plain") [] None)) goodWorld.

(** A cookie list with a nil cookie, an unnamed cookie and duplicates. *)
Definition extraCookies : list Cookies.CookiePtr :=
  [Some (Cookies.mkCookie Cookies.BREEZESESSION (go "old")); None;
   Some (Cookies.mkCookie (go "a") (go "1")); Some (Cookies.mkCookie [] (go "x"));
   Some (Cookies.mkCookie (go "a") (go "2"))].

(** The recording directory exists and holds one entry; the staged archive
    is removed before the archive download has created it. *)
Definition existingDirWorld : Orchestrator.World :=
  withReadDir (inr 1%nat) goodWorld.

(** The page is answered with status 403. *)
Definition authWorld : Orchestrator.World :=
  withPage (Orchestrator.mkPageOutcomes None
              (inr (Orchestrator.mkPageResponse 403 None [] [] [] [] [] []))) goodWorld.

End Samples.


(* ===================================================================== *)
(** ** The command line: [cmd/download.go] *)
(* ===================================================================== *)

Module Batch.
Import GoString Errors Cookies.

(** The loop of [deduplicateURLs], with the two variables it updates. *)
Fixpoint dedupLoop (seen : gmap (list Z) bool) (result : list gostring)
    (urls : list gostring) : list gostring :=
  match urls with
  | [] => result
  | url :: rest =>
      if negb (seenAt seen url)
      then dedupLoop (<[url := true]> seen) (result ++ [url]) rest
      else dedupLoop seen result rest
  end.

(** [deduplicateURLs(urls)]. *)
Definition deduplicateURLs (urls : list gostring) : list gostring :=
  dedupLoop ∅ [] urls.

(** The loop of [readURLsFromFile] over the lines the scanner delivers. *)
Fixpoint readLoop (urls : list gostring) (lines : list gostring) : list gostring :=
  match lines with
  | [] => urls
  | text :: rest =>
      let line := trimSpace text in
      if eqb line [] || hasPrefix line (go "#") then readLoop urls rest
      else readLoop (urls ++ [line]) rest
  end.

(** [readURLsFromFile(path)].  [file] is what the operating system gives:
    the error of [os.Open], or the lines [scanner.Scan] delivers, in order,
    with the error [scanner.Err] reports once they are read. *)
Definition readURLsFromFile (file : gostring + list gostring * option gostring)
    : Error + list gostring :=
  match file with
  | inl msg => inl (EExternal msg)
  | inr (lines, scanErr) =>
      let urls := readLoop [] lines in
      match scanErr with
      | Some msg => inl (EExternal msg)
      | None => inr urls
      end
  end.

(** The start of the command, up to [urls = deduplicateURLs(urls)]:
    [fileFlag] is the value of the flag [--file] and [file] what reading
    that file gives. *)
Definition collectURLs (args : list gostring) (fileFlag : gostring)
    (file : gostring + list gostring * option gostring) : Error + list gostring :=
  let urls := [] ++ args in
  match (if negb (eqb fileFlag [])
         then match readURLsFromFile file with
              | inl err => inl (EWrap (go "failed to read URLs from file: ") err [])
              | inr fileURLs => inr (urls ++ fileURLs)
              end
         else inr urls) with
  | inl err => inl err
  | inr urls =>
      if (length urls =? 0)%nat
      then inl (ENew (go "no URLs provided. Specify URLs as arguments or use --file/-f"))
      else inr (deduplicateURLs urls)
  end.

(** A 64-bit signed integer operation wraps around. *)
Definition wrap64 (z : Z) : Z := (z + 2 ^ 63) mod 2 ^ 64 - 2 ^ 63.

(** The conversion [float64(z)] of a non-negative [int64]: the nearest
    binary64 number, a tie going to the even one. *)
Definition float64 (z : Z) : PrimFloat.float := PrimFloat.of_uint63 (Uint63.of_Z z).

(** What [formatBytes] hands to [fmt.Sprintf]. *)
Inductive Formatted :=
  | Plain (bytes : Z)                 (* the format %d B *)
  | Scaled (quotient : PrimFloat.float) (unit : rune).
                                      (* the format %.1f %cB: the quotient, a
                                         binary64 number, and the unit letter *)

(** The loop [for n := bytes / unit; n >= unit; n /= unit] of [formatBytes]
    with the variables [div] and [exp].  An [int64] has 63 value bits and
    every turn removes ten of them: [fuel] bounds the number of turns. *)
Fixpoint unitLoop (fuel : nat) (n div exp : Z) : option (Z * Z) :=
  match fuel with
  | O => None
  | S fuel =>
      if 1024 <=? n
      then unitLoop fuel (Z.quot n 1024) (wrap64 (div * 1024)) (wrap64 (exp + 1))
      else Some (div, exp)
  end.

(** The string the unit letter is taken from. *)
Definition units : gostring := go "KMGTPE".

(** [formatBytes(bytes)], up to the call of [fmt.Sprintf], which turns the
    arguments into text: the quotient is the binary64 division of the two
    converted integers, as the code computes it.  The outer [None] stands
    for a loop that does not end within the fuel, the inner one for the
    run-time panic of an index out of range. *)
Definition formatBytes (bytes : Z) : option (option Formatted) :=
  if bytes <? 1024 then Some (Some (Plain bytes))
  else
    match unitLoop 64 (Z.quot bytes 1024) 1024 0 with
    | None => None
    | Some (div, exp) =>
        Some (if (0 <=? exp) && (exp <? Z.of_nat (length units))
              then match units !! Z.to_nat exp with
                   | Some unit =>
                       Some (Scaled (PrimFloat.div (float64 bytes) (float64 div)) unit)
                   | None => None
                   end
              else None)
    end.

(** One call of the function [makeProgressCallback] returns, from the value
    [lastPercent] of its captured variable: the new value, and the percentage
    it logs, if it logs. *)
Definition progressCallback (lastPercent downloaded total : Z) : Z * option Z :=
  if total <=? 0 then (lastPercent, None)
  else
    let percent := Z.quot (wrap64 (downloaded * 100)) total in
    if Z.quot lastPercent 10 <? Z.quot percent 10
    then (percent, Some percent)
    else (lastPercent, None).

(** The percentages logged over the calls made during one download, each
    call with its arguments [(downloaded, total)]. *)
Fixpoint progressLog (lastPercent : Z) (calls : list (Z * Z)) : list Z :=
  match calls with
  | [] => []
  | (downloaded, total) :: rest =>
      let '(lastPercent', logged) := progressCallback lastPercent downloaded total in
      match logged with
      | Some percent => percent :: progressLog lastPercent' rest
      | None => progressLog lastPercent' rest
      end
  end.

(** [makeProgressCallback(recordingID, logger)]: the captured variable starts
    at -1. *)
Definition makeProgressCallback (calls : list (Z * Z)) : list Z :=
  progressLog (-1) calls.


End Batch.


(* ===================================================================== *)
(** ** Time stamps and log lines: [formatMilliseconds], [truncateURL] *)
(* ===================================================================== *)

Module Stamps.
Import GoString.

(** [fmt.Sprintf] of an integer with the verb [%02d]: at least two
    characters, zeros added on the left.  The sign of a negative number
    counts as a character, so that no negative number is padded. *)
Definition pad2 (z : Z) : gostring :=
  let s := decimal z in
  if (length s <? 2)%nat then 48 :: s else s.

(** [formatMilliseconds(ms)]; the division and the remainder of Go round
    towards zero. *)
Definition formatMilliseconds (ms : Z) : gostring :=
  let secs := ms ÷ 1000 in
  let hours := secs ÷ 3600 in
  let mins := Z.rem secs 3600 ÷ 60 in
  let seconds := Z.rem secs 60 in
  pad2 hours ++ go ":" ++ pad2 mins ++ go ":" ++ pad2 seconds.

(** The number a string of decimal digits stands for, read from the left
    with [acc] the value of the digits read so far. *)
Fixpoint digitsValue (acc : Z) (s : gostring) : Z :=
  match s with
  | [] => acc
  | c :: cs => digitsValue (acc * 10 + (c - 48)) cs
  end.

Definition isDigit (c : rune) : bool := (48 <=? c) && (c <=? 57).

(** [truncateURL(u)]; the string is taken as its bytes, which is what
    [len] counts and what a slice expression cuts. *)
Definition truncateURL (u : list Z) : list Z :=
  if (length u <=? 80)%nat then u else take 77 u ++ go "...".

End Stamps.


(* ===================================================================== *)
(** ** What the files hold *)
(* ===================================================================== *)

Module Store.
Import GoString Effects.

(** What an event does to the content of the files: a created file is
    empty, written bytes are added at its end, a renamed or copied file
    takes its content along. *)
Definition write (ev : Event) (fs : gmap (list Z) (list Z)) : gmap (list Z) (list Z) :=
  match ev with
  | EvCreate p => <[p := []]> fs
  | EvWrite p d =>
      match fs !! p with
      | Some c => <[p := c ++ d]> fs
      | None => fs
      end
  | EvRemove p => delete p fs
  | EvRename old new =>
      match fs !! old with
      | Some c => <[new := c]> (delete old fs)
      | None => fs
      end
  | EvCopyFile dst src =>
      match fs !! src with
      | Some c => <[dst := c]> fs
      | None => fs
      end
  | _ => fs
  end.

Definition contentsAfter (tr : list Event) (fs : gmap (list Z) (list Z))
    : gmap (list Z) (list Z) :=
  fold_left (fun fs ev => write ev fs) tr fs.

(** The events of an entry that is extracted without a fault. *)
Definition entryEvents (dest : gostring) (f : Zip.File) : list Event :=
  let target := Path.Join dest (Zip.Name f) in
  if Zip.IsDir f then [EvMkdirAll target]
  else [EvMkdirAll (Path.Dir target); EvCreate target; EvWrite target (Zip.Content f)].

(** An event that removes or moves nothing but a staged file, and moves it
    to its final place only. *)
Definition tidy (tempZip tempMP4 zipPath mp4Path : gostring) (ev : Event) : Prop :=
  match ev with
  | EvRemove p => p = tempZip \/ p = tempMP4
  | EvRename old new | EvCopyFile new old =>
      (old = tempZip /\ new = zipPath) \/ (old = tempMP4 /\ new = mp4Path)
  | _ => True
  end.

End Store.


(* ===================================================================== *)
(** ** Recording URLs: [parseRecordingURL] *)
(* ===================================================================== *)

Module Recording.
Import GoString Errors Path Orchestrator.

(** The fields of a [url.URL] the package reads. *)
Record URL := mkURL {
  Scheme : gostring;
  Host : gostring;
  UPath : gostring       (* u.Path *)
}.

Fixpoint dropSlashes (s : gostring) : gostring :=
  match s with
  | [] => []
  | c :: cs => if c =? sep then dropSlashes cs else s
  end.

(** [strings.Trim(s, "/")]. *)
Definition trimSlashes (s : gostring) : gostring :=
  rev (dropSlashes (rev (dropSlashes s))).

(** [parseRecordingURL(raw)], over the function [url.Parse] of the standard
    library, of which nothing is assumed. *)
Definition parseRecordingURL (urlParse : gostring -> gostring + URL) (raw : gostring)
    : Error + recordingInfo :=
  let raw :=
    if negb (hasPrefix raw (go "http://")) && negb (hasPrefix raw (go "https://"))
    then go "https://" ++ raw else raw in
  match urlParse raw with
  | inl msg => inl (EWrap (go "parse url: ") (EExternal msg) [])
  | inr u =>
      if eqb (Host u) [] then inl (ENew (go "invalid url: host missing"))
      else
        let path := trimSlashes (UPath u) in
        let parts := splitSep path in
        if (length parts =? 0)%nat || eqb (List.hd [] parts) []
        then inl (ENew (go "invalid url: recording id missing"))
        else
          let id := List.last parts [] in
          let basePath := go "/" ++ joinSep parts in
          let baseURL := Scheme u ++ go "://" ++ Host u ++ basePath in
          inr (mkRecordingInfo id baseURL raw (Host u))
  end.

(** Where a path joined to a directory lies: the directory, cleaned, with a
    separator after it unless it is the root or the current directory. *)
Definition under (a : gostring) : gostring :=
  if eqb (Clean a) dot then []
  else if eqb (Clean a) [sep] then [sep]
  else Clean a ++ [sep].

(** What the element pass leaves: [..] elements, and none of them in a
    rooted path, followed by names. *)
Definition cleaned (rooted : bool) (l : list gostring) : Prop :=
  exists n names, l = repeat dotdot n ++ names /\ Forall isName names
                  /\ (rooted = true -> n = 0%nat).

(** The elements the cleaning of a path keeps. *)
Definition kept (a : gostring) : list gostring :=
  cleanStack (hasPrefix a [sep]) [] (splitSep a).

(** The parser of the example below: it knows one URL. *)
Definition sampleParse (raw : gostring) : gostring + URL :=
  if eqb raw (go "https://example.com/foo/bar/")
  then inr (mkURL (go "https") (go "example.com") (go "/foo/bar/"))
  else inl (go "unknown").

End Recording.


(* ===================================================================== *)
(** * Properties *)
(* ===================================================================== *)

Import GoString.

(** ** Go strings *)

Lemma hasPrefix_app (p r : gostring) : hasPrefix (p ++ r) p = true.
Proof.
  induction p as [|c p IH]; simpl; [reflexivity|].
  rewrite Z.eqb_refl. exact IH.
Qed.

Lemma hasPrefix_inv (s p : gostring) :
  hasPrefix s p = true -> exists r, s = p ++ r.
Proof.
  revert s. induction p as [|c p IH]; intros s H; simpl in *.
  - exists s. reflexivity.
  - destruct s as [|d s]; [discriminate|].
    apply andb_true_iff in H as [Hc Hp].
    apply Z.eqb_eq in Hc. subst d.
    destruct (IH _ Hp) as [r ->]. exists r. reflexivity.
Qed.

Lemma trimLeft_no_leading_space (s : gostring) :
  match trimLeft s with [] => True | c :: _ => isSpace c = false end.
Proof.
  induction s as [|c s IH]; simpl; [exact I|].
  destruct (isSpace c) eqn:E; [exact IH|]. simpl. exact E.
Qed.

Lemma trimLeft_fixed (s : gostring) :
  match s with [] => True | c :: _ => isSpace c = false end ->
  trimLeft s = s.
Proof.
  destruct s as [|c s]; simpl; [reflexivity|]. intros ->. reflexivity.
Qed.

Lemma trimLeft_idem (s : gostring) : trimLeft (trimLeft s) = trimLeft s.
Proof. apply trimLeft_fixed, trimLeft_no_leading_space. Qed.

Lemma trimLeft_suffix (s : gostring) : exists p, s = p ++ trimLeft s.
Proof.
  induction s as [|c s [p IH]]; simpl.
  - exists []. reflexivity.
  - destruct (isSpace c).
    + exists (c :: p). simpl. f_equal. exact IH.
    + exists []. reflexivity.
Qed.


(** ** mergeCookies *)

Import Cookies.

Lemma names_app (a b : list CookiePtr) : names (a ++ b) = names a ++ names b.
Proof. unfold names. apply omap_app. Qed.

Lemma eqb_true (a b : gostring) : eqb a b = true <-> a = b.
Proof. unfold eqb. apply bool_decide_eq_true. Qed.

Lemma eqb_false (a b : gostring) : eqb a b = false <-> a <> b.
Proof. unfold eqb. apply bool_decide_eq_false. Qed.

Lemma seenAt_insert (seen : gmap (list Z) bool) (k k' : gostring) :
  seenAt (<[k := true]> seen) k' = true <-> k = k' \/ seenAt seen k' = true.
Proof.
  unfold seenAt. destruct (decide (k = k')) as [->|Hne].
  - rewrite lookup_insert_eq. simpl. tauto.
  - rewrite lookup_insert_ne by exact Hne. split; [tauto|].
    intros [H|H]; [contradiction|exact H].
Qed.


Lemma mergeInv_push seen cookies ck :
  mergeInv seen cookies -> Name ck <> [] -> seenAt seen (Name ck) = false ->
  mergeInv (<[Name ck := true]> seen) (cookies ++ [Some ck]).
Proof.
  intros [Hs Hn Hp He] Hname Hfresh.
  assert (Hnot : ~ In (Name ck) (names cookies)).
  { intros Hin. apply Hs in Hin. congruence. }
  split.
  - intros k. rewrite seenAt_insert, names_app, in_app_iff, Hs. simpl. tauto.
  - rewrite names_app. simpl. apply List.NoDup_app.
    + exact Hn.
    + constructor; [intros []|constructor].
    + intros x Hx [<-|[]]. contradiction.
  - apply Forall_app. split; [exact Hp|]. constructor; [discriminate|constructor].
  - rewrite names_app. apply Forall_app. split; [exact He|].
    constructor; [exact Hname|constructor].
Qed.

Lemma mergeLoop_inv extra : forall seen cookies,
  mergeInv seen cookies ->
  exists seen', mergeInv seen' (mergeLoop seen cookies extra).
Proof.
  induction extra as [|c rest IH]; intros seen cookies Hinv; simpl.
  - exists seen. exact Hinv.
  - destruct c as [ck|]; [|apply IH; exact Hinv].
    destruct (eqb (Name ck) []) eqn:En; [apply IH; exact Hinv|].
    destruct (seenAt seen (Name ck)) eqn:Es; [apply IH; exact Hinv|].
    apply IH, mergeInv_push; [exact Hinv | apply eqb_false; exact En | exact Es].
Qed.

Lemma mergeLoop_extends extra : forall seen cookies,
  exists tl, mergeLoop seen cookies extra = cookies ++ tl
             /\ forall c, In c tl -> In c extra.
Proof.
  induction extra as [|c rest IH]; intros seen cookies; simpl.
  - exists []. rewrite app_nil_r. split; [reflexivity|]. intros c [].
  - assert (Hskip : exists tl, mergeLoop seen cookies rest = cookies ++ tl
                               /\ forall c0, In c0 tl -> c = c0 \/ In c0 rest).
    { destruct (IH seen cookies) as [tl [E H]]. exists tl. split; [exact E|].
      intros c0 H0. right. apply H. exact H0. }
    destruct c as [ck|]; [|exact Hskip].
    destruct (eqb (Name ck) []); [exact Hskip|].
    destruct (seenAt seen (Name ck)); [exact Hskip|].
    destruct (IH (<[Name ck := true]> seen) (cookies ++ [Some ck])) as [tl [E H]].
    exists (Some ck :: tl). split.
    + rewrite E, <- app_assoc. reflexivity.
    + intros c0 [<-|H0]; [left; reflexivity | right; apply H; exact H0].
Qed.

(** Every cookie of [extra] that is non-nil and named has its name in the
    result: nothing but duplicates, nil cookies and unnamed cookies is
    dropped. *)
Lemma mergeLoop_covers extra : forall seen cookies ck,
  mergeInv seen cookies ->
  (In (Some ck) extra \/ In (Name ck) (names cookies)) -> Name ck <> [] ->
  In (Name ck) (names (mergeLoop seen cookies extra)).
Proof.
  induction extra as [|c rest IH]; intros seen cookies ck Hinv Hin Hname; simpl.
  - destruct Hin as [[]|H]; exact H.
  - assert (Hskip : (c = Some ck -> In (Name ck) (names cookies)) ->
                    In (Name ck) (names (mergeLoop seen cookies rest))).
    { intros Hc. apply IH; [exact Hinv| |exact Hname].
      destruct Hin as [[E|H]|H]; [right; apply Hc; exact E | left; exact H | right; exact H]. }
    destruct c as [ck'|]; [|apply Hskip; discriminate].
    destruct (eqb (Name ck') []) eqn:En.
    { apply Hskip. intros [= ->]. apply eqb_true in En. contradiction. }
    destruct (seenAt seen (Name ck')) eqn:Es.
    { apply Hskip. intros [= ->]. apply (inv_seen _ _ Hinv). exact Es. }
    apply IH; [|  |exact Hname].
    + apply mergeInv_push; [exact Hinv | apply eqb_false; exact En | exact Es].
    + rewrite names_app, in_app_iff. simpl.
      destruct Hin as [[E|H]|H].
      * injection E as ->. right. right. left. reflexivity.
      * left. exact H.
      * right. left. exact H.
Qed.

Lemma mergeInv_empty : mergeInv ∅ [].
Proof.
  split; simpl; try constructor.
  - unfold seenAt. rewrite lookup_empty. simpl. discriminate.
  - intros [].
Qed.

Lemma mergeInv_session session :
  mergeInv (<[BREEZESESSION := true]> ∅) ([] ++ [Some (mkCookie BREEZESESSION session)]).
Proof.
  apply (mergeInv_push ∅ [] (mkCookie BREEZESESSION session) mergeInv_empty).
  - discriminate.
  - unfold seenAt. rewrite lookup_empty. reflexivity.
Qed.

(** C10. For every session string and every list of extra cookies, the list
    returned by [mergeCookies] has no two cookies of the same name, holds no
    nil cookie and no cookie with an empty name, keeps the name of every
    named cookie of the extra list, and, when the session string is not
    empty, starts with a BREEZESESSION cookie that carries the session value
    while no later cookie is called BREEZESESSION. *)
Theorem C10_mergeCookies_unique_session_first
    (session : gostring) (extra : list CookiePtr) :
  let result := mergeCookies session extra in
  List.NoDup (names result)
  /\ List.Forall (fun c : CookiePtr => c <> None) result
  /\ List.Forall (fun k : gostring => k <> []) (names result)
  /\ (forall ck, In (Some ck) extra -> Name ck <> [] -> In (Name ck) (names result))
  /\ (session <> [] ->
      exists tl, result = Some (mkCookie BREEZESESSION session) :: tl
                 /\ ~ In BREEZESESSION (names tl)
                 /\ forall c, In c tl -> In c extra).
Proof.
  unfold mergeCookies. simpl.
  destruct (eqb session []) eqn:Es; simpl.
  - destruct (mergeLoop_inv extra ∅ [] mergeInv_empty) as [seen' [_ Hn Hp He]].
    repeat split; try assumption.
    + intros ck Hin Hname.
      apply mergeLoop_covers; [exact mergeInv_empty | left; exact Hin | exact Hname].
    + intros Hne. apply eqb_true in Es. contradiction.
  - pose proof (mergeInv_session session) as Hinv0. simpl in Hinv0.
    destruct (mergeLoop_inv extra _ _ Hinv0) as [seen' [_ Hn Hp He]].
    repeat split; try assumption.
    + intros ck Hin Hname.
      apply mergeLoop_covers; [exact Hinv0 | left; exact Hin | exact Hname].
    + intros _.
      destruct (mergeLoop_extends extra (<[BREEZESESSION := true]> ∅)
                  [Some (mkCookie BREEZESESSION session)]) as [tl [E Htl]].
      exists tl. split; [exact E|]. split; [|exact Htl].
      rewrite E in Hn. simpl in Hn. inversion Hn; assumption.
Qed.

(** ** Trimming *)

Lemma trimLeft_split (s : gostring) :
  exists p, s = p ++ trimLeft s /\ allSpace p.
Proof.
  induction s as [|c s [p [IH Hp]]]; simpl.
  - exists []. split; [reflexivity|constructor].
  - destruct (isSpace c) eqn:E.
    + exists (c :: p). split; [simpl; f_equal; exact IH|constructor; assumption].
    + exists []. split; [reflexivity|constructor].
Qed.

Lemma trimRight_split (s : gostring) :
  exists q, s = trimRight s ++ q /\ allSpace q.
Proof.
  unfold trimRight. destruct (trimLeft_split (rev s)) as [p [E Hp]].
  exists (rev p). split.
  - rewrite <- rev_app_distr, <- E, rev_involutive. reflexivity.
  - apply Forall_rev. exact Hp.
Qed.

Lemma trimSpace_split (s : gostring) :
  exists p q, s = p ++ trimSpace s ++ q /\ allSpace p /\ allSpace q.
Proof.
  unfold trimSpace.
  destruct (trimLeft_split s) as [p [E Hp]].
  destruct (trimRight_split (trimLeft s)) as [q [E' Hq]].
  exists p, q. rewrite <- E', <- E. auto.
Qed.

Lemma trimRight_noTrail (s : gostring) : noTrail (trimRight s).
Proof.
  unfold noTrail, trimRight. rewrite rev_involutive.
  apply trimLeft_no_leading_space.
Qed.

Lemma trimRight_noLead (s : gostring) : noLead s -> noLead (trimRight s).
Proof.
  intros H. destruct (trimRight_split s) as [q [E _]].
  destruct (trimRight s) as [|c t] eqn:Et; [exact I|].
  rewrite E in H. exact H.
Qed.

Lemma trimSpace_noLead (s : gostring) : noLead (trimSpace s).
Proof. apply trimRight_noLead, trimLeft_no_leading_space. Qed.

Lemma trimSpace_noTrail (s : gostring) : noTrail (trimSpace s).
Proof. apply trimRight_noTrail. Qed.

Lemma trimSpace_fixed (s : gostring) : noLead s -> noTrail s -> trimSpace s = s.
Proof.
  intros Hl Ht. unfold trimSpace, trimRight.
  rewrite (trimLeft_fixed s Hl), (trimLeft_fixed (rev s) Ht).
  apply rev_involutive.
Qed.

Lemma trimSpace_idem (s : gostring) : trimSpace (trimSpace s) = trimSpace s.
Proof. apply trimSpace_fixed; [apply trimSpace_noLead|apply trimSpace_noTrail]. Qed.

Lemma trimSpace_Forall (P : Z -> Prop) (s : gostring) :
  Forall P s -> Forall P (trimSpace s).
Proof.
  intros H. destruct (trimSpace_split s) as [p [q [E _]]].
  rewrite E in H. apply Forall_app in H as [_ H].
  apply Forall_app in H as [H _]. exact H.
Qed.

Lemma trimLeft_nil_iff (s : gostring) : trimLeft s = [] <-> allSpace s.
Proof.
  induction s as [|c s IH]; simpl.
  - split; [constructor|reflexivity].
  - destruct (isSpace c) eqn:E.
    + rewrite IH. split; [constructor; assumption|].
      intros H. inversion H; assumption.
    + split; [discriminate|]. intros H. inversion H; congruence.
Qed.

Lemma trimSpace_nil_iff (s : gostring) : trimSpace s = [] <-> allSpace s.
Proof.
  split.
  - intros H. destruct (trimSpace_split s) as [p [q [E [Hp Hq]]]].
    rewrite H in E. simpl in E. subst s. apply Forall_app. auto.
  - intros H. unfold trimSpace.
    apply trimLeft_nil_iff in H. rewrite H. reflexivity.
Qed.

(** ** sanitize *)

Import Sanitize.

Lemma replaceRuns_legal (s : gostring) : forall b, legal (replaceRuns b s).
Proof.
  induction s as [|c s IH]; intros b; simpl; [constructor|].
  destruct (isIllegal c) eqn:E.
  - destruct b; [apply IH|]. constructor; [reflexivity|apply IH].
  - constructor; [exact E|apply IH].
Qed.

Lemma replaceRuns_fixed (s : gostring) : forall b, legal s -> replaceRuns b s = s.
Proof.
  induction s as [|c s IH]; intros b H; simpl; [reflexivity|].
  inversion H as [|? ? Hc Hs]; subst. rewrite Hc. f_equal. apply IH. exact Hs.
Qed.

(** What [replaceRuns] keeps of the input are its legal runes; what it adds
    are spaces. *)
Lemma replaceRuns_allSpace (s : gostring) : forall b,
  allSpace (replaceRuns b s) <-> allSpace (filter (fun c => isIllegal c = false) s).
Proof.
  induction s as [|c s IH]; intros b; [reflexivity|].
  cbn [replaceRuns]. destruct (isIllegal c) eqn:E.
  - rewrite filter_cons_False by (rewrite E; discriminate).
    destruct b; [apply IH|]. etransitivity; [|apply (IH true)]. split.
    + intros H. inversion H; assumption.
    + intros H. constructor; [reflexivity|exact H].
  - rewrite filter_cons_True by exact E. split.
    + intros H. inversion H; subst. constructor; [assumption|].
      apply (IH false). assumption.
    + intros H. inversion H; subst. constructor; [assumption|].
      apply (IH false). assumption.
Qed.

Lemma filter_allSpace_app (P : Z -> Prop) `{!forall c, Decision (P c)} (a b : gostring) :
  allSpace (filter P (a ++ b)) <-> allSpace (filter P a) /\ allSpace (filter P b).
Proof. rewrite filter_app. apply Forall_app. Qed.

Lemma allSpace_filter (P : Z -> Prop) `{!forall c, Decision (P c)} (a : gostring) :
  allSpace a -> allSpace (filter P a).
Proof.
  intros Ha. apply Forall_forall. intros x Hx.
  apply list_elem_of_filter in Hx as [_ Hx].
  revert x Hx. apply Forall_forall. exact Ha.
Qed.

(** The condition the code tests before it falls back is the one the spec
    words. *)
Lemma sanitize_empty_iff (name : gostring) :
  trimSpace (replaceRuns false (trimSpace name)) = [] <-> reducesToEmpty name.
Proof.
  unfold reducesToEmpty. rewrite !trimSpace_nil_iff, replaceRuns_allSpace.
  destruct (trimSpace_split name) as [p [q [E [Hp Hq]]]].
  rewrite E at 2. rewrite !filter_allSpace_app. split.
  - intros Hm. repeat split; [apply allSpace_filter, Hp|exact Hm|apply allSpace_filter, Hq].
  - intros [_ [Hm _]]. exact Hm.
Qed.

Lemma sanitize_cases (name : gostring) :
  (reducesToEmpty name /\ sanitize name = fallbackName)
  \/ (~ reducesToEmpty name
      /\ sanitize name = trimSpace (replaceRuns false (trimSpace name))
      /\ sanitize name <> []).
Proof.
  unfold sanitize.
  destruct (eqb (trimSpace (replaceRuns false (trimSpace name))) []) eqn:E.
  - left. apply eqb_true in E. split; [apply sanitize_empty_iff; exact E|reflexivity].
  - right. apply eqb_false in E. rewrite <- sanitize_empty_iff. auto.
Qed.

Lemma trimmed_legal_fixed (t : gostring) :
  noLead t -> noTrail t -> legal t -> t <> [] -> sanitize t = t.
Proof.
  intros Hl Ht Hleg Hne. unfold sanitize.
  rewrite (trimSpace_fixed t Hl Ht), (replaceRuns_fixed t false Hleg),
          (trimSpace_fixed t Hl Ht).
  apply eqb_false in Hne. rewrite Hne. reflexivity.
Qed.

(** C9. For every input, the output of [sanitize] is not empty, neither
    starts nor ends with white space, and holds none of the characters
    less-than, greater-than, colon, double quote, slash, backslash, bar,
    question mark, asterisk nor a control character below 32; an input that
    is empty once the illegal characters are removed and the rest is trimmed
    gives the name recording; and [sanitize] is idempotent. *)
Theorem C9_sanitize_safe_name_idempotent (name : gostring) :
  sanitize name <> []
  /\ noLead (sanitize name) /\ noTrail (sanitize name)
  /\ Forall (fun c => isIllegal c = false) (sanitize name)
  /\ (reducesToEmpty name -> sanitize name = go "recording")
  /\ sanitize (sanitize name) = sanitize name.
Proof.
  assert (Hfb : noLead fallbackName /\ noTrail fallbackName /\ legal fallbackName
                /\ fallbackName <> []).
  { repeat split; try discriminate. vm_compute. repeat constructor. }
  destruct (sanitize_cases name) as [[Hr E]|[Hr [E Hne]]].
  - rewrite E. destruct Hfb as [Hl [Ht [Hleg Hn]]].
    repeat split; assumption.
  - assert (Hl : noLead (sanitize name)) by (rewrite E; apply trimSpace_noLead).
    assert (Ht : noTrail (sanitize name)) by (rewrite E; apply trimSpace_noTrail).
    assert (Hleg : legal (sanitize name)).
    { rewrite E. apply trimSpace_Forall, replaceRuns_legal. }
    repeat split; try assumption.
    + intros H. contradiction.
    + apply trimmed_legal_fixed; assumption.
Qed.

Example sanitize_ex1 : sanitize (go "  a<b>:c  ") = go "a b c".
Proof. reflexivity. Qed.

Example sanitize_ex2 : sanitize (go " <>:?* ") = go "recording".
Proof. reflexivity. Qed.

Example sanitize_ex3 : sanitize [160; 97; 47; 47; 98; 8195] = go "a b".
Proof. reflexivity. Qed.

(** ** Paths *)

Import Path.

Example Clean_ex1 : Clean (go "a/../../b") = go "../b". Proof. reflexivity. Qed.
Example Clean_ex2 : Clean (go "/../a") = go "/a". Proof. reflexivity. Qed.
Example Clean_ex3 : Clean (go "a//b/./c/..") = go "a/b". Proof. reflexivity. Qed.
Example Clean_ex4 : Clean [] = go ".". Proof. reflexivity. Qed.
Example Clean_ex5 : Clean (go "/") = go "/". Proof. reflexivity. Qed.
Example Clean_ex6 : Clean (go "a/") = go "a". Proof. reflexivity. Qed.
Example Clean_ex7 : Clean (go "../../x/") = go "../../x". Proof. reflexivity. Qed.
Example Clean_ex8 : Clean (go "/a/b/../../..") = go "/". Proof. reflexivity. Qed.
Example Join_ex1 : Join (go "out/raw") (go "../evil") = go "out/evil". Proof. reflexivity. Qed.
Example Join_ex2 : Join (go "out") (go "a/b.txt") = go "out/a/b.txt". Proof. reflexivity. Qed.
Example Join_ex3 : Join [] (go "a/") = go "a". Proof. reflexivity. Qed.
Example Dir_ex1 : Dir (go "out/.rec_temp.zip") = go "out". Proof. reflexivity. Qed.
Example Dir_ex2 : Dir (go "file") = go ".". Proof. reflexivity. Qed.
Example Dir_ex3 : Dir (go "/file") = go "/". Proof. reflexivity. Qed.

(** *** The shape of a cleaned path *)

Lemma splitSep_nonnil (s : gostring) : splitSep s <> [].
Proof.
  induction s as [|c s IH]; simpl; [discriminate|].
  destruct (c =? sep); [discriminate|].
  destruct (splitSep s); discriminate.
Qed.

Lemma splitSep_app_sep (a b : gostring) :
  splitSep (a ++ sep :: b) = splitSep a ++ splitSep b.
Proof.
  induction a as [|c a IH]; simpl.
  - reflexivity.
  - rewrite IH. destruct (c =? sep); [reflexivity|].
    pose proof (splitSep_nonnil a) as Hne.
    destruct (splitSep a) as [|x xs]; [contradiction|]. reflexivity.
Qed.

Lemma splitSep_noSep (s : gostring) : Forall (fun c => ~ In sep c) (splitSep s).
Proof.
  induction s as [|c s IH]; simpl.
  - constructor; [intros []|constructor].
  - destruct (c =? sep) eqn:E.
    + constructor; [intros []|exact IH].
    + apply Z.eqb_neq in E.
      destruct (splitSep s) as [|x xs]; [repeat constructor; intros [H|[]]; auto|].
      inversion IH as [|? ? Hx Hxs]; subst.
      constructor; [|exact Hxs]. intros [H|H]; auto.
Qed.

Lemma splitSep_single (c : gostring) : ~ In sep c -> splitSep c = [c].
Proof.
  induction c as [|x c IH]; intros H; simpl; [reflexivity|].
  destruct (x =? sep) eqn:E.
  - apply Z.eqb_eq in E. exfalso. apply H. left. exact E.
  - rewrite IH; [reflexivity|]. intros Hc. apply H. right. exact Hc.
Qed.

Lemma splitSep_joinSep (l : list gostring) :
  l <> [] -> Forall (fun c => ~ In sep c) l -> splitSep (joinSep l) = l.
Proof.
  induction l as [|x l IH]; intros Hne Hall; [contradiction|].
  inversion Hall as [|? ? Hx Hl]; subst.
  destruct l as [|y l].
  - simpl. apply splitSep_single. exact Hx.
  - change (joinSep (x :: y :: l)) with (x ++ sep :: joinSep (y :: l)).
    rewrite splitSep_app_sep, (splitSep_single x Hx), IH; [reflexivity|discriminate|exact Hl].
Qed.

Lemma dotdot_not_name : ~ isName dotdot.
Proof. intros [_ [_ [H _]]]. apply H. reflexivity. Qed.

Lemma namesAfterName_dotdots (n : nat) (names : list gostring) :
  Forall isName names -> namesAfterName (repeat dotdot n ++ names).
Proof.
  intros Hn. induction n as [|n IH]; simpl.
  - induction Hn as [|c t Hc Ht IHt]; simpl; [exact I|]. split; [intros _; exact Ht|exact IHt].
  - split; [|exact IH]. intros H. destruct (dotdot_not_name H).
Qed.

Lemma namesAfterName_app (a b : list gostring) (c : gostring) :
  namesAfterName (a ++ b) -> last a = Some c -> isName c -> Forall isName b.
Proof.
  induction a as [|x a IH]; intros Hn Hl Hc; [discriminate|].
  simpl in Hn. destruct Hn as [Hx Ht]. destruct a as [|y a].
  - simpl in Hl. injection Hl as ->. apply Hx. exact Hc.
  - apply IH; [exact Ht|exact Hl|exact Hc].
Qed.

(** The element pass keeps names on top of the [..] elements it cannot
    remove. *)
Lemma cleanStack_shape (rooted : bool) (comps : list gostring) :
  forall (names : list gostring) (n : nat),
  Forall (fun c => ~ In sep c) comps -> Forall isName names ->
  exists names' n',
    cleanStack rooted (names ++ repeat dotdot n) comps = repeat dotdot n' ++ names'
    /\ Forall isName names'.
Proof.
  induction comps as [|c cs IH]; intros names n Hsep Hnames; simpl.
  - exists (rev names), n. rewrite rev_app_distr, rev_repeat.
    split; [reflexivity|]. apply Forall_rev. exact Hnames.
  - inversion Hsep as [|? ? Hc Hcs]; subst.
    destruct (eqb c [] || eqb c dot) eqn:Eskip; [apply IH; assumption|].
    apply orb_false_iff in Eskip as [E1 E2].
    apply eqb_false in E1. apply eqb_false in E2.
    destruct (eqb c dotdot) eqn:Edd.
    + apply eqb_true in Edd. subst c.
      destruct names as [|top below]; simpl.
      * destruct n as [|n]; simpl.
        -- destruct rooted.
           ++ apply (IH [] 0%nat); assumption.
           ++ apply (IH [] 1%nat); assumption.
        -- change (eqb dotdot dotdot) with true. cbv iota.
           apply (IH [] (S (S n))); assumption.
      * inversion Hnames as [|? ? Htop Hbelow]; subst.
        destruct (eqb top dotdot) eqn:Et.
        -- apply eqb_true in Et. subst top. destruct (dotdot_not_name Htop).
        -- apply (IH below n); assumption.
    + apply eqb_false in Edd.
      apply (IH (c :: names) n); [assumption|].
      constructor; [repeat split; assumption|exact Hnames].
Qed.

Lemma joinSep_nonnil (l : list gostring) :
  l <> [] -> Forall (fun c : gostring => c <> []) l -> joinSep l <> [].
Proof.
  intros Hne Hall. destruct l as [|x l]; [contradiction|].
  inversion Hall as [|? ? Hx _]; subst.
  destruct l as [|y l]; simpl; [exact Hx|].
  destruct x; [contradiction|discriminate].
Qed.

(** In a cleaned path a name is followed by names only: [..] elements come
    first. *)
Lemma Clean_namesAfterName (path : gostring) : namesAfterName (splitSep (Clean path)).
Proof.
  unfold Clean. cbv zeta.
  destruct (cleanStack_shape (hasPrefix path [sep]) (splitSep path) [] 0%nat
              (splitSep_noSep path) (List.Forall_nil _)) as [names [n [E Hnames]]].
  cbn [app repeat] in E. rewrite E.
  assert (Hsep : Forall (fun c => ~ In sep c) (repeat dotdot n ++ names)).
  { apply Forall_app. split.
    - apply Forall_forall. intros x Hx. apply list_elem_of_In, repeat_spec in Hx. subst x.
      intros H. vm_compute in H. intuition discriminate.
    - eapply Forall_impl; [exact Hnames|]. intros c [_ [_ [_ Hc]]]. exact Hc. }
  assert (Hnonempty : Forall (fun c : gostring => c <> []) (repeat dotdot n ++ names)).
  { apply Forall_app. split.
    - apply Forall_forall. intros x Hx. apply list_elem_of_In, repeat_spec in Hx. subst x.
      discriminate.
    - eapply Forall_impl; [exact Hnames|]. intros c [Hc _]. exact Hc. }
  destruct (repeat dotdot n ++ names) as [|x l] eqn:El.
  - destruct (hasPrefix path [sep]); simpl.
    + repeat split; intros [H1 _]; destruct (H1 eq_refl).
    + repeat split; intros [_ [H2 _]]; destruct (H2 eq_refl).
  - assert (Hshape : namesAfterName (x :: l))
      by (rewrite <- El; apply namesAfterName_dotdots; exact Hnames).
    assert (Hj : joinSep (x :: l) <> []) by (apply joinSep_nonnil; [discriminate|exact Hnonempty]).
    destruct (hasPrefix path [sep]).
    + change (eqb ([sep] ++ joinSep (x :: l)) []) with false. cbv iota.
      change ([sep] ++ joinSep (x :: l)) with (sep :: joinSep (x :: l)).
      change (splitSep (sep :: joinSep (x :: l))) with ([] :: splitSep (joinSep (x :: l))).
      rewrite splitSep_joinSep by (discriminate || exact Hsep).
      split; [|exact Hshape]. intros [H _]. destruct (H eq_refl).
    + change ([] ++ joinSep (x :: l)) with (joinSep (x :: l)).
      rewrite (proj2 (eqb_false _ _) Hj).
      rewrite splitSep_joinSep by (discriminate || exact Hsep). exact Hshape.
Qed.

(** The test of [extractZip] is sound for a destination that ends in a
    name: a target that passes it is reached from the destination by going
    down only. *)
Lemma prefix_check_sound (dest name : gostring) :
  endsInName (Clean dest) ->
  hasPrefix (Join dest name) (Clean dest ++ [sep]) = true ->
  descends dest (Join dest name).
Proof.
  intros [c [Hlast Hc]] Hp.
  assert (Hclean : namesAfterName (splitSep (Join dest name))).
  { unfold Join in *. destruct (negb (eqb dest [])); [apply Clean_namesAfterName|].
    destruct (negb (eqb name [])); [apply Clean_namesAfterName|].
    destruct (Clean dest); discriminate. }
  apply hasPrefix_inv in Hp as [rest Hp].
  rewrite <- app_assoc in Hp. simpl in Hp.
  rewrite Hp, splitSep_app_sep in Hclean.
  exists (splitSep rest). split; [apply splitSep_nonnil|]. split.
  - apply (namesAfterName_app _ _ c Hclean Hlast Hc).
  - rewrite Hp. apply splitSep_app_sep.
Qed.

(** A destination made of [..] elements only is outside the reach of the
    test: the target below leaves it and passes. *)
Example prefix_check_dotdot :
  hasPrefix (Join (go "..") (go "../x")) (Clean (go "..") ++ [sep]) = true
  /\ Join (go "..") (go "../x") = go "../../x".
Proof. split; reflexivity. Qed.

(** ** downloadFile *)

Import Errors Effects Transfer.
Local Open Scope go_scope.

Lemma contains_app_r (a b sub : gostring) :
  contains b sub = true -> contains (a ++ b) sub = true.
Proof.
  intros H. induction a as [|c a IH]; simpl; [exact H|].
  rewrite IH. apply orb_true_r.
Qed.

Lemma contains_of_prefix (s sub : gostring) :
  hasPrefix s sub = true -> contains s sub = true.
Proof. intros H. destruct s; simpl; rewrite H; reflexivity. Qed.

Lemma contains_app_l (a b sub : gostring) :
  hasPrefix a sub = true -> contains (a ++ b) sub = true.
Proof.
  intros H. apply contains_of_prefix.
  apply hasPrefix_inv in H as [r ->].
  rewrite <- app_assoc. apply hasPrefix_app.
Qed.

Lemma length_head (body : list Z) :
  length (take headSize body) = Nat.min headSize (length body).
Proof. apply length_take. Qed.

Lemma total_written (body : list Z) :
  (Z.of_nat (length (take headSize body)) + Z.of_nat (length (drop headSize body)))%Z
  = Z.of_nat (length body).
Proof. rewrite <- Nat2Z.inj_add, <- length_app, take_drop. reflexivity. Qed.

Lemma isZipSignature_head (body : list Z) :
  (4 <= length body)%nat ->
  isZipSignature (take headSize body) = hasPrefix body zipMagic.
Proof.
  intros H. destruct body as [|b0 [|b1 [|b2 [|b3 r]]]]; simpl in H; try lia.
  change (take headSize (b0 :: b1 :: b2 :: b3 :: r))
    with (b0 :: b1 :: b2 :: b3 :: take (headSize - 4) r).
  unfold zipMagic. cbn [isZipSignature hasPrefix].
  rewrite (Z.eqb_sym 80), (Z.eqb_sym 75), (Z.eqb_sym 3), (Z.eqb_sym 4).
  rewrite andb_true_r, !andb_assoc. reflexivity.
Qed.

#[global] Arguments headSize : simpl never.
#[global] Opaque headSize.


(** Unfolding of one step of the monad. *)
Lemma bind_fail {A B} (e : Error) (k : A -> M B) : bind (fail e) k = fail e.
Proof. reflexivity. Qed.

Lemma bind_ret {A B} (a : A) (k : A -> M B) : bind (ret a) k = k a.
Proof. unfold bind, ret. destruct (k a). reflexivity. Qed.

Lemma errOf_bind_emit {B} (ev : Event) (k : unit -> M B) :
  errOf (bind (emit ev) k) = errOf (k tt).
Proof. unfold bind, emit, errOf. destruct (k tt). reflexivity. Qed.

Lemma trace_bind_emit {B} (ev : Event) (k : unit -> M B) :
  trace (bind (emit ev) k) = ev :: trace (k tt).
Proof. unfold bind, emit, trace. destruct (k tt). reflexivity. Qed.

Lemma trace_bind_fail {A B} (m : M A) (e : Error) (k : A -> M B) :
  snd m = inl e -> trace (bind m k) = trace m.
Proof. destruct m as [t [e'|a]]; simpl; [reflexivity|discriminate]. Qed.

Ltac step :=
  repeat match goal with
  | |- context [bind (fail ?e) ?k] => rewrite (bind_fail e k)
  | |- context [bind (ret ?a) ?k] => rewrite (bind_ret a k)
  | |- context [errOf (bind (emit ?ev) ?k)] => rewrite (errOf_bind_emit ev k)
  | |- context [trace (bind (emit ?ev) ?k)] => rewrite (trace_bind_emit ev k)
  end;
  cbv beta.

(** The status tests come before anything is created: a response they
    reject yields their error and no event but the request. *)
Lemma downloadFile_status_rejected url dest opts o resp e :
  newRequest o = None -> roundTrip o = inr resp ->
  statusError (StatusCode resp) = Some e ->
  errOf (downloadFile url dest opts o) = Some e
  /\ exists req, trace (downloadFile url dest opts o) = [req].
Proof.
  intros Hn Hr Hs. unfold downloadFile. rewrite Hn, Hr. simpl try.
  step. rewrite Hs. simpl failWith. split.
  - step. reflexivity.
  - eexists. step. reflexivity.
Qed.

Lemma statusError_none (code : Z) : statusError code = None <-> (code < 300)%Z.
Proof.
  unfold statusError.
  destruct (code =? 403)%Z eqn:E1; [apply Z.eqb_eq in E1; split; [discriminate|lia]|].
  destruct (code =? 404)%Z eqn:E2; [apply Z.eqb_eq in E2; split; [discriminate|lia]|].
  destruct (300 <=? code)%Z eqn:E3.
  - apply Z.leb_le in E3. split; [discriminate|lia].
  - apply Z.leb_gt in E3. split; [intros _; exact E3|reflexivity].
Qed.

(** No error that [downloadFile] returns for a status below 300 is one of
    the three errors of the status tests, but for the not-found value, which
    it also returns for a body that looks like HTML. *)
Ltac closeCase :=
  intros [= <-]; repeat split; intros; try discriminate; try reflexivity.

Lemma downloadFile_accepted_status url dest opts o resp e :
  newRequest o = None -> roundTrip o = inr resp ->
  statusError (StatusCode resp) = None ->
  errOf (downloadFile url dest opts o) = Some e ->
  e <> errForbidden /\ (forall c, e <> errUnexpectedStatus c)
  /\ (e = ErrNotFound ->
      isHTMLResponse (ContentType resp) (take headSize (Body resp)) = true).
Proof.
  intros Hn Hr Hs. unfold downloadFile. rewrite Hn, Hr. simpl try.
  step. rewrite Hs. simpl failWith. step.
  destruct (bool_decide (Kind opts = fileKindVideo) && contains (ContentType resp) (go "text/html")).
  { simpl failWhen. step. closeCase. }
  simpl failWhen. step.
  destruct (mkdirAll o); simpl try; step.
  { closeCase. }
  destruct (create o); simpl try; step.
  { closeCase. }
  destruct (if (_ <? _)%nat && negb _ then BodyErr resp else None); simpl try; step.
  { closeCase. }
  destruct (isHTMLResponse _ _) eqn:Eh; simpl failWhen; step.
  { closeCase. }
  destruct (_ && negb (isZipSignature _)); simpl failWhen; step.
  { closeCase. }
  destruct (writeHead o); simpl try; step.
  { closeCase. }
  destruct (if (_ <? _)%nat then _ else BodyErr resp); [|destruct (copyWrite o)]; step.
  1,2: closeCase.
  destruct (flush o); step.
  { closeCase. }
  destruct (_ && (_ <? 1024)%Z); simpl failWhen; step.
  - closeCase.
  - discriminate.
Qed.

(** What [downloadFile] does with a response whose status passes the
    tests, up to the test for HTML. *)
Lemma downloadFile_not_found url dest opts o resp :
  newRequest o = None -> roundTrip o = inr resp ->
  statusError (StatusCode resp) = None ->
  let head := take headSize (Body resp) in
  errOf (downloadFile url dest opts o) = Some ErrNotFound
  <-> (bool_decide (Kind opts = fileKindVideo)
       && contains (ContentType resp) (go "text/html")) = false
      /\ mkdirAll o = None /\ create o = None
      /\ (if (length head <? headSize)%nat && negb (headIsEOF o)
          then BodyErr resp else None) = None
      /\ isHTMLResponse (ContentType resp) head = true.
Proof.
  intros Hn Hr Hs head. subst head. unfold downloadFile. rewrite Hn, Hr. simpl try.
  step. rewrite Hs. simpl failWith. step.
  destruct (bool_decide (Kind opts = fileKindVideo) && contains (ContentType resp) (go "text/html")).
  { simpl failWhen. step. split; [discriminate|intros [H _]; discriminate]. }
  simpl failWhen. step.
  destruct (mkdirAll o); simpl try; step.
  { split; [discriminate|intros [_ [H _]]; discriminate]. }
  destruct (create o); simpl try; step.
  { split; [discriminate|intros [_ [_ [H _]]]; discriminate]. }
  destruct (if (_ <? _)%nat && negb _ then BodyErr resp else None); simpl try; step.
  { split; [discriminate|intros [_ [_ [_ [H _]]]]; discriminate]. }
  destruct (isHTMLResponse _ _) eqn:Eh; simpl failWhen; step.
  { split; [auto|reflexivity]. }
  assert (Hno : forall r : option Error, r <> Some ErrNotFound ->
            r = Some ErrNotFound <-> false = false /\ @None gostring = None
                                     /\ @None gostring = None
                                     /\ @None gostring = None /\ false = true).
  { intros r Hr'. split; [contradiction|intros [_ [_ [_ [_ H]]]]; discriminate]. }
  apply Hno.
  destruct (_ && negb (isZipSignature _)); simpl failWhen; step; [discriminate|].
  destruct (writeHead o); simpl try; step; [discriminate|].
  destruct (if (_ <? _)%nat then _ else BodyErr resp); [|destruct (copyWrite o)]; step;
    [discriminate..|].
  destruct (flush o); step; [discriminate|].
  destruct (_ && (_ <? 1024)%Z); simpl failWhen; step; discriminate.
Qed.

(** C5. For every response [downloadFile] receives: status 403 gives the
    forbidden (expired token) error, status 404 the not-found value, every
    other status of 300 or more the unexpected-status error with the code in
    it, and in the three cases no file is created.  A status below 300
    passes the status tests, and the forbidden and unexpected-status errors
    are never returned for it; the not-found value is: it is returned
    exactly when the transfer gets to the test for HTML (the response is not
    a video announced as text/html, the directory is made, the file is
    created, the head is read) and the response looks like HTML. *)
Theorem C5_status_classification url dest opts o resp :
  newRequest o = None -> roundTrip o = inr resp ->
  let code := StatusCode resp in
  let run := downloadFile url dest opts o in
  let result := errOf run in
  let head := take headSize (Body resp) in
  (code = 403 -> result = Some errForbidden)%Z
  /\ (code = 404 -> result = Some ErrNotFound)%Z
  /\ (300 <= code -> code <> 403 -> code <> 404 ->
      result = Some (errUnexpectedStatus code)
      /\ contains (errorString (errUnexpectedStatus code)) (go "unexpected status") = true)%Z
  /\ (300 <= code -> forall p, ~ In (EvCreate p) (trace run))%Z
  /\ (code < 300 ->
      statusError code = None
      /\ result <> Some errForbidden
      /\ (forall c, result <> Some (errUnexpectedStatus c))
      /\ (result = Some ErrNotFound
          <-> (bool_decide (Kind opts = fileKindVideo)
               && contains (ContentType resp) (go "text/html")) = false
              /\ mkdirAll o = None /\ create o = None
              /\ (if (length head <? headSize)%nat && negb (headIsEOF o)
                  then BodyErr resp else None) = None
              /\ isHTMLResponse (ContentType resp) head = true))%Z.
Proof.
  intros Hn Hr code run result head. subst code run result head.
  split; [|split; [|split; [|split]]].
  - intros H. apply (downloadFile_status_rejected url dest opts o resp); auto.
    unfold statusError. rewrite H. reflexivity.
  - intros H. apply (downloadFile_status_rejected url dest opts o resp); auto.
    unfold statusError. rewrite H. reflexivity.
  - intros H1 H2 H3. split.
    + apply (downloadFile_status_rejected url dest opts o resp); auto.
      unfold statusError.
      rewrite (proj2 (Z.eqb_neq _ _)), (proj2 (Z.eqb_neq _ _)), (proj2 (Z.leb_le _ _)); auto.
    + reflexivity.
  - intros H p Hin.
    destruct (statusError (StatusCode resp)) as [e|] eqn:Es.
    + revert Hin. unfold downloadFile. rewrite Hn, Hr. simpl try. step.
      rewrite Es. simpl failWith. step. intros [Hin|[]]. discriminate.
    + apply statusError_none in Es. lia.
  - intros H. apply statusError_none in H.
    split; [exact H|]. split; [|split].
    + intros E.
      destruct (downloadFile_accepted_status url dest opts o resp _ Hn Hr H E) as [Hf _].
      contradiction.
    + intros c E.
      destruct (downloadFile_accepted_status url dest opts o resp _ Hn Hr H E) as [_ [Hu _]].
      apply (Hu c). reflexivity.
    + apply downloadFile_not_found; assumption.
Qed.

(** C5, as the claim has it, fails below 300: a response with status 200
    whose body is an HTML page makes [downloadFile] return the not-found
    value, the one it returns for status 404. *)
Lemma C5_html_body_is_not_found :
  let resp := mkResponse 200 (go "text/html; charset=utf-8") (go "<html>gone</html>") None in
  let run := downloadFile (go "https://h/f") (go "out/f")
               (mkDownloadOptions [] [] fileKindBinary) (served resp) in
  (StatusCode resp < 300)%Z
  /\ statusError (StatusCode resp) = None
  /\ errOf run = Some ErrNotFound
  /\ statusError 404 = Some ErrNotFound.
Proof. cbv zeta. split; [simpl; lia|]. repeat split; vm_compute; reflexivity. Qed.

(** A download that passes every check and meets no fault ends in the size
    test. *)
Lemma downloadFile_streamed url dest opts o resp :
  newRequest o = None -> roundTrip o = inr resp ->
  statusError (StatusCode resp) = None ->
  (Kind opts = fileKindVideo -> contains (ContentType resp) (go "text/html") = false) ->
  mkdirAll o = None -> create o = None -> BodyErr resp = None ->
  isHTMLResponse (ContentType resp) (take headSize (Body resp)) = false ->
  (Kind opts = fileKindZip -> (4 <= length (Body resp))%nat ->
   isZipSignature (take headSize (Body resp)) = true) ->
  writeHead o = None -> copyWrite o = None -> flush o = None ->
  errOf (downloadFile url dest opts o)
  = if bool_decide (Kind opts = fileKindVideo)
       && (Z.of_nat (length (Body resp)) <? 1024)%Z
    then Some (errTooSmall (Z.of_nat (length (Body resp)))) else None.
Proof.
  intros Hn Hr Hs Hct Hm Hc Hb Hh Hz Hw Hcp Hf.
  unfold downloadFile. rewrite Hn, Hr. simpl try. step.
  rewrite Hs. simpl failWith. step.
  replace (bool_decide (Kind opts = fileKindVideo)
           && contains (ContentType resp) (go "text/html")) with false.
  2:{ destruct (decide (Kind opts = fileKindVideo)) as [E|E].
      - rewrite (Hct E). apply eq_sym, andb_false_r.
      - rewrite (bool_decide_eq_false_2 _ E). reflexivity. }
  simpl failWhen. step. rewrite Hm, Hc, Hb, Hh, Hw, Hcp, Hf. simpl try.
  replace (if (_ <? _)%nat && negb _ then None else None) with (@None gostring)
    by (destruct (_ && _); reflexivity).
  replace (if (_ <? _)%nat then None else None) with (@None gostring)
    by (destruct (_ <? _)%nat; reflexivity).
  simpl try. simpl failWhen. step.
  replace (bool_decide (Kind opts = fileKindZip)
           && (4 <=? length (take headSize (Body resp)))%nat
           && negb (isZipSignature (take headSize (Body resp)))) with false.
  2:{ destruct (decide (Kind opts = fileKindZip)) as [E|E].
      - destruct (4 <=? length (take headSize (Body resp)))%nat eqn:E4.
        + apply Nat.leb_le in E4. rewrite length_head in E4.
          rewrite (Hz E) by lia. rewrite andb_false_r. reflexivity.
        + rewrite andb_false_r. reflexivity.
      - rewrite (bool_decide_eq_false_2 _ E). reflexivity. }
  simpl failWhen. step. rewrite total_written.
  destruct (bool_decide (Kind opts = fileKindVideo)
            && (Z.of_nat (length (Body resp)) <? 1024)%Z); reflexivity.
Qed.

(** A download that passes every check and meets no fault does five
    things and ends in the size test. *)
Lemma downloadFile_streamed_trace url dest opts o resp :
  newRequest o = None -> roundTrip o = inr resp ->
  statusError (StatusCode resp) = None ->
  (Kind opts = fileKindVideo -> contains (ContentType resp) (go "text/html") = false) ->
  mkdirAll o = None -> create o = None -> BodyErr resp = None ->
  isHTMLResponse (ContentType resp) (take headSize (Body resp)) = false ->
  (Kind opts = fileKindZip -> (4 <= length (Body resp))%nat ->
   isZipSignature (take headSize (Body resp)) = true) ->
  writeHead o = None -> copyWrite o = None -> flush o = None ->
  trace (downloadFile url dest opts o)
  = [EvGet url (Cookies opts) (Referer opts)
       (if bool_decide (Kind opts = fileKindVideo) || bool_decide (Kind opts = fileKindBinary)
        then videoAccept else []);
     EvMkdirAll (Dir dest); EvCreate dest;
     EvWrite dest (take headSize (Body resp));
     EvWrite dest (drop headSize (Body resp))].
Proof.
  intros Hn Hr Hs Hct Hm Hc Hb Hh Hz Hw Hcp Hf.
  unfold downloadFile. rewrite Hn, Hr. simpl try. step.
  rewrite Hs. simpl failWith. step.
  replace (bool_decide (Kind opts = fileKindVideo)
           && contains (ContentType resp) (go "text/html")) with false.
  2:{ destruct (decide (Kind opts = fileKindVideo)) as [E|E].
      - rewrite (Hct E). apply eq_sym, andb_false_r.
      - rewrite (bool_decide_eq_false_2 _ E). reflexivity. }
  simpl failWhen. step. rewrite Hm, Hc, Hb, Hh, Hw, Hcp, Hf. simpl try.
  replace (if (_ <? _)%nat && negb _ then None else None) with (@None gostring)
    by (destruct (_ && _); reflexivity).
  replace (if (_ <? _)%nat then None else None) with (@None gostring)
    by (destruct (_ <? _)%nat; reflexivity).
  simpl try. simpl failWhen. step.
  replace (bool_decide (Kind opts = fileKindZip)
           && (4 <=? length (take headSize (Body resp)))%nat
           && negb (isZipSignature (take headSize (Body resp)))) with false.
  2:{ destruct (decide (Kind opts = fileKindZip)) as [E|E].
      - destruct (4 <=? length (take headSize (Body resp)))%nat eqn:E4.
        + apply Nat.leb_le in E4. rewrite length_head in E4.
          rewrite (Hz E) by lia. rewrite andb_false_r. reflexivity.
        + rewrite andb_false_r. reflexivity.
      - rewrite (bool_decide_eq_false_2 _ E). reflexivity. }
  simpl failWhen. step.
  destruct (bool_decide (Kind opts = fileKindVideo) && _); simpl failWhen; step; reflexivity.
Qed.

Lemma eqb_refl (a : gostring) : eqb a a = true.
Proof. apply eqb_true. reflexivity. Qed.

(** C6. A video download that passes the status, content-type and HTML
    checks and is streamed to the end without a fault hands the whole body
    to the file, the head first and the rest after it, and fails if and only
    if fewer than 1024 bytes were written; the failure is the too-small
    error, whose text calls the file a likely error page; from 1024 bytes
    written on the download succeeds. *)
Theorem C6_video_minimum_size url dest cookies referer o resp :
  let opts := mkDownloadOptions cookies referer fileKindVideo in
  let run := downloadFile url dest opts o in
  let result := errOf run in
  let total := Z.of_nat (length (written dest (trace run))) in
  newRequest o = None -> roundTrip o = inr resp ->
  statusError (StatusCode resp) = None ->
  contains (ContentType resp) (go "text/html") = false ->
  mkdirAll o = None -> create o = None -> BodyErr resp = None ->
  isHTMLResponse (ContentType resp) (take headSize (Body resp)) = false ->
  writeHead o = None -> copyWrite o = None -> flush o = None ->
  trace run = [EvGet url cookies referer videoAccept; EvMkdirAll (Dir dest); EvCreate dest;
               EvWrite dest (take headSize (Body resp));
               EvWrite dest (drop headSize (Body resp))]
  /\ written dest (trace run) = Body resp
  /\ (result <> None <-> total < 1024)%Z
  /\ (total < 1024 -> result = Some (errTooSmall total))%Z
  /\ (1024 <= total -> result = None)%Z
  /\ contains (errorString (errTooSmall total)) (go "likely an error page") = true.
Proof.
  intros opts run result total Hn Hr Hs Hct Hm Hc Hb Hh Hw Hcp Hf.
  assert (Ht : trace run
               = [EvGet url cookies referer videoAccept; EvMkdirAll (Dir dest); EvCreate dest;
                  EvWrite dest (take headSize (Body resp));
                  EvWrite dest (drop headSize (Body resp))]).
  { subst run. rewrite (downloadFile_streamed_trace url dest opts o resp); auto; discriminate. }
  assert (Hwr : written dest (trace run) = Body resp).
  { rewrite Ht. cbn [written]. rewrite eqb_refl, app_nil_r. apply take_drop. }
  assert (Htot : total = Z.of_nat (length (Body resp))) by (subst total; rewrite Hwr; reflexivity).
  assert (E : result = if (total <? 1024)%Z then Some (errTooSmall total) else None).
  { subst result run. rewrite Htot.
    rewrite (downloadFile_streamed url dest opts o resp); auto; discriminate. }
  split; [exact Ht|]. split; [exact Hwr|].
  rewrite E. destruct (total <? 1024)%Z eqn:Et.
  - apply Z.ltb_lt in Et. repeat split; intros; try lia; try discriminate.
    unfold errTooSmall, errorString.
    apply contains_app_r, contains_app_r. reflexivity.
  - apply Z.ltb_ge in Et. repeat split; intros; try lia; try congruence.
    unfold errTooSmall, errorString.
    apply contains_app_r, contains_app_r. reflexivity.
Qed.

(** ** extractZip *)

Import Zip.

Lemma strictlyUnder_check (dest target : gostring) :
  hasPrefix target (Clean dest ++ [sep]) = true <-> strictlyUnder dest target.
Proof.
  unfold strictlyUnder. split.
  - intros H. apply hasPrefix_inv in H as [r ->]. exists r.
    rewrite <- app_assoc. reflexivity.
  - intros [r ->]. change (sep :: r) with ([sep] ++ r).
    rewrite app_assoc. apply hasPrefix_app.
Qed.

Lemma errOf_bind {A B} (m : M A) (k : A -> M B) :
  errOf (bind m k)
  = match snd m with inl e => Some e | inr a => errOf (k a) end.
Proof.
  destruct m as [t [e|a]]; simpl; [reflexivity|].
  unfold errOf. destruct (k a). reflexivity.
Qed.

Lemma trace_bind {A B} (m : M A) (k : A -> M B) :
  trace (bind m k)
  = match snd m with inl _ => trace m | inr a => trace m ++ trace (k a) end.
Proof.
  destruct m as [t [e|a]]; simpl; [reflexivity|].
  unfold trace. destruct (k a). reflexivity.
Qed.

(** An entry that is not strictly under the destination is refused at once. *)
Lemma extractEntry_unsafe dest f io :
  ~ strictlyUnder dest (Join dest (Name f)) ->
  extractEntry dest f io = fail (errUnsafePath (Name f)).
Proof.
  intros H. unfold extractEntry. cbv zeta.
  destruct (hasPrefix (Join dest (Name f)) (Clean dest ++ [sep])) eqn:E.
  - apply strictlyUnder_check in E. contradiction.
  - reflexivity.
Qed.

(** Whatever an entry does, it does inside the destination. *)
Lemma extractEntry_inside dest f io :
  Forall (inside dest) (trace (extractEntry dest f io)).
Proof.
  unfold extractEntry. cbv zeta.
  destruct (hasPrefix (Join dest (Name f)) (Clean dest ++ [sep])) eqn:E;
    [|constructor].
  apply strictlyUnder_check in E. cbn [negb failWhen]. step.
  assert (Hin : forall ev,
    (ev = EvMkdirAll (Join dest (Name f)) \/ ev = EvMkdirAll (Dir (Join dest (Name f)))
     \/ ev = EvCreate (Join dest (Name f))
     \/ exists d, ev = EvWrite (Join dest (Name f)) d) -> inside dest ev).
  { intros ev H. exists (Name f). split; assumption. }
  destruct (IsDir f).
  - destruct (mkdirTarget io); simpl; repeat constructor. apply Hin. auto.
  - destruct (mkdirParent io); [constructor|].
    destruct (openEntry io); [simpl; repeat constructor; apply Hin; auto|].
    destruct (openFile io); [simpl; repeat constructor; apply Hin; auto|].
    destruct (copy io); simpl; repeat constructor; apply Hin; eauto.
Qed.

Lemma extractLoop_inside dest files :
  Forall (inside dest) (trace (extractLoop dest files)).
Proof.
  induction files as [|[f io] rest IH]; simpl; [constructor|].
  rewrite trace_bind. destruct (snd (extractEntry dest f io)).
  - apply extractEntry_inside.
  - apply Forall_app. split; [apply extractEntry_inside|exact IH].
Qed.

Lemma extractLoop_app dest before after :
  extractLoop dest (before ++ after)
  = bind (extractLoop dest before) (fun _ => extractLoop dest after).
Proof.
  induction before as [|[f io] rest IH]; simpl.
  - unfold bind. simpl. destruct (extractLoop dest after). reflexivity.
  - rewrite IH. unfold bind.
    destruct (extractEntry dest f io) as [t [e|[]]]; [reflexivity|].
    destruct (extractLoop dest rest) as [t' [e'|[]]]; [reflexivity|].
    destruct (extractLoop dest after) as [t'' r]. rewrite app_assoc. reflexivity.
Qed.

Lemma inside_not_unsafe dest t :
  ~ strictlyUnder dest t ->
  (~ inside dest (EvCreate t)) /\ forall d, ~ inside dest (EvWrite t d).
Proof.
  intros H. split.
  - intros [n [Hu [E|[E|[E|[d E]]]]]]; try discriminate.
    injection E as E. rewrite E in H. contradiction.
  - intros d [n [Hu [E|[E|[E|[d' E]]]]]]; try discriminate.
    injection E as E _. rewrite E in H. contradiction.
Qed.

Lemma inside_writesBelow dest ev :
  endsInName (Clean dest) -> inside dest ev -> writesBelow dest ev.
Proof.
  intros He [n [Hu Hev]].
  assert (Hd : descends dest (Join dest n)).
  { apply prefix_check_sound; [exact He|]. apply strictlyUnder_check. exact Hu. }
  destruct Hev as [->|[->|[->|[d ->]]]]; simpl; auto.
Qed.

(** C8. For every archive and every outcome of the file-system calls, an
    entry whose joined target is not strictly under the destination makes
    [extractZip] fail; its target is neither created nor written, and every
    event of the run stays inside the destination: it concerns a target
    that has the cleaned destination and a separator as a prefix, and, for a
    destination that ends in a name (as the directory raw that [Download]
    passes does), every file created or written is reached from the
    destination by going down only.  When the loop reaches the entry (the
    entries before it are extracted without error) the error is the
    unsafe-path error that names the entry, raised before any call is made
    for it. *)
Theorem C8_extractZip_refuses_unsafe_entry
    (dest : gostring) (before after : list (File * EntryOutcomes))
    (f : File) (io : EntryOutcomes) :
  let target := Join dest (Name f) in
  let r := extractZip (inr (before ++ (f, io) :: after)) dest in
  ~ strictlyUnder dest target ->
  errOf r <> None
  /\ ~ In (EvCreate target) (trace r)
  /\ (forall d, ~ In (EvWrite target d) (trace r))
  /\ Forall (inside dest) (trace r)
  /\ (endsInName (Clean dest) -> Forall (writesBelow dest) (trace r))
  /\ (errOf (extractZip (inr before) dest) = None ->
      errOf r = Some (errUnsafePath (Name f))
      /\ contains (errorString (errUnsafePath (Name f))) (go "unsafe path in zip") = true
      /\ trace r = trace (extractZip (inr before) dest)).
Proof.
  intros target r Hu. subst target r. simpl extractZip.
  pose proof (extractLoop_inside dest (before ++ (f, io) :: after)) as Hin.
  destruct (inside_not_unsafe dest _ Hu) as [Hc Hw].
  rewrite Forall_forall in Hin.
  assert (Hshape : extractLoop dest (before ++ (f, io) :: after)
                   = bind (extractLoop dest before) (fun _ => fail (errUnsafePath (Name f)))).
  { rewrite extractLoop_app. simpl.
    rewrite (extractEntry_unsafe dest f io Hu). reflexivity. }
  repeat split.
  - rewrite Hshape, errOf_bind.
    destruct (snd (extractLoop dest before)); discriminate.
  - intros H. apply list_elem_of_In, Hin in H. contradiction.
  - intros d H. apply list_elem_of_In, Hin in H. apply (Hw d). exact H.
  - apply Forall_forall. exact Hin.
  - intros He. apply Forall_forall. intros ev Hev.
    apply inside_writesBelow; [exact He|]. apply Hin. exact Hev.
  - rewrite Hshape, errOf_bind. unfold errOf in H.
    destruct (snd (extractLoop dest before)); [discriminate|reflexivity].
  - rewrite Hshape, trace_bind. unfold errOf in H.
    destruct (snd (extractLoop dest before)); [discriminate|].
    apply app_nil_r.
Qed.

Example extractZip_slip :
  extractZip (inr [(mkFile (go "a.txt") false [1], noFault);
                   (mkFile (go "../evil") false [2], noFault)]) (go "out/raw")
  = ([EvMkdirAll (go "out/raw"); EvCreate (go "out/raw/a.txt");
      EvWrite (go "out/raw/a.txt") [1]],
     inl (errUnsafePath (go "../evil"))).
Proof. reflexivity. Qed.

(** ** The worker pool *)

Import Pool.




















Example Submit_blocks_when_full :
  snd (Submit Samples.fullPool Samples.zipJob) = Blocked
  /\ senders (fst (Submit Samples.fullPool Samples.zipJob)) = [Samples.zipJob].
Proof. split; reflexivity. Qed.



(** ** Download *)

Import Orchestrator.


Ltac traceStep :=
  match goal with
  | |- Forall _ (trace (bind (emit ?ev) ?k)) =>
      rewrite (trace_bind_emit ev k); constructor; [simpl; auto|]
  | |- Forall _ (trace (bind (fail ?e) ?k)) => rewrite (bind_fail e k); constructor
  | |- Forall _ (trace (bind (ret ?a) ?k)) => rewrite (bind_ret a k); cbv beta
  | |- Forall _ (trace (bind (try ?x) ?k)) => destruct x; cbn [try]
  | |- Forall _ (trace (bind (failWhen ?c ?e) ?k)) => destruct c; cbn [failWhen]
  | |- Forall _ (trace (bind (failWith ?x) ?k)) => destruct x; cbn [failWith]
  | |- Forall _ (trace (bind (match ?x with _ => _ end) ?k)) => destruct x
  | |- Forall _ (trace (ret _)) => constructor
  end.

Lemma downloadFile_events url dest opts o :
  Forall (transferEvent dest) (trace (downloadFile url dest opts o)).
Proof. unfold downloadFile. repeat traceStep. Qed.

Lemma runTask_events usesPool ctxErr url dest opts o :
  Forall (transferEvent dest) (trace (runTask usesPool ctxErr (downloadFile url dest opts o))).
Proof.
  unfold runTask. destruct usesPool; [destruct ctxErr; [constructor|]|];
    apply downloadFile_events.
Qed.

Lemma fetchPageInfo_auth pageURL session o resp :
  pageNewRequest o = None -> pageRoundTrip o = inr resp ->
  (pageStatus resp = 401 \/ pageStatus resp = 403 \/ pageStatus resp = 500)%Z ->
  fetchPageInfo pageURL session o = ([pageRequest pageURL session], inl ErrAuthRequired).
Proof.
  intros Hn Hr Hs. unfold fetchPageInfo. rewrite Hn, Hr. cbn [try]. step.
  destruct Hs as [E|[E|E]]; rewrite E; reflexivity.
Qed.

Lemma cleanup_events k zipEvents tempZip (P : Event -> Prop) :
  Forall P zipEvents -> P (EvRemove tempZip) -> P (EvWait (go "zipDownloadDone")) ->
  Forall P (cleanup k zipEvents tempZip).
Proof.
  intros Hz Hr Hw. unfold cleanup. rewrite !Forall_app. repeat split.
  - apply Forall_take. exact Hz.
  - repeat constructor. exact Hr.
  - apply Forall_drop. exact Hz.
  - repeat constructor. exact Hw.
Qed.

(** *** The stages of a run that gets to the end *)



Lemma extract_spec w zipErr rootDir r :
  let '(_, r') := extract w zipErr rootDir r in
  Title r' = Title r /\ RootDir r' = RootDir r /\ ZipPath r' = ZipPath r
  /\ MP4Path r' = MP4Path r /\ Warnings r' = Warnings r.
Proof.
  unfold extract.
  destruct (bool_decide (zipErr = None) && negb (eqb (ZipPath r) [])); [|repeat split].
  cbv zeta. destruct (errOf _); repeat split.
Qed.






Lemma archiveWarnings_cases (zerr : option Error) :
  (archiveWarnings zerr = [warnNoZip]
   /\ exists e, zerr = Some e /\ errorsIs e SNotFound = true)
  \/ (archiveWarnings zerr = [warnInvalidZip]
      /\ exists e, zerr = Some e /\ errorsIs e SNotFound = false
                   /\ errorsIs e SInvalidZip = true)
  \/ (archiveWarnings zerr = []
      /\ forall e, zerr = Some e ->
                   errorsIs e SNotFound = false /\ errorsIs e SInvalidZip = false).
Proof.
  unfold archiveWarnings. destruct zerr as [e|].
  - destruct (errorsIs e SNotFound) eqn:E1; [left; eauto|].
    destruct (errorsIs e SInvalidZip) eqn:E2; [right; left; eauto|].
    right. right. split; [reflexivity|]. intros e' [= <-]. auto.
  - right. right. split; [reflexivity|]. discriminate.
Qed.

Lemma Clean_nonnil (path : gostring) : Clean path <> [].
Proof.
  unfold Clean. cbv zeta. destruct (eqb _ []) eqn:E; [discriminate|].
  apply eqb_false in E. exact E.
Qed.

Lemma Join_nonnil (a b : gostring) : b <> [] -> Join a b <> [].
Proof.
  intros Hb. unfold Join. destruct (negb (eqb a [])); [apply Clean_nonnil|].
  rewrite (proj2 (eqb_false _ _) Hb). apply Clean_nonnil.
Qed.

(** The archive is in its place exactly when its download returned no error
    and the staged file could be renamed or copied. *)
Lemma placeZip_obtained w e tempZip zipPath r :
  let archive := bool_decide (e = None)
                 && (bool_decide (renameZip w = None) || bool_decide (copyZip w = None)) in
  let '(_, r', zipErr) := placeZip w e tempZip zipPath r in
  ZipPath r' = (if archive then zipPath else ZipPath r)
  /\ (zipErr = None <-> archive = true)
  /\ Title r' = Title r /\ RootDir r' = RootDir r /\ MP4Path r' = MP4Path r
  /\ Warnings r' = Warnings r ++ archiveWarnings e.
Proof.
  unfold placeZip, archiveWarnings. destruct e as [e|].
  - destruct (errorsIs e SNotFound); [|destruct (errorsIs e SInvalidZip)];
      cbn; rewrite ?app_nil_r; repeat split; auto; discriminate.
  - destruct (renameZip w); [destruct (copyZip w)|];
      cbn; rewrite ?app_nil_r; repeat split; auto; discriminate.
Qed.

(** The video is in its place exactly when its download was started,
    returned no error, and the staged file could be renamed or copied. *)
Lemma placeMP4_obtained w started task tempMP4 mp4Path r :
  tempMP4 <> [] ->
  let video := started && bool_decide (errOf task = None)
               && (bool_decide (renameMP4 w = None) || bool_decide (copyMP4 w = None)) in
  let '(_, r') := placeMP4 w started task tempMP4 mp4Path r in
  MP4Path r' = (if video then mp4Path else MP4Path r)
  /\ Title r' = Title r /\ RootDir r' = RootDir r /\ ZipPath r' = ZipPath r
  /\ Warnings r' = Warnings r.
Proof.
  intros Ht. apply eqb_false in Ht. unfold placeMP4. cbv zeta.
  destruct started; cbn [andb].
  - destruct (errOf task) as [e|].
    + change (bool_decide (Some e = None)) with false. cbn [andb negb].
      change (eqb (@nil Z) []) with true. cbn [negb]. rewrite Ht. cbn [negb andb].
      repeat split.
    + change (bool_decide (@None Error = None)) with true. rewrite Ht. cbn [andb negb].
      destruct (renameMP4 w); [destruct (copyMP4 w)|]; cbn; repeat split.
  - change (bool_decide (@None Error = None)) with true.
    change (eqb (@nil Z) []) with true. cbn [andb negb]. repeat split.
Qed.

(** The end of a run: the error and the warnings follow from the two
    paths. *)
Lemma finish_obtained w r :
  let any := negb (eqb (MP4Path r) []) || negb (eqb (ZipPath r) []) in
  let '(r', err) := finish w r in
  err = (if any then None else Some errNoAssets)
  /\ Title r' = Title r /\ RootDir r' = RootDir r
  /\ MP4Path r' = MP4Path r /\ ZipPath r' = ZipPath r
  /\ Warnings r' = Warnings r ++ (if eqb (MP4Path r) [] then [warnNoMP4] else [])
                   ++ (if any then metadataWarnings w else []).
Proof.
  unfold finish, metadataWarnings. cbv zeta.
  destruct (eqb (MP4Path r) []) eqn:Em.
  - cbn [MP4Path ZipPath Warnings addWarning]. rewrite Em. cbn [andb negb orb].
    destruct (eqb (ZipPath r) []) eqn:Ez; cbn [negb].
    + repeat split.
    + destruct (writeMetadata w); cbn; rewrite <- ?app_assoc; repeat split.
  - rewrite Em. cbn [andb negb orb].
    destruct (writeMetadata w); cbn; rewrite ?app_nil_r; repeat split.
Qed.

Lemma tempMP4Path_nonnil (base id : gostring) : tempMP4Path base id <> [].
Proof. apply Join_nonnil. discriminate. Qed.

(** A run that gets past the early returns, in terms of what the two
    downloads and the placing of their files met. *)
Lemma assemble_obtained usesPool rawURL session base title info pageInfo zipRun w :
  let rootDir := Join base title in
  let videoErr := errOf (videoTask usesPool rawURL session info base pageInfo w) in
  let archive := bool_decide (errOf zipRun = None)
                 && (bool_decide (renameZip w = None) || bool_decide (copyZip w = None)) in
  let video := negb (eqb (VideoSrc pageInfo) []) && bool_decide (videoErr = None)
               && (bool_decide (renameMP4 w = None) || bool_decide (copyMP4 w = None)) in
  let out := snd (assemble usesPool rawURL session base title info pageInfo zipRun w) in
  Title (fst out) = title /\ RootDir (fst out) = rootDir
  /\ ZipPath (fst out) = (if archive then Join rootDir (go "raw.zip") else [])
  /\ MP4Path (fst out) = (if video then Join rootDir (go "recording.mp4") else [])
  /\ snd out = (if archive || video then None else Some errNoAssets)
  /\ Warnings (fst out)
     = archiveWarnings (errOf zipRun) ++ (if video then [] else [warnNoMP4])
       ++ (if archive || video then metadataWarnings w else []).
Proof.
  intros rootDir videoErr archive video. subst videoErr. unfold videoTask in video.
  unfold assemble. cbv zeta. fold rootDir.
  match goal with |- context [placeZip ?w ?e ?tz ?zp ?r] =>
    pose proof (placeZip_obtained w e tz zp r) as Hz;
    destruct (placeZip w e tz zp r) as [[evZip r1] zipErr] end.
  match goal with |- context [placeMP4 ?w ?s ?t ?tm ?mp ?r] =>
    pose proof (placeMP4_obtained w s t tm mp r (tempMP4Path_nonnil _ _)) as Hm;
    destruct (placeMP4 w s t tm mp r) as [evMP4 r2] end.
  match goal with |- context [extract ?w ?ze ?rd ?r] =>
    pose proof (extract_spec w ze rd r) as He;
    destruct (extract w ze rd r) as [evEx r3] end.
  pose proof (finish_obtained w r3) as Hf.
  destruct (finish w r3) as [r4 err].
  cbv zeta in Hz, Hm, Hf. fold archive in Hz. fold video in Hm.
  cbn [fst snd].
  destruct Hz as [Hz1 [_ [Hz2 [Hz3 [Hz4 Hz5]]]]].
  destruct Hm as [Hm1 [Hm2 [Hm3 [Hm4 Hm5]]]].
  destruct He as [He1 [He2 [He3 [He4 He5]]]].
  destruct Hf as [Hf1 [Hf2 [Hf3 [Hf4 [Hf5 Hf6]]]]].
  cbn [Title RootDir MP4Path ZipPath Warnings app] in *.
  assert (Hzip : ZipPath r3 = if archive then Join rootDir (go "raw.zip") else [])
    by congruence.
  assert (Hmp4 : MP4Path r3 = if video then Join rootDir (go "recording.mp4") else []).
  { rewrite He4, Hm1, Hz4. reflexivity. }
  assert (Ez : eqb (ZipPath r3) [] = negb archive).
  { rewrite Hzip. destruct archive; [|reflexivity].
    apply eqb_false, Join_nonnil. discriminate. }
  assert (Em : eqb (MP4Path r3) [] = negb video).
  { rewrite Hmp4. destruct video; [|reflexivity].
    apply eqb_false, Join_nonnil. discriminate. }
  rewrite Ez, Em, !negb_involutive in Hf1, Hf6.
  rewrite (orb_comm video archive) in Hf1, Hf6.
  split; [congruence|]. split; [congruence|]. split; [congruence|]. split; [congruence|].
  split; [exact Hf1|].
  rewrite Hf6, He5, Hm5, Hz5. destruct video; reflexivity.
Qed.

(** A run that takes none of the early returns assembles its result. *)
Lemma Download_assembles usesPool rawURL opts w info :
  parsed w = inr info -> returnsEarly rawURL opts w = false ->
  snd (Download usesPool rawURL opts w)
  = snd (assemble usesPool rawURL (sessionOf opts w) (baseOf opts)
           (titleOf rawURL opts w info) info (pageInfoOf rawURL opts w)
           (zipTask usesPool rawURL (sessionOf opts w) info (baseOf opts) w) w).
Proof.
  intros Hp He. unfold returnsEarly in He.
  apply orb_false_iff in He as [He Hmk]. apply orb_false_iff in He as [Hauth Hdir].
  unfold Download. rewrite Hp. cbv zeta. rewrite Hauth, Hdir.
  destruct (mkdirRoot w); [discriminate|].
  unfold titleOf, pageInfoOf.
  match goal with |- context [assemble ?a ?b ?c ?d ?t ?i ?pi ?z ?w] =>
    destruct (assemble a b c d t i pi z w) end.
  reflexivity.
Qed.

(** An early return hands up an error and no path. *)
Lemma Download_returns_early usesPool rawURL opts w info :
  parsed w = inr info -> returnsEarly rawURL opts w = true ->
  let out := snd (Download usesPool rawURL opts w) in
  snd out <> None /\ MP4Path (fst out) = [] /\ ZipPath (fst out) = []
  /\ Warnings (fst out) = [].
Proof.
  intros Hp He. unfold returnsEarly in He. unfold Download. rewrite Hp. cbv zeta.
  destruct (match errOf (fetchPageInfo rawURL (sessionOf opts w) (page w)) with
            | Some e => errorsIs e SAuthRequired | None => false end) eqn:Hauth.
  { cbn [fst snd]. destruct (errOf _); [|discriminate]. repeat split. discriminate. }
  cbn [orb] in He.
  destruct (negb (Overwrite opts) && _) eqn:Hdir.
  { cbn [fst snd]. repeat split. discriminate. }
  cbn [orb] in He. destruct (mkdirRoot w); [|discriminate].
  cbn [fst snd]. repeat split. discriminate.
Qed.

(** C1, as the code has it.  The archive is obtained when its download
    returns no error and the staged file is renamed or copied to its place;
    the video, when the page names one, its download returns no error and
    the staged file is renamed or copied to its place.  When neither is
    obtained [Download] returns an error and no path.  In a run that takes
    none of the early returns the two paths of the result tell what was
    obtained, the error is nil as soon as one of the two is, and the
    warnings are those of the archive, of the video and of the metadata
    file: a missing video is always recorded (MP4 rendition not available);
    a missing archive is recorded when its download ended in the not-found
    value (Raw recording ZIP not available) or in the invalid-content value
    (ZIP response was invalid), and leaves no warning when it is missing for
    any other reason. *)
Theorem C1_one_missing_asset_is_success
    (usesPool : bool) (rawURL : gostring) (opts : Options) (w : World)
    (info : recordingInfo) :
  parsed w = inr info ->
  let session := sessionOf opts w in
  let base := baseOf opts in
  let pageInfo := pageInfoOf rawURL opts w in
  let zipErr := errOf (zipTask usesPool rawURL session info base w) in
  let videoErr := errOf (videoTask usesPool rawURL session info base pageInfo w) in
  let archive := bool_decide (zipErr = None)
                 && (bool_decide (renameZip w = None) || bool_decide (copyZip w = None)) in
  let video := negb (eqb (VideoSrc pageInfo) []) && bool_decide (videoErr = None)
               && (bool_decide (renameMP4 w = None) || bool_decide (copyMP4 w = None)) in
  let out := snd (Download usesPool rawURL opts w) in
  let res := fst out in
  let err := snd out in
  (archive = false -> video = false ->
   err <> None /\ MP4Path res = [] /\ ZipPath res = [])
  /\ (returnsEarly rawURL opts w = false ->
      RootDir res = Join base (titleOf rawURL opts w info)
      /\ ZipPath res = (if archive then Join (RootDir res) (go "raw.zip") else [])
      /\ MP4Path res = (if video then Join (RootDir res) (go "recording.mp4") else [])
      /\ Join (RootDir res) (go "raw.zip") <> []
      /\ Join (RootDir res) (go "recording.mp4") <> []
      /\ err = (if archive || video then None else Some errNoAssets)
      /\ Warnings res
         = archiveWarnings zipErr ++ (if video then [] else [warnNoMP4])
           ++ (if archive || video then metadataWarnings w else [])
      /\ (archive = true -> video = false ->
          err = None /\ ZipPath res <> [] /\ MP4Path res = []
          /\ In warnNoMP4 (Warnings res))
      /\ (archive = false -> video = true ->
          err = None /\ MP4Path res <> [] /\ ZipPath res = []
          /\ Warnings res = archiveWarnings zipErr ++ metadataWarnings w))
  /\ (returnsEarly rawURL opts w = true ->
      err <> None /\ MP4Path res = [] /\ ZipPath res = [] /\ Warnings res = []).
Proof.
  intros Hp session base pageInfo zipErr videoErr archive video out res err.
  assert (Hfull : returnsEarly rawURL opts w = false ->
      RootDir res = Join base (titleOf rawURL opts w info)
      /\ ZipPath res = (if archive then Join (RootDir res) (go "raw.zip") else [])
      /\ MP4Path res = (if video then Join (RootDir res) (go "recording.mp4") else [])
      /\ Join (RootDir res) (go "raw.zip") <> []
      /\ Join (RootDir res) (go "recording.mp4") <> []
      /\ err = (if archive || video then None else Some errNoAssets)
      /\ Warnings res
         = archiveWarnings zipErr ++ (if video then [] else [warnNoMP4])
           ++ (if archive || video then metadataWarnings w else [])
      /\ (archive = true -> video = false ->
          err = None /\ ZipPath res <> [] /\ MP4Path res = []
          /\ In warnNoMP4 (Warnings res))
      /\ (archive = false -> video = true ->
          err = None /\ MP4Path res <> [] /\ ZipPath res = []
          /\ Warnings res = archiveWarnings zipErr ++ metadataWarnings w)).
  { intros He. subst res err out archive video videoErr zipErr pageInfo base session.
    rewrite (Download_assembles usesPool rawURL opts w info Hp He).
    destruct (assemble_obtained usesPool rawURL (sessionOf opts w) (baseOf opts)
                (titleOf rawURL opts w info) info (pageInfoOf rawURL opts w)
                (zipTask usesPool rawURL (sessionOf opts w) info (baseOf opts) w) w)
      as [_ [Hr [Hz [Hm [Herr Hw]]]]].
    rewrite Hr. split; [reflexivity|]. split; [exact Hz|]. split; [exact Hm|].
    assert (Hzp : Join (Join (baseOf opts) (titleOf rawURL opts w info)) (go "raw.zip") <> [])
      by (apply Join_nonnil; discriminate).
    assert (Hmp : Join (Join (baseOf opts) (titleOf rawURL opts w info)) (go "recording.mp4")
                  <> []) by (apply Join_nonnil; discriminate).
    split; [exact Hzp|]. split; [exact Hmp|].
    split; [exact Herr|]. split; [exact Hw|]. split.
    - intros Ha Hv. rewrite Hz, Hm, Herr, Hw, Ha, Hv. cbn [orb].
      split; [reflexivity|]. split; [exact Hzp|]. split; [reflexivity|].
      rewrite !in_app_iff. right. left. left. reflexivity.
    - intros Ha Hv. rewrite Hz, Hm, Herr, Hw, Ha, Hv. cbn [orb app].
      split; [reflexivity|]. split; [exact Hmp|]. split; reflexivity. }
  assert (Hearly := Download_returns_early usesPool rawURL opts w info Hp).
  cbv zeta in Hearly. fold out res err in Hearly.
  split; [|split; [exact Hfull|exact Hearly]].
  intros Ha Hv. destruct (returnsEarly rawURL opts w) eqn:He.
  - destruct (Hearly eq_refl) as [H1 [H2 [H3 _]]]. auto.
  - destruct (Hfull eq_refl) as [_ [Hz [Hm [_ [_ [Herr _]]]]]].
    rewrite Ha in Hz, Herr. rewrite Hv in Hm, Herr. cbn [orb] in Herr.
    rewrite Herr. split; [discriminate|]. split; assumption.
Qed.

(** C1, as the spec has it, fails: with the archive answered by status 403
    and the video served, [Download] succeeds with the archive missing and
    records no warning at all. *)
Lemma C1_missing_archive_without_warning :
  let out := snd (Download false Samples.rawURL Samples.opts Samples.forbiddenZipWorld) in
  snd out = None
  /\ MP4Path (fst out) <> [] /\ ZipPath (fst out) = []
  /\ Warnings (fst out) = [].
Proof. vm_compute. repeat split. discriminate. Qed.

(** An early return whose clean-up runs after the archive download is over
    leaves no staged archive. *)
Lemma filesAfter_app (a b : list Event) (files : gset (list Z)) :
  filesAfter (a ++ b) files = filesAfter b (filesAfter a files).
Proof. unfold filesAfter. apply fold_left_app. Qed.

Lemma cleanup_late_leaves_nothing (k : nat) (zipEvents : list Event)
    (tempZip : gostring) (files : gset (list Z)) :
  (length zipEvents <= k)%nat ->
  tempZip ∉ filesAfter (cleanup k zipEvents tempZip) files.
Proof.
  intros Hk. unfold cleanup.
  rewrite (take_ge zipEvents k Hk), (drop_ge zipEvents k Hk).
  rewrite !filesAfter_app. simpl.
  intros Hin. apply elem_of_difference in Hin as [_ Hin].
  apply Hin, elem_of_singleton. reflexivity.
Qed.

(** A transfer to [dest] makes no file but [dest] and removes none. *)
Lemma transfer_files (dest : gostring) (l : list Event) :
  Forall (transferEvent dest) l ->
  forall files : gset (list Z),
  dest ∈ filesAfter l files <-> dest ∈ files \/ In (EvCreate dest) l.
Proof.
  induction 1 as [|ev l Hev _ IH]; intros files; simpl.
  - tauto.
  - unfold filesAfter in *. simpl. rewrite IH.
    destruct ev; simpl in Hev; try contradiction; simpl.
    + split; [intros [H|H]; auto|intros [H|[H|H]]; auto; discriminate].
    + split; [intros [H|H]; auto|intros [H|[H|H]]; auto; discriminate].
    + subst path. rewrite elem_of_union, elem_of_singleton. split.
      * intros [[_|H]|H]; auto.
      * intros [H|[H|H]]; auto.
    + split; [intros [H|H]; auto|intros [H|[H|H]]; auto; discriminate].
Qed.

(** The early return for an existing directory, in general: whatever the
    world, [Download] fails with the already-exists error and the name and
    directory of the recording, does nothing of its own but read the
    directory, remove the staged archive and wait, and lets the staged
    archive behind exactly when the archive download creates it after the
    removal. *)
Lemma existing_directory_return
    (usesPool : bool) (rawURL : gostring) (opts : Options) (w : World)
    (info : recordingInfo) (n : nat) :
  parsed w = inr info -> Overwrite opts = false -> readDir w = inr n -> (0 < n)%nat ->
  (forall e, errOf (fetchPageInfo rawURL (sessionOf opts w) (page w)) = Some e ->
             errorsIs e SAuthRequired = false) ->
  let tempZip := tempZipPath (baseOf opts) (ID info) in
  let zipRun := zipTask usesPool rawURL (sessionOf opts w) info (baseOf opts) w in
  let run := Download usesPool rawURL opts w in
  exists title,
    snd run = (mkResult title (Join (baseOf opts) title) [] [] [] [],
               Some (errDirectoryExists (Join (baseOf opts) title)))
    /\ fst run = trace (fetchPageInfo rawURL (sessionOf opts w) (page w))
                 ++ [EvReadDir (Join (baseOf opts) title)]
                 ++ cleanup (cleanupAfter w) (trace zipRun) tempZip
    /\ forall files : gset (list Z),
         tempZip ∈ filesAfter (fst run) files
         <-> In (EvCreate tempZip) (drop (cleanupAfter w) (trace zipRun)).
Proof.
  intros Hp Ho Hr Hn Hauth tempZip zipRun run.
  assert (Hrun : exists title,
    run = (trace (fetchPageInfo rawURL (sessionOf opts w) (page w))
           ++ [EvReadDir (Join (baseOf opts) title)]
           ++ cleanup (cleanupAfter w) (trace zipRun) tempZip,
           (mkResult title (Join (baseOf opts) title) [] [] [] [],
            Some (errDirectoryExists (Join (baseOf opts) title))))).
  { subst run. unfold Download. rewrite Hp. cbv zeta. rewrite Ho, Hr.
    apply Nat.ltb_lt in Hn. rewrite Hn. cbn [negb andb].
    destruct (errOf (fetchPageInfo rawURL (sessionOf opts w) (page w))) as [e|] eqn:E.
    - rewrite (Hauth e eq_refl). eexists. reflexivity.
    - eexists. reflexivity. }
  destruct Hrun as [title Hrun]. exists title. rewrite Hrun.
  refine (conj eq_refl (conj eq_refl _)).
  intros files. cbn [fst]. unfold cleanup.
  rewrite !app_assoc, filesAfter_app. cbn [filesAfter fold_left].
  rewrite <- !app_assoc, !filesAfter_app.
  set (before := filesAfter (take (cleanupAfter w) (trace zipRun)) _).
  cbn [filesAfter fold_left apply].
  change (fold_left (fun fs ev => apply ev fs) (drop (cleanupAfter w) (trace zipRun))
            (before ∖ {[tempZip]}))
    with (filesAfter (drop (cleanupAfter w) (trace zipRun)) (before ∖ {[tempZip]})).
  rewrite (transfer_files tempZip).
  - split; [intros [H|H]; [|exact H]|auto].
    apply elem_of_difference in H as [_ H]. exfalso. apply H, elem_of_singleton. reflexivity.
  - apply Forall_drop. apply runTask_events.
Qed.

(** C3, at the failing input: the recording directory exists and is not
    empty, overwriting is not asked for, and the archive is served after
    [Download] has called [os.Remove] on the staged path.  [Download] fails
    with the already-exists error, nothing is created or written below the
    recording directory, and the staged archive [out/.rec_temp.zip] is left
    behind. *)
Theorem C3_staged_archive_left_behind :
  let run := Download false Samples.rawURL Samples.opts Samples.existingDirWorld in
  let rootDir := go "out/Lecture 1" in
  let tempZip := go "out/.rec_temp.zip" in
  snd (snd run) = Some (errDirectoryExists rootDir)
  /\ errorsIs (errDirectoryExists rootDir) SDirectoryExists = true
  /\ tempZipPath (baseOf Samples.opts) (ID Samples.info) = tempZip
  /\ Forall (fun ev => match ev with
                       | EvCreate p | EvWrite p _ | EvMkdirAll p =>
                           hasPrefix p (rootDir ++ [sep]) = false /\ p <> rootDir
                       | _ => True
                       end) (fst run)
  /\ tempZip ∈ filesAfter (fst run) ∅.
Proof.
  cbv zeta. refine (conj _ (conj _ (conj _ (conj _ _)))).
  - vm_compute. reflexivity.
  - reflexivity.
  - vm_compute. reflexivity.
  - vm_compute. repeat constructor; discriminate.
  - apply (bool_decide_unpack _). vm_compute. exact I.
Qed.

(** The same run with the clean-up scheduled after the archive download is
    over leaves nothing behind: the defect is the order of the removal and
    the wait. *)
Example C3_late_cleanup_is_clean :
  go "out/.rec_temp.zip"
  ∉ filesAfter (cleanup 5 (trace (zipTask false Samples.rawURL [] Samples.info (go "out")
                                    Samples.existingDirWorld))
                        (go "out/.rec_temp.zip")) ∅.
Proof. apply cleanup_late_leaves_nothing. vm_compute. lia. Qed.

(** The staged archive is there after the clean-up exactly when the archive
    download creates it after the removal. *)
Lemma cleanup_files (pre : list Event) (k : nat) (zipEvents : list Event)
    (tempZip : gostring) (files : gset (list Z)) :
  Forall (transferEvent tempZip) zipEvents ->
  tempZip ∈ filesAfter (pre ++ cleanup k zipEvents tempZip) files
  <-> In (EvCreate tempZip) (drop k zipEvents).
Proof.
  intros Hev. unfold cleanup. rewrite !filesAfter_app.
  set (before := filesAfter (take k zipEvents) (filesAfter pre files)).
  change (filesAfter [EvRemove tempZip] before) with (before ∖ {[tempZip]}).
  change (filesAfter [EvWait (go "zipDownloadDone")] ?x) with x.
  rewrite (transfer_files tempZip) by (apply Forall_drop; exact Hev).
  split; [intros [H|H]; [|exact H]|auto].
  apply elem_of_difference in H as [_ H]. exfalso. apply H, elem_of_singleton. reflexivity.
Qed.

(** The early return for a page that asks for authentication, in general. *)
Lemma auth_failure_return
    (usesPool : bool) (rawURL : gostring) (opts : Options) (w : World)
    (info : recordingInfo) (resp : PageResponse) :
  parsed w = inr info ->
  pageNewRequest (page w) = None -> pageRoundTrip (page w) = inr resp ->
  (pageStatus resp = 401 \/ pageStatus resp = 403 \/ pageStatus resp = 500)%Z ->
  let session := sessionOf opts w in
  let tempZip := tempZipPath (baseOf opts) (ID info) in
  let zipRun := zipTask usesPool rawURL session info (baseOf opts) w in
  let out := Download usesPool rawURL opts w in
  errOf (fetchPageInfo rawURL session (page w)) = Some ErrAuthRequired
  /\ snd out = (noResult, Some (errAuthGuidance ErrAuthRequired))
  /\ errorsIs (errAuthGuidance ErrAuthRequired) SAuthRequired = true
  /\ contains (errorString (errAuthGuidance ErrAuthRequired)) (go "session token") = true
  /\ fst out = [pageRequest rawURL session] ++ take (cleanupAfter w) (trace zipRun)
               ++ [EvRemove tempZip] ++ drop (cleanupAfter w) (trace zipRun)
               ++ [EvWait (go "zipDownloadDone")]
  /\ (forall p, In (EvMkdirAll p) (fst out) <-> p = Dir tempZip /\ In (EvMkdirAll p) (trace zipRun))
  /\ (forall files : gset (list Z),
        tempZip ∈ filesAfter (fst out) files
        <-> In (EvCreate tempZip) (drop (cleanupAfter w) (trace zipRun))).
Proof.
  intros Hp Hn Hr Hs session tempZip zipRun out.
  pose proof (fetchPageInfo_auth rawURL session (page w) resp Hn Hr Hs) as Hf.
  assert (Hout : Download usesPool rawURL opts w
                 = ([pageRequest rawURL session]
                    ++ cleanup (cleanupAfter w) (trace zipRun) tempZip,
                    (noResult, Some (errAuthGuidance ErrAuthRequired)))).
  { unfold Download. rewrite Hp. cbv zeta.
    fold session. rewrite Hf. reflexivity. }
  subst out. rewrite Hout. rewrite Hf.
  refine (conj _ (conj _ (conj _ (conj _ (conj _ (conj _ _)))))).
  - reflexivity.
  - reflexivity.
  - reflexivity.
  - vm_compute. reflexivity.
  - reflexivity.
  - intros p. cbn [fst]. unfold cleanup.
    assert (Hev : Forall (transferEvent tempZip) (trace zipRun)) by apply runTask_events.
    rewrite <- (take_drop (cleanupAfter w) (trace zipRun)) at 3.
    rewrite <- (take_drop (cleanupAfter w) (trace zipRun)) in Hev.
    apply Forall_app in Hev as [Hev1 Hev2]. rewrite Forall_forall in Hev1, Hev2.
    rewrite !in_app_iff. cbn [In]. split.
    + intros [[H|[]]|[H|[[H|[]]|[H|[H|[]]]]]]; try discriminate.
      * split; [|auto]. apply list_elem_of_In in H as H'. exact (Hev1 _ H').
      * split; [|auto]. apply list_elem_of_In in H as H'. exact (Hev2 _ H').
    + intros [_ [H|H]]; auto 6.
  - intros files. cbn [fst]. apply cleanup_files, runTask_events.
Qed.

(** C2, at the failing input: the page is answered with status 403 and
    the archive is served after [Download] has called [os.Remove] on the
    staged path.  [fetchPageInfo] returns the authentication-required value
    and [Download] returns no result and an error that wraps it and tells
    how to supply a session token; but the removal comes before the wait for
    the archive download, which makes the output directory [out], creates
    the staged archive [out/.rec_temp.zip] and fills it: the directory and
    the staged archive are left behind. *)
Theorem C2_auth_failure_leaves_staged_archive :
  let w := Samples.authWorld in
  let run := Download false Samples.rawURL Samples.opts w in
  let tempZip := go "out/.rec_temp.zip" in
  let zipRun := zipTask false Samples.rawURL [] Samples.info (go "out") w in
  errOf (fetchPageInfo Samples.rawURL (sessionOf Samples.opts w) (page w))
  = Some ErrAuthRequired
  /\ snd run = (noResult, Some (errAuthGuidance ErrAuthRequired))
  /\ contains (errorString (errAuthGuidance ErrAuthRequired)) (go "session token") = true
  /\ tempZipPath (baseOf Samples.opts) (ID Samples.info) = tempZip
  /\ fst run = [pageRequest Samples.rawURL []; EvRemove tempZip] ++ trace zipRun
               ++ [EvWait (go "zipDownloadDone")]
  /\ In (EvMkdirAll (go "out")) (trace zipRun)
  /\ In (EvCreate tempZip) (trace zipRun)
  /\ tempZip ∈ filesAfter (fst run) ∅.
Proof.
  cbv zeta. refine (conj _ (conj _ (conj _ (conj _ (conj _ (conj _ (conj _ _))))))).
  - vm_compute. reflexivity.
  - vm_compute. reflexivity.
  - vm_compute. reflexivity.
  - vm_compute. reflexivity.
  - vm_compute. reflexivity.
  - vm_compute. right. left. reflexivity.
  - vm_compute. right. right. left. reflexivity.
  - apply (bool_decide_unpack _). vm_compute. exact I.
Qed.

(** The same run with the clean-up scheduled after the archive download is
    over leaves no staged archive. *)
Example C2_late_cleanup_is_clean :
  go "out/.rec_temp.zip"
  ∉ filesAfter (cleanup 5 (trace (zipTask false Samples.rawURL [] Samples.info (go "out")
                                    Samples.authWorld))
                        (go "out/.rec_temp.zip")) ∅.
Proof. apply cleanup_late_leaves_nothing. vm_compute. lia. Qed.

(** *** The signature of the archive *)




(* ===================================================================== *)
(** * The theorems at concrete inputs *)
(* ===================================================================== *)

Lemma C10_witness :
  mergeCookies (go "tok") Samples.extraCookies
  = [Some (mkCookie BREEZESESSION (go "tok")); Some (mkCookie (go "a") (go "1"))]
  /\ go "tok" <> []
  /\ exists tl, mergeCookies (go "tok") Samples.extraCookies
                = Some (mkCookie BREEZESESSION (go "tok")) :: tl
                /\ ~ In BREEZESESSION (names tl)
                /\ forall c, In c tl -> In c Samples.extraCookies.
Proof.
  split; [reflexivity|]. split; [discriminate|].
  destruct (C10_mergeCookies_unique_session_first (go "tok") Samples.extraCookies)
    as [_ [_ [_ [_ Hfirst]]]].
  apply Hfirst. discriminate.
Defined.

Lemma C9_witness :
  reducesToEmpty (go " <>:?* ") /\ sanitize (go " <>:?* ") = go "recording".
Proof.
  assert (H : reducesToEmpty (go " <>:?* ")) by (vm_compute; reflexivity).
  split; [exact H|].
  destruct (C9_sanitize_safe_name_idempotent (go " <>:?* ")) as [_ [_ [_ [_ [Hfb _]]]]].
  exact (Hfb H).
Defined.

Lemma C5_witness :
  let resp := mkResponse 200 (go "text/plain") (go "  <!doctype html>") None in
  let o := served resp in
  newRequest o = None /\ roundTrip o = inr resp
  /\ (StatusCode resp < 300)%Z
  /\ errOf (downloadFile (go "https://h/f") (go "out/f")
              (mkDownloadOptions [] [] fileKindBinary) o)
     = Some ErrNotFound.
Proof.
  cbv zeta. split; [reflexivity|]. split; [reflexivity|].
  assert (Hs : (StatusCode (mkResponse 200 (go "text/plain") (go "  <!doctype html>") None)
                < 300)%Z) by (simpl; lia).
  split; [exact Hs|].
  destruct (C5_status_classification (go "https://h/f") (go "out/f")
              (mkDownloadOptions [] [] fileKindBinary)
              (served (mkResponse 200 (go "text/plain") (go "  <!doctype html>") None))
              (mkResponse 200 (go "text/plain") (go "  <!doctype html>") None)
              eq_refl eq_refl)
    as [_ [_ [_ [_ Hlow]]]].
  destruct (Hlow Hs) as [_ [_ [_ Hnf]]].
  apply Hnf. repeat split; vm_compute; reflexivity.
Defined.

Lemma C6_witness :
  let resp := Samples.binary Samples.videoBody in
  let o := served resp in
  let run := downloadFile (go "https://h/v") (go "out/v")
               (mkDownloadOptions [] [] fileKindVideo) o in
  newRequest o = None /\ roundTrip o = inr resp
  /\ statusError (StatusCode resp) = None
  /\ contains (ContentType resp) (go "text/html") = false
  /\ isHTMLResponse (ContentType resp) (take headSize (Body resp)) = false
  /\ written (go "out/v") (trace run) = Samples.videoBody
  /\ errOf run = None.
Proof.
  cbv zeta. do 5 (split; [vm_compute; reflexivity|]).
  destruct (C6_video_minimum_size (go "https://h/v") (go "out/v") [] []
              (served (Samples.binary Samples.videoBody)) (Samples.binary Samples.videoBody)
              eq_refl eq_refl eq_refl eq_refl eq_refl eq_refl eq_refl eq_refl
              eq_refl eq_refl eq_refl)
    as [_ [Hwr [_ [_ [Hbig _]]]]].
  split; [exact Hwr|].
  apply Hbig. rewrite Hwr. vm_compute. discriminate.
Defined.

Lemma C8_witness :
  ~ strictlyUnder (go "out/raw") (Join (go "out/raw") (go "../evil"))
  /\ endsInName (Clean (go "out/raw"))
  /\ errOf (extractZip (inr ([(mkFile (go "a.txt") false [1], noFault)]
                             ++ (mkFile (go "../evil") false [2], noFault) :: []))
                       (go "out/raw"))
     = Some (errUnsafePath (go "../evil")).
Proof.
  assert (H : ~ strictlyUnder (go "out/raw") (Join (go "out/raw") (go "../evil"))).
  { intros Hu. apply strictlyUnder_check in Hu. vm_compute in Hu. discriminate. }
  split; [exact H|]. split.
  { exists (go "raw"). split; [reflexivity|].
    repeat split; try discriminate. intros Hs. vm_compute in Hs. intuition discriminate. }
  destruct (C8_extractZip_refuses_unsafe_entry (go "out/raw")
              [(mkFile (go "a.txt") false [1], noFault)] []
              (mkFile (go "../evil") false [2]) noFault H)
    as [_ [_ [_ [_ [_ Hreached]]]]].
  apply Hreached. reflexivity.
Defined.



Lemma C1_witness :
  let w := Samples.missingZipWorld in
  let out := snd (Download false Samples.rawURL Samples.opts w) in
  parsed w = inr Samples.info
  /\ returnsEarly Samples.rawURL Samples.opts w = false
  /\ snd out = None
  /\ ZipPath (fst out) = []
  /\ MP4Path (fst out) = go "out/Lecture 1/recording.mp4"
  /\ Warnings (fst out) = [warnNoZip].
Proof.
  cbv zeta.
  assert (Hp : parsed Samples.missingZipWorld = inr Samples.info) by reflexivity.
  assert (He : returnsEarly Samples.rawURL Samples.opts Samples.missingZipWorld = false)
    by (vm_compute; reflexivity).
  split; [exact Hp|]. split; [exact He|].
  destruct (C1_one_missing_asset_is_success false Samples.rawURL Samples.opts
              Samples.missingZipWorld Samples.info Hp) as [_ [Hfull _]].
  destruct (Hfull He) as [_ [Hz [Hm [_ [_ [Herr [Hw _]]]]]]].
  split; [rewrite Herr; vm_compute; reflexivity|].
  split; [rewrite Hz; vm_compute; reflexivity|].
  split; [rewrite Hm; vm_compute; reflexivity|].
  rewrite Hw. vm_compute. reflexivity.
Defined.


(* ===================================================================== *)
(** * The command line *)
(* ===================================================================== *)

Import GoString Errors Cookies Batch.


(** ** deduplicateURLs *)

Lemma seenAt_empty (k : gostring) : seenAt ∅ k = false.
Proof. unfold seenAt. rewrite lookup_empty. reflexivity. Qed.

(** The loop adds to [result] the first occurrence of every URL that is not
    in it yet. *)
Lemma dedupLoop_inv urls : forall seen result,
  (forall k, seenAt seen k = true <-> In k result) ->
  List.NoDup result ->
  exists tl,
    dedupLoop seen result urls = result ++ tl
    /\ List.NoDup (result ++ tl)
    /\ forall u, In u tl <-> In u urls /\ ~ In u result.
Proof.
  induction urls as [|url rest IH]; intros seen result Hseen Hnd; simpl.
  - exists []. rewrite app_nil_r. split; [reflexivity|]. split; [exact Hnd|].
    intros u. simpl. tauto.
  - destruct (seenAt seen url) eqn:Es; simpl.
    + destruct (IH seen result Hseen Hnd) as [tl [E [Hn Hin]]].
      exists tl. split; [exact E|]. split; [exact Hn|].
      intros u. rewrite Hin. split; [tauto|].
      intros [[<-|Hu] Hnot]; [|tauto].
      exfalso. apply Hnot, Hseen. exact Es.
    + assert (Hnew : ~ In url result) by (intros Hin; apply Hseen in Hin; congruence).
      destruct (IH (<[url := true]> seen) (result ++ [url])) as [tl [E [Hn Hin]]].
      * intros k. rewrite seenAt_insert, in_app_iff, Hseen. simpl. tauto.
      * apply List.NoDup_app; [exact Hnd|repeat constructor; intros []|].
        intros x Hx [<-|[]]. contradiction.
      * exists (url :: tl). rewrite <- app_assoc in E, Hn. simpl in E, Hn.
        split; [exact E|]. split; [exact Hn|].
        intros u. simpl. rewrite Hin, in_app_iff. simpl.
        destruct (decide (url = u)) as [->|Hne]; tauto.
Qed.

Lemma dedupLoop_filter urls : forall seen result,
  (forall k, seenAt seen k = true <-> In k result) ->
  dedupLoop seen result urls
  = result ++ filter (fun u => u ∉ result) (dedupLoop ∅ [] urls).
Proof.
  induction urls as [|url rest IH]; intros seen result Hseen; simpl.
  - rewrite app_nil_r. reflexivity.
  - rewrite seenAt_empty. simpl.
    rewrite (IH (<[url := true]> ∅) [url]).
    2:{ intros k. rewrite seenAt_insert, seenAt_empty. simpl. split.
        - intros [H|H]; [left; exact H|discriminate].
        - intros [H|[]]. left. exact H. }
    destruct (seenAt seen url) eqn:Es; simpl.
    + rewrite (IH seen result Hseen). f_equal.
      assert (Hin : url ∈ result) by (apply list_elem_of_In, Hseen; exact Es).
      rewrite filter_cons_False by (intros H; apply H; exact Hin).
      rewrite list_filter_filter. apply list_filter_iff.
      intros x. split; [|tauto]. intros Hx. split; [exact Hx|].
      intros Hx1. apply list_elem_of_singleton in Hx1. subst x. contradiction.
    + assert (Hnot : url ∉ result).
      { intros Hin. apply list_elem_of_In, Hseen in Hin. congruence. }
      rewrite (IH (<[url := true]> seen) (result ++ [url])).
      2:{ intros k. rewrite seenAt_insert, in_app_iff, Hseen. simpl. tauto. }
      rewrite filter_cons_True by exact Hnot.
      rewrite <- app_assoc. simpl. f_equal. f_equal.
      rewrite list_filter_filter. apply list_filter_iff.
      intros x. rewrite elem_of_app, list_elem_of_singleton. tauto.
Qed.

Lemma deduplicateURLs_members (urls : list gostring) :
  List.NoDup (deduplicateURLs urls)
  /\ forall u, In u (deduplicateURLs urls) <-> In u urls.
Proof.
  unfold deduplicateURLs.
  destruct (dedupLoop_inv urls ∅ []) as [tl [E [Hn Hin]]].
  - intros k. rewrite seenAt_empty. simpl. split; [discriminate|tauto].
  - constructor.
  - simpl in E, Hn. rewrite E. split; [exact Hn|].
    intros u. rewrite Hin. simpl. tauto.
Qed.

(** X1. The list [deduplicateURLs] returns holds no URL twice and holds
    exactly the URLs of its argument. *)
Theorem X1_deduplicateURLs_no_duplicates (urls : list gostring) :
  List.NoDup (deduplicateURLs urls)
  /\ forall u, In u (deduplicateURLs urls) <-> In u urls.
Proof. apply deduplicateURLs_members. Qed.

(** X2. [deduplicateURLs] keeps the first occurrence of every URL and the
    order of these occurrences: the result for a list followed by another is
    the result for the first followed by what the result for the second adds
    to it.  It returns a list without duplicates unchanged, and so running
    it twice is running it once. *)
Theorem X2_deduplicateURLs_keeps_first_occurrences (a b : list gostring) :
  deduplicateURLs (a ++ b)
  = deduplicateURLs a ++ filter (fun u => u ∉ a) (deduplicateURLs b)
  /\ (List.NoDup a -> deduplicateURLs a = a)
  /\ deduplicateURLs (deduplicateURLs a) = deduplicateURLs a.
Proof.
  assert (Happ : forall a b,
    deduplicateURLs (a ++ b)
    = deduplicateURLs a ++ filter (fun u => u ∉ a) (deduplicateURLs b)).
  { clear a b. intros a b.
    assert (Hrun : forall a seen result,
      (forall k, seenAt seen k = true <-> In k result) ->
      exists seen',
        (forall k, seenAt seen' k = true <-> In k (dedupLoop seen result a))
        /\ dedupLoop seen result (a ++ b) = dedupLoop seen' (dedupLoop seen result a) b).
    { clear a. induction a as [|u a IH]; intros seen result Hs; simpl.
      - exists seen. split; [exact Hs|reflexivity].
      - destruct (seenAt seen u) eqn:Es; simpl.
        + apply IH. exact Hs.
        + apply IH. intros k. rewrite seenAt_insert, in_app_iff, Hs. simpl. tauto. }
    unfold deduplicateURLs.
    destruct (Hrun a ∅ []) as [seen' [Hs' E]].
    { intros k. rewrite seenAt_empty. simpl. split; [discriminate|tauto]. }
    rewrite E, (dedupLoop_filter b seen' _ Hs'). f_equal.
    apply list_filter_iff. intros x.
    pose proof (proj2 (deduplicateURLs_members a) x) as Hx. unfold deduplicateURLs in Hx.
    rewrite <- !list_elem_of_In in Hx. rewrite Hx. tauto. }
  assert (Hfix : forall a, List.NoDup a -> deduplicateURLs a = a).
  { clear a b. induction a as [|u a IH] using rev_ind; intros Hnd; [reflexivity|].
    apply List.NoDup_remove in Hnd as [Hnd Hnot]. rewrite app_nil_r in Hnd, Hnot.
    rewrite Happ, (IH Hnd). f_equal.
    unfold deduplicateURLs. simpl. rewrite seenAt_empty. simpl.
    rewrite filter_cons_True by (intros Hin; apply Hnot, list_elem_of_In; exact Hin).
    reflexivity. }
  split; [apply Happ|]. split; [apply Hfix|].
  apply Hfix, deduplicateURLs_members.
Qed.

Lemma X2_witness :
  List.NoDup [go "a"; go "b"] /\ deduplicateURLs [go "a"; go "b"] = [go "a"; go "b"].
Proof.
  split.
  - repeat constructor; simpl; intuition discriminate.
  - destruct (X2_deduplicateURLs_keeps_first_occurrences [go "a"; go "b"] []) as [_ [H _]].
    apply H. repeat constructor; simpl; intuition discriminate.
Defined.

(** ** readURLsFromFile and the URLs of a run *)

Lemma readLoop_filter lines : forall urls,
  readLoop urls lines
  = urls ++ filter (fun u => u <> [] /\ hasPrefix u (go "#") = false)
                   (map trimSpace lines).
Proof.
  induction lines as [|text rest IH]; intros urls; cbn [readLoop map]; cbv zeta.
  - rewrite app_nil_r. reflexivity.
  - destruct (eqb (trimSpace text) []) eqn:Ee; cbn [orb].
    + apply eqb_true in Ee. rewrite IH, filter_cons_False; [reflexivity|].
      intros [H _]. contradiction.
    + apply eqb_false in Ee.
      destruct (hasPrefix (trimSpace text) (go "#")) eqn:Eh.
      * rewrite IH, filter_cons_False; [reflexivity|].
        intros [_ H]. congruence.
      * rewrite IH, filter_cons_True by (split; assumption).
        rewrite <- app_assoc. reflexivity.
Qed.

(** X3. [readURLsFromFile] returns, in the order of the file, the lines
    with the white space around them removed, but for the lines that are
    then empty or start with the number sign; nothing it returns has white
    space at either end.  When the file cannot be opened or the scanner
    ends in an error it returns that error and no URL. *)
Theorem X3_readURLsFromFile_lines
    (file : gostring + list gostring * option gostring) :
  match file, readURLsFromFile file with
  | inr (lines, None), inr urls =>
      urls = filter (fun u => u <> [] /\ hasPrefix u (go "#") = false)
                    (map trimSpace lines)
      /\ Forall (fun u => noLead u /\ noTrail u) urls
  | inl msg, inl err | inr (_, Some msg), inl err => err = EExternal msg
  | _, _ => False
  end.
Proof.
  destruct file as [msg|[lines [msg|]]]; cbn [readURLsFromFile]; try reflexivity.
  cbv zeta. rewrite readLoop_filter. cbn [app]. split; [reflexivity|].
  apply Forall_forall. intros u Hu.
  apply list_elem_of_filter in Hu as [_ Hu].
  apply list_elem_of_fmap in Hu as [text [-> _]].
  split; [apply trimSpace_noLead|apply trimSpace_noTrail].
Qed.

(** X4. The URLs a run of the command works on: when the command gets that
    far the list is not empty and holds no URL twice, every argument of the
    command line is in it, and every URL in it is an argument or a line of
    the file given with the flag. *)
Theorem X4_collectURLs_distinct (args : list gostring) (fileFlag : gostring)
    (file : gostring + list gostring * option gostring) :
  match collectURLs args fileFlag file with
  | inr urls =>
      urls <> [] /\ List.NoDup urls
      /\ (forall u, In u args -> In u urls)
      /\ (forall u, In u urls ->
            In u args
            \/ (fileFlag <> []
                /\ exists lines text,
                     file = inr (lines, None) /\ In text lines /\ u = trimSpace text))
  | inl err =>
      (args = [] /\ err = ENew (go "no URLs provided. Specify URLs as arguments or use --file/-f"))
      \/ (fileFlag <> [] /\ exists e, readURLsFromFile file = inl e
                                      /\ err = EWrap (go "failed to read URLs from file: ") e [])
  end.
Proof.
  unfold collectURLs. cbn [app].
  assert (Hdone : forall urls : list gostring,
    (forall u, In u args -> In u urls) ->
    (forall u, In u urls ->
       In u args
       \/ (fileFlag <> []
           /\ exists lines text,
                file = inr (lines, None) /\ In text lines /\ u = trimSpace text)) ->
    (urls = [] -> args = []) ->
    match (if (length urls =? 0)%nat
           then inl (ENew (go "no URLs provided. Specify URLs as arguments or use --file/-f"))
           else inr (deduplicateURLs urls)) with
    | inr urls =>
        urls <> [] /\ List.NoDup urls
        /\ (forall u, In u args -> In u urls)
        /\ (forall u, In u urls ->
              In u args
              \/ (fileFlag <> []
                  /\ exists lines text,
                       file = inr (lines, None) /\ In text lines /\ u = trimSpace text))
    | inl err =>
        (args = [] /\ err = ENew (go "no URLs provided. Specify URLs as arguments or use --file/-f"))
        \/ (fileFlag <> [] /\ exists e, readURLsFromFile file = inl e
                                        /\ err = EWrap (go "failed to read URLs from file: ") e [])
    end).
  { intros urls Hargs Hfrom Hnil.
    destruct urls as [|u0 urls]; simpl.
    - left. split; [apply Hnil|]; reflexivity.
    - destruct (deduplicateURLs_members (u0 :: urls)) as [Hnd Hmem].
      split.
      + intros E. assert (Hin : In u0 (deduplicateURLs (u0 :: urls)))
          by (apply Hmem; left; reflexivity).
        rewrite E in Hin. destruct Hin.
      + split; [exact Hnd|]. split.
        * intros u Hu. apply Hmem, Hargs. exact Hu.
        * intros u Hu. apply Hfrom, Hmem. exact Hu. }
  destruct (eqb fileFlag []) eqn:Ef; simpl negb; cbv iota.
  - apply Hdone; auto.
  - apply eqb_false in Ef.
    destruct (readURLsFromFile file) as [e|fileURLs] eqn:Er.
    + right. split; [exact Ef|]. exists e. auto.
    + apply Hdone.
      * intros u Hu. apply in_app_iff. left. exact Hu.
      * intros u Hu. apply in_app_iff in Hu as [Hu|Hu]; [left; exact Hu|].
        right. split; [exact Ef|].
        destruct file as [msg|[lines [msg|]]]; cbn [readURLsFromFile] in Er; try discriminate.
        injection Er as <-. rewrite readLoop_filter in Hu. cbn [app] in Hu.
        apply list_elem_of_In, list_elem_of_filter in Hu as [_ Hu].
        apply list_elem_of_fmap in Hu as [text [-> Ht]].
        exists lines, text. split; [reflexivity|]. split; [|reflexivity].
        apply list_elem_of_In. exact Ht.
      * intros E. apply app_eq_nil in E as [E _]. exact E.
Qed.

(** ** formatBytes *)

Lemma wrap64_small (z : Z) : - 2 ^ 63 <= z < 2 ^ 63 -> wrap64 z = z.
Proof. intros H. unfold wrap64. rewrite Z.mod_small; lia. Qed.

Lemma pow1024_pos (e : Z) : 0 <= e -> 0 < 1024 ^ e.
Proof. intros H. apply Z.pow_pos_nonneg; lia. Qed.

Lemma pow1024_succ (e : Z) : 0 <= e -> 1024 ^ (e + 1) = 1024 ^ e * 1024.
Proof. intros H. rewrite Z.pow_add_r by lia. reflexivity. Qed.

Lemma pow1024_bound (e : Z) : 0 <= e -> 1024 ^ e < 2 ^ 63 -> e <= 6.
Proof.
  intros H0 H. destruct (Z_le_gt_dec e 6) as [Hle|Hgt]; [exact Hle|exfalso].
  assert (1024 ^ 7 <= 1024 ^ e) by (apply Z.pow_le_mono_r; lia).
  change (1024 ^ 7) with 1180591620717411303424 in *.
  change (2 ^ 63) with 9223372036854775808 in *. lia.
Qed.

(** The loop of [formatBytes] ends, without overflow, on the largest power
    of 1024 that does not exceed [bytes]. *)
Lemma unitLoop_spec (bytes : Z) (fuel : nat) : forall n e,
  bytes < 2 ^ 63 -> 0 <= e -> 1 <= n -> n = bytes / 1024 ^ (e + 1) ->
  n < 1024 ^ Z.of_nat fuel ->
  exists e', unitLoop fuel n (1024 ^ (e + 1)) e = Some (1024 ^ (e' + 1), e')
             /\ e <= e' /\ 1024 ^ (e' + 1) <= bytes < 1024 * 1024 ^ (e' + 1).
Proof.
  induction fuel as [|fuel IH]; intros n e Hb He Hn Hdiv Hfuel.
  - simpl in Hfuel. lia.
  - pose proof (pow1024_pos (e + 1) ltac:(lia)) as Hpos.
    assert (Hle : 1024 ^ (e + 1) * n <= bytes).
    { subst n. apply Z.mul_div_le. exact Hpos. }
    assert (Hlt : bytes < 1024 ^ (e + 1) * (n + 1)).
    { subst n. pose proof (Z.mul_succ_div_gt bytes (1024 ^ (e + 1)) Hpos). lia. }
    cbn [unitLoop]. destruct (1024 <=? n) eqn:E.
    + apply Z.leb_le in E.
      assert (Hbig : 1024 ^ (e + 1) * 1024 <= bytes) by nia.
      assert (He6 : e + 2 <= 6).
      { apply pow1024_bound; [lia|]. replace (e + 2) with (e + 1 + 1) by lia.
        rewrite (pow1024_succ (e + 1)) by lia. lia. }
      rewrite (wrap64_small (1024 ^ (e + 1) * 1024))
        by (change (2 ^ 63) with 9223372036854775808 in *; lia).
      rewrite (wrap64_small (e + 1)) by (change (2 ^ 63) with 9223372036854775808; lia).
      rewrite <- (pow1024_succ (e + 1)) by lia.
      rewrite Z.quot_div_nonneg by lia.
      destruct (IH (n / 1024) (e + 1)) as [e' [Hrun [Hee Hres]]]; try lia.
      * apply Z.div_le_lower_bound; lia.
      * subst n. rewrite Z.div_div by lia. rewrite <- pow1024_succ by lia. reflexivity.
      * apply Z.div_lt_upper_bound; [lia|].
        rewrite Nat2Z.inj_succ, <- Z.add_1_r, pow1024_succ in Hfuel by lia. lia.
      * exists e'. split; [exact Hrun|]. split; [lia|exact Hres].
    + apply Z.leb_gt in E. exists e. split; [reflexivity|]. split; [lia|]. nia.
Qed.

(** X5. For every [int64] value of at least 1024, [formatBytes] ends, its
    integers do not overflow and it takes its unit letter from within the
    six letters it has: what it formats is the binary64 quotient of the
    value by the largest power of 1024 that does not exceed it, with the
    letter of that power.  A value below 1024, negative ones included, is
    formatted as it is, in bytes.  The quotient is rounded twice, by the
    conversion and by the division, and can be 1024 itself (see the
    examples): the theorem bounds the integers, not the number printed. *)
Theorem X5_formatBytes_unit_in_range (bytes : Z) :
  - 2 ^ 63 <= bytes < 2 ^ 63 ->
  (bytes < 1024 -> formatBytes bytes = Some (Some (Plain bytes)))
  /\ (1024 <= bytes ->
      exists exp unit,
        formatBytes bytes
        = Some (Some (Scaled (PrimFloat.div (float64 bytes) (float64 (1024 ^ (exp + 1))))
                             unit))
        /\ 0 <= exp <= 5
        /\ units !! Z.to_nat exp = Some unit
        /\ 1024 ^ (exp + 1) <= bytes < 1024 * 1024 ^ (exp + 1)).
Proof.
  intros Hb. unfold formatBytes. split.
  - intros H. apply Z.ltb_lt in H. rewrite H. reflexivity.
  - intros H. rewrite (proj2 (Z.ltb_ge _ _) H).
    destruct (unitLoop_spec bytes 64 (bytes ÷ 1024) 0) as [e [Hrun [He Hres]]];
      try lia.
    + rewrite Z.quot_div_nonneg by lia. apply Z.div_le_lower_bound; lia.
    + rewrite Z.quot_div_nonneg by lia. reflexivity.
    + rewrite Z.quot_div_nonneg by lia. apply Z.div_lt_upper_bound; [lia|].
      change (2 ^ 63) with 9223372036854775808 in Hb.
      assert (9223372036854775808 <= 1024 * 1024 ^ Z.of_nat 64) by (vm_compute; discriminate).
      lia.
    + change (1024 ^ (0 + 1)) with 1024 in Hrun. rewrite Hrun.
      assert (He5 : e + 1 <= 6) by (apply pow1024_bound; lia).
      replace ((0 <=? e) && (e <? Z.of_nat (length units))) with true.
      2:{ symmetry. apply andb_true_iff. split; [apply Z.leb_le; lia|].
          apply Z.ltb_lt. change (length units) with 6%nat. lia. }
      destruct (units !! Z.to_nat e) as [unit|] eqn:Hunit.
      * exists e, unit. repeat split; try lia. exact Hunit.
      * apply lookup_ge_None in Hunit. change (length units) with 6%nat in Hunit. lia.
Qed.

Lemma X5_witness :
  exists exp unit,
    formatBytes 5000000
    = Some (Some (Scaled (PrimFloat.div (float64 5000000) (float64 (1024 ^ (exp + 1))))
                         unit))
    /\ 0 <= exp <= 5
    /\ units !! Z.to_nat exp = Some unit
    /\ 1024 ^ (exp + 1) <= 5000000 < 1024 * 1024 ^ (exp + 1).
Proof.
  apply (X5_formatBytes_unit_in_range 5000000); lia.
Defined.

(** Two mebibytes and a half: the quotient is exact. *)
Example formatBytes_ex1 :
  formatBytes 2621440 = Some (Some (Scaled (PrimFloat.div (float64 5) (float64 2)) 77)).
Proof. vm_compute. reflexivity. Qed.

(** One byte less than 2^60: the conversion rounds the value up to 2^60 and
    the quotient handed over is 1024, with the letter P. *)
Example formatBytes_ex2 :
  formatBytes (2 ^ 60 - 1) = Some (Some (Scaled (float64 1024) 80)).
Proof. vm_compute. reflexivity. Qed.

(** One byte less than 2^20: the quotient is below 1024 and above 1023.95,
    which the format %.1f rounds to one decimal. *)
Example formatBytes_ex3 :
  exists q, formatBytes 1048575 = Some (Some (Scaled q 75))
            /\ PrimFloat.ltb q (float64 1024) = true
            /\ PrimFloat.ltb (PrimFloat.div (float64 102395) (float64 100)) q = true.
Proof. eexists. split; [vm_compute; reflexivity|]. split; vm_compute; reflexivity. Qed.

Example formatBytes_ex4 : formatBytes (-5) = Some (Some (Plain (-5))).
Proof. reflexivity. Qed.

Example formatBytes_ex5 :
  formatBytes (2 ^ 63 - 1)
  = Some (Some (Scaled (PrimFloat.div (float64 (2 ^ 63 - 1)) (float64 (1024 ^ 6))) 69)).
Proof. vm_compute. reflexivity. Qed.

(** ** makeProgressCallback *)





Example makeProgressCallback_ex :
  makeProgressCallback [(0, 1000); (50, 1000); (100, 1000); (150, 1000); (199, 1000);
                        (200, 1000); (1000, 1000); (1000, 1000); (5, 0)]
  = [10; 20; 100].
Proof. reflexivity. Qed.



(* ===================================================================== *)
(** * Time stamps and log lines *)
(* ===================================================================== *)

Import GoString Stamps.

(** ** Decimal numerals *)

Lemma go_String (a : ascii) (s : string) :
  go (String a s) = Z.of_N (N_of_ascii a) :: go s.
Proof. reflexivity. Qed.

Lemma digitsValue_uint_acc (d : Decimal.uint) : forall acc : positive,
  digitsValue (Z.pos acc) (go (NilEmpty.string_of_uint d))
  = Z.pos (Pos.of_uint_acc d acc).
Proof.
  induction d; intros acc; cbn [NilEmpty.string_of_uint Pos.of_uint_acc];
    [reflexivity|..];
    rewrite go_String; cbn [digitsValue]; rewrite <- IHd; f_equal; vm_compute N_of_ascii; lia.
Qed.

Lemma digitsValue_uint (d : Decimal.uint) :
  digitsValue 0 (go (NilEmpty.string_of_uint d)) = Z.of_N (Pos.of_uint d).
Proof.
  induction d; cbn [NilEmpty.string_of_uint Pos.of_uint];
    [reflexivity|..];
    rewrite go_String; cbn [digitsValue Z.of_N];
    first [exact IHd | rewrite <- digitsValue_uint_acc; reflexivity].
Qed.

Lemma string_of_uint_nonnil (d : Decimal.uint) :
  d <> Decimal.Nil -> NilZero.string_of_uint d = NilEmpty.string_of_uint d.
Proof. destruct d; intros H; [contradiction|reflexivity..]. Qed.

(** Reading back what the verb [%d] prints gives the number. *)
Lemma digitsValue_decimal (z : Z) : 0 <= z -> digitsValue 0 (decimal z) = z.
Proof.
  intros Hz. unfold decimal. destruct z as [|p|p]; [reflexivity| |lia].
  cbn [Z.to_int NilZero.string_of_int].
  rewrite string_of_uint_nonnil by apply DecimalPos.Unsigned.to_uint_nonnil.
  rewrite digitsValue_uint, DecimalPos.Unsigned.of_to. reflexivity.
Qed.

Lemma isDigit_uint (d : Decimal.uint) :
  Forall (fun c => isDigit c = true) (go (NilEmpty.string_of_uint d)).
Proof.
  induction d; cbn [NilEmpty.string_of_uint]; [apply List.Forall_nil|..];
    rewrite go_String; (apply List.Forall_cons; [reflexivity|exact IHd]).
Qed.

Lemma isDigit_decimal (z : Z) :
  0 <= z -> decimal z <> [] /\ Forall (fun c => isDigit c = true) (decimal z).
Proof.
  intros Hz. unfold decimal. destruct z as [|p|p]; [split; [discriminate|repeat constructor]| |lia].
  cbn [Z.to_int NilZero.string_of_int].
  pose proof (DecimalPos.Unsigned.to_uint_nonnil p) as Hn.
  rewrite string_of_uint_nonnil by exact Hn.
  split; [|apply isDigit_uint].
  destruct (Pos.to_uint p); [contradiction|discriminate..].
Qed.

Lemma digitsValue_pad2 (z : Z) : 0 <= z -> digitsValue 0 (pad2 z) = z.
Proof.
  intros Hz. unfold pad2. cbv zeta.
  destruct (length (decimal z) <? 2)%nat; [cbn [digitsValue]|];
    apply digitsValue_decimal; exact Hz.
Qed.

Lemma pad2_digits (z : Z) :
  0 <= z -> (2 <= length (pad2 z))%nat /\ Forall (fun c => isDigit c = true) (pad2 z).
Proof.
  intros Hz. destruct (isDigit_decimal z Hz) as [Hne Hd]. unfold pad2. cbv zeta.
  destruct (length (decimal z) <? 2)%nat eqn:E.
  - split; [|constructor; [reflexivity|exact Hd]].
    destruct (decimal z); [contradiction|simpl; lia].
  - apply Nat.ltb_ge in E. split; assumption.
Qed.

(** Below one hundred the verb [%02d] prints two characters. *)
Lemma pad2_width (z : Z) : 0 <= z < 100 -> length (pad2 z) = 2%nat.
Proof.
  intros Hz.
  assert (H : forall n, (n < 100)%nat -> length (pad2 (Z.of_nat n)) = 2%nat).
  { intros n Hn. do 100 (destruct n as [|n]; [reflexivity|]). lia. }
  rewrite <- (Z2Nat.id z) by lia. apply H. lia.
Qed.

(** ** formatMilliseconds *)

(** The three fields of the stamp of a non-negative time. *)
Lemma formatMilliseconds_fields (ms : Z) :
  0 <= ms ->
  let secs := ms / 1000 in
  formatMilliseconds ms
  = pad2 (secs / 3600) ++ go ":" ++ pad2 (secs mod 3600 / 60) ++ go ":" ++ pad2 (secs mod 60)
  /\ 0 <= secs / 3600
  /\ 0 <= secs mod 3600 / 60 < 60
  /\ 0 <= secs mod 60 < 60
  /\ secs = secs / 3600 * 3600 + secs mod 3600 / 60 * 60 + secs mod 60.
Proof.
  intros Hms secs. unfold formatMilliseconds. cbv zeta.
  assert (Hs : 0 <= secs) by (apply Z.div_pos; lia).
  rewrite (Z.quot_div_nonneg ms 1000) by lia. fold secs.
  rewrite (Z.quot_div_nonneg secs 3600) by lia.
  rewrite (Z.rem_mod_nonneg secs 3600), (Z.rem_mod_nonneg secs 60) by lia.
  pose proof (Z.mod_pos_bound secs 3600 ltac:(lia)) as Hm.
  rewrite (Z.quot_div_nonneg (secs mod 3600) 60) by lia.
  split; [reflexivity|].
  split; [apply Z.div_pos; lia|].
  split; [split; [apply Z.div_pos; lia|apply Z.div_lt_upper_bound; lia]|].
  split; [apply Z.mod_pos_bound; lia|].
  pose proof (Z.div_mod secs 3600 ltac:(lia)) as H1.
  pose proof (Z.div_mod (secs mod 3600) 60 ltac:(lia)) as H2.
  assert (H3 : secs mod 3600 mod 60 = secs mod 60).
  { apply Z.mod_mod_divide. exists 60. reflexivity. }
  lia.
Qed.

Lemma stamp_fields_inj (h m s h' m' s' : Z) :
  0 <= h -> 0 <= m < 60 -> 0 <= s < 60 -> 0 <= h' -> 0 <= m' < 60 -> 0 <= s' < 60 ->
  pad2 h ++ go ":" ++ pad2 m ++ go ":" ++ pad2 s
  = pad2 h' ++ go ":" ++ pad2 m' ++ go ":" ++ pad2 s' ->
  h = h' /\ m = m' /\ s = s'.
Proof.
  intros Hh Hm Hs Hh' Hm' Hs' E.
  pose proof (pad2_width m ltac:(lia)) as Lm. pose proof (pad2_width s ltac:(lia)) as Ls.
  pose proof (pad2_width m' ltac:(lia)) as Lm'. pose proof (pad2_width s' ltac:(lia)) as Ls'.
  apply app_inj_2 in E as [E1 E2].
  2:{ rewrite !length_app, Lm, Ls, Lm', Ls'. reflexivity. }
  apply (app_inj_1 (go ":")) in E2 as [_ E2]; [|reflexivity].
  apply app_inj_1 in E2 as [E2 E3]; [|congruence].
  apply (app_inj_1 (go ":")) in E3 as [_ E3]; [|reflexivity].
  apply (f_equal (digitsValue 0)) in E1, E2, E3.
  rewrite !digitsValue_pad2 in E1, E2, E3 by lia. auto.
Qed.

(** X7. Two non-negative times get the same stamp from
    [formatMilliseconds] exactly when they lie in the same second. *)
Theorem X7_formatMilliseconds_same_second (a b : Z) :
  0 <= a -> 0 <= b ->
  (formatMilliseconds a = formatMilliseconds b <-> a / 1000 = b / 1000).
Proof.
  intros Ha Hb.
  destruct (formatMilliseconds_fields a Ha) as [Ea [Ha1 [Ha2 [Ha3 Ha4]]]].
  destruct (formatMilliseconds_fields b Hb) as [Eb [Hb1 [Hb2 [Hb3 Hb4]]]].
  split.
  - intros E. rewrite Ea, Eb in E.
    apply stamp_fields_inj in E as [E1 [E2 E3]]; try assumption.
    rewrite Ha4, Hb4, E1, E2, E3. reflexivity.
  - intros E. rewrite Ea, Eb, E. reflexivity.
Qed.

Lemma X7_witness :
  formatMilliseconds 61000 = formatMilliseconds 61999 <-> 61000 / 1000 = 61999 / 1000.
Proof. apply X7_formatMilliseconds_same_second; lia. Defined.

(** X8. The stamp of a non-negative time is made of the hours, the minutes
    and the seconds, in digits, with a colon between them: the minutes and
    the seconds are below 60 and take two digits each, the hours take at
    least two, and the three numbers read back give the time in seconds.
    Below one hundred hours the stamp is eight characters long. *)
Theorem X8_formatMilliseconds_shape (ms : Z) :
  0 <= ms ->
  exists hh mm ss,
    formatMilliseconds ms = hh ++ go ":" ++ mm ++ go ":" ++ ss
    /\ Forall (fun c => isDigit c = true) (hh ++ mm ++ ss)
    /\ (2 <= length hh)%nat /\ length mm = 2%nat /\ length ss = 2%nat
    /\ digitsValue 0 mm < 60 /\ digitsValue 0 ss < 60
    /\ digitsValue 0 hh * 3600 + digitsValue 0 mm * 60 + digitsValue 0 ss = ms / 1000
    /\ (ms < 360000000 -> length (formatMilliseconds ms) = 8%nat).
Proof.
  intros Hms.
  destruct (formatMilliseconds_fields ms Hms) as [E [H1 [H2 [H3 H4]]]].
  set (secs := ms / 1000) in *.
  exists (pad2 (secs / 3600)), (pad2 (secs mod 3600 / 60)), (pad2 (secs mod 60)).
  split; [exact E|].
  destruct (pad2_digits (secs / 3600) H1) as [Lh Dh].
  destruct (pad2_digits (secs mod 3600 / 60) ltac:(lia)) as [_ Dm].
  destruct (pad2_digits (secs mod 60) ltac:(lia)) as [_ Ds].
  rewrite !digitsValue_pad2 by lia.
  rewrite (pad2_width (secs mod 3600 / 60)), (pad2_width (secs mod 60)) by lia.
  split; [rewrite !Forall_app; auto|].
  split; [exact Lh|]. split; [reflexivity|]. split; [reflexivity|].
  split; [lia|]. split; [lia|]. split; [lia|].
  intros Hlt.
  assert (Hh : secs / 3600 < 100).
  { apply Z.div_lt_upper_bound; [lia|]. unfold secs. apply Z.div_lt_upper_bound; lia. }
  rewrite E, !length_app.
  rewrite (pad2_width (secs / 3600)), (pad2_width (secs mod 3600 / 60)),
    (pad2_width (secs mod 60)) by lia.
  reflexivity.
Qed.

Lemma X8_witness :
  exists hh mm ss,
    formatMilliseconds 3723004 = hh ++ go ":" ++ mm ++ go ":" ++ ss
    /\ Forall (fun c => isDigit c = true) (hh ++ mm ++ ss)
    /\ (2 <= length hh)%nat /\ length mm = 2%nat /\ length ss = 2%nat
    /\ digitsValue 0 mm < 60 /\ digitsValue 0 ss < 60
    /\ digitsValue 0 hh * 3600 + digitsValue 0 mm * 60 + digitsValue 0 ss = 3723004 / 1000
    /\ (3723004 < 360000000 -> length (formatMilliseconds 3723004) = 8%nat).
Proof. apply X8_formatMilliseconds_shape. lia. Defined.

Example formatMilliseconds_ex1 : formatMilliseconds 3723004 = go "01:02:03".
Proof. reflexivity. Qed.
Example formatMilliseconds_ex2 : formatMilliseconds 360000000 = go "100:00:00".
Proof. reflexivity. Qed.
Example formatMilliseconds_ex3 : formatMilliseconds (-1500) = go "00:00:-1".
Proof. reflexivity. Qed.

(** ** truncateURL *)

(** X9. [truncateURL] never returns more than 80 bytes: it returns a URL of
    at most 80 bytes unchanged, and of a longer one the first 77 bytes
    followed by three dots. *)
Theorem X9_truncateURL_at_most_80 (u : list Z) :
  (length (truncateURL u) <= 80)%nat
  /\ ((length u <= 80)%nat -> truncateURL u = u)
  /\ ((80 < length u)%nat ->
      length (truncateURL u) = 80%nat
      /\ take 77 (truncateURL u) = take 77 u
      /\ drop 77 (truncateURL u) = go "...").
Proof.
  unfold truncateURL. destruct (length u <=? 80)%nat eqn:E.
  - apply Nat.leb_le in E. split; [exact E|]. split; [reflexivity|]. lia.
  - apply Nat.leb_gt in E.
    assert (L : length (take 77 u) = 77%nat) by (rewrite length_take; lia).
    split; [rewrite length_app, L; simpl; lia|]. split; [lia|]. intros _.
    split; [rewrite length_app, L; reflexivity|]. split.
    + rewrite take_app_le by lia. rewrite take_take. f_equal.
    + rewrite drop_app_ge by lia. rewrite L. reflexivity.
Qed.


(* ===================================================================== *)
(** * Stored files and the result of a run *)
(* ===================================================================== *)

Import GoString Errors Cookies Path Effects Transfer Zip Orchestrator Store.
Local Open Scope go_scope.

(** ** downloadFile, when it succeeds *)

Ltac failed := intros Hsucc; exfalso; revert Hsucc; step; cbn [errOf snd fail]; discriminate.

(** A transfer that returns no error has passed every test and has done
    five things: the request, the directory, the file, and two writes. *)
Lemma downloadFile_success url dest opts o :
  errOf (downloadFile url dest opts o) = None ->
  exists resp accept,
    roundTrip o = inr resp
    /\ trace (downloadFile url dest opts o)
       = [EvGet url (Cookies opts) (Referer opts) accept; EvMkdirAll (Dir dest); EvCreate dest;
          EvWrite dest (take headSize (Body resp));
          EvWrite dest (drop headSize (Body resp))]
    /\ statusError (StatusCode resp) = None
    /\ isHTMLResponse (ContentType resp) (take headSize (Body resp)) = false
    /\ (bool_decide (Kind opts = fileKindZip)
        && (4 <=? length (take headSize (Body resp)))%nat
        && negb (isZipSignature (take headSize (Body resp)))) = false
    /\ (bool_decide (Kind opts = fileKindVideo)
        && contains (ContentType resp) (go "text/html")) = false
    /\ (bool_decide (Kind opts = fileKindVideo)
        && (Z.of_nat (length (Body resp)) <? 1024)%Z) = false.
Proof.
  unfold downloadFile.
  destruct (newRequest o); cbn [try]; [failed|]. step.
  destruct (roundTrip o) as [msg|resp]; [failed|]. step.
  destruct (statusError (StatusCode resp)) eqn:Es; cbn [failWith]; [failed|]. step.
  destruct (bool_decide (Kind opts = fileKindVideo) && contains (ContentType resp) (go "text/html"))
    eqn:Ev; cbn [failWhen]; [failed|]. step.
  destruct (mkdirAll o); cbn [try]; [failed|]. step.
  destruct (create o); cbn [try]; [failed|]. step.
  destruct (if (_ <? _)%nat && negb _ then BodyErr resp else None) eqn:Eb;
    cbn [try]; [failed|]. step.
  destruct (isHTMLResponse _ _) eqn:Eh; cbn [failWhen]; [failed|]. step.
  destruct (_ && negb (isZipSignature _)) eqn:Ez; cbn [failWhen]; [failed|]. step.
  destruct (writeHead o); cbn [try]; [failed|]. step.
  destruct (if (_ <? _)%nat then _ else BodyErr resp); [failed|].
  destruct (copyWrite o); [failed|]. step.
  destruct (flush o); [failed|]. step.
  rewrite total_written.
  destruct (_ && (_ <? 1024)%Z) eqn:Et; cbn [failWhen]; [failed|]. step.
  intros _. eexists resp, _. split; [reflexivity|]. split.
  - step. reflexivity.
  - auto.
Qed.

Lemma contentsAfter_app (a b : list Event) (fs : gmap (list Z) (list Z)) :
  contentsAfter (a ++ b) fs = contentsAfter b (contentsAfter a fs).
Proof. unfold contentsAfter. apply fold_left_app. Qed.

(** X10. When [downloadFile] returns no error, the file at the destination
    holds exactly the bytes of the response body, whatever was there before;
    the status was below 300 and the body did not look like HTML; an archive
    of four bytes or more starts with the ZIP signature, and a video has at
    least 1024 bytes and was not announced as text/html. *)
Theorem X10_downloadFile_success_stores_body url dest opts o :
  errOf (downloadFile url dest opts o) = None ->
  exists resp,
    roundTrip o = inr resp
    /\ (StatusCode resp < 300)%Z
    /\ (forall fs, contentsAfter (trace (downloadFile url dest opts o)) fs !! dest
                   = Some (Body resp))
    /\ isHTMLResponse (ContentType resp) (take headSize (Body resp)) = false
    /\ (Kind opts = fileKindZip -> (4 <= length (Body resp))%nat ->
        hasPrefix (Body resp) zipMagic = true)
    /\ (Kind opts = fileKindVideo ->
        (1024 <= Z.of_nat (length (Body resp)))%Z
        /\ contains (ContentType resp) (go "text/html") = false).
Proof.
  intros H.
  destruct (downloadFile_success url dest opts o H)
    as [resp [accept [Hr [Ht [Hs [Hh [Hz [Hv Hsz]]]]]]]].
  exists resp. split; [exact Hr|]. split; [apply statusError_none; exact Hs|].
  split; [|split; [exact Hh|split]].
  - intros fs. rewrite Ht. unfold contentsAfter. cbn [fold_left write].
    rewrite lookup_insert_eq. cbn [app].
    rewrite lookup_insert_eq, insert_insert_eq, lookup_insert_eq, take_drop. reflexivity.
  - intros Hk Hlen. rewrite (bool_decide_eq_true_2 _ Hk) in Hz. cbn [andb] in Hz.
    rewrite <- isZipSignature_head by exact Hlen.
    assert (Hn : (4 <=? length (take headSize (Body resp)))%nat = true).
    { apply Nat.leb_le. rewrite length_head.
      assert (4 <= headSize)%nat by (vm_compute; lia). lia. }
    rewrite Hn in Hz. cbn [andb] in Hz. apply negb_false_iff in Hz. exact Hz.
  - intros Hk. rewrite (bool_decide_eq_true_2 _ Hk) in Hv, Hsz. cbn [andb] in Hv, Hsz.
    split; [apply Z.ltb_ge; exact Hsz|exact Hv].
Qed.

Lemma X10_witness :
  exists resp,
    roundTrip (served (Samples.binary Samples.zipBody)) = inr resp
    /\ (forall fs,
          contentsAfter
            (trace (downloadFile (go "u") (go "d/f")
                      (mkDownloadOptions [] [] fileKindZip)
                      (served (Samples.binary Samples.zipBody)))) fs !! go "d/f"
          = Some (Body resp)).
Proof.
  destruct (X10_downloadFile_success_stores_body (go "u") (go "d/f")
              (mkDownloadOptions [] [] fileKindZip)
              (served (Samples.binary Samples.zipBody)))
    as [resp [H1 [_ [H2 _]]]]; [vm_compute; reflexivity|].
  exists resp. split; assumption.
Defined.



(** ** extractZip, when it succeeds *)

Lemma extractEntry_success dest f io :
  errOf (extractEntry dest f io) = None ->
  trace (extractEntry dest f io) = entryEvents dest f
  /\ strictlyUnder dest (Join dest (Name f)).
Proof.
  unfold extractEntry, entryEvents. cbv zeta.
  destruct (hasPrefix (Join dest (Name f)) (Clean dest ++ [sep])) eqn:E;
    cbn [negb failWhen]; [|failed].
  apply strictlyUnder_check in E. step.
  destruct (IsDir f).
  - destruct (mkdirTarget io); cbn [try]; [failed|]. step. auto.
  - destruct (mkdirParent io); cbn [try]; [failed|]. step.
    destruct (openEntry io); cbn [try]; [failed|]. step.
    destruct (openFile io); cbn [try]; [failed|]. step.
    destruct (copy io); cbn [try]; [failed|]. step. auto.
Qed.

(** X12. When [extractZip] returns no error, every entry of the archive has
    been extracted, in the order of the archive: a directory entry has been
    made, a file entry has had its directory made, has been created and has
    been given its content; and the target of every entry has the cleaned
    destination and a separator as a prefix. *)
Theorem X12_extractZip_success_extracts_everything
    (files : list (File * EntryOutcomes)) (dest : gostring) :
  errOf (extractZip (inr files) dest) = None ->
  trace (extractZip (inr files) dest) = flat_map (entryEvents dest) (map fst files)
  /\ Forall (fun f => strictlyUnder dest (Join dest (Name f))) (map fst files).
Proof.
  cbn [extractZip]. induction files as [|[f io] rest IH]; cbn [extractLoop map flat_map].
  - intros _. split; [reflexivity|constructor].
  - rewrite errOf_bind, trace_bind.
    destruct (snd (extractEntry dest f io)) as [e|[]] eqn:Es; [discriminate|].
    intros H. destruct (IH H) as [Ht Hu].
    destruct (extractEntry_success dest f io) as [Ht1 Hu1].
    { unfold errOf. rewrite Es. reflexivity. }
    rewrite Ht1, Ht. split; [reflexivity|constructor; assumption].
Qed.

Lemma X12_witness :
  let files := [(mkFile (go "a.txt") false [1], noFault); (mkFile (go "d") true [], noFault)] in
  trace (extractZip (inr files) (go "out/raw"))
  = [EvMkdirAll (go "out/raw"); EvCreate (go "out/raw/a.txt");
     EvWrite (go "out/raw/a.txt") [1]; EvMkdirAll (go "out/raw/d")].
Proof.
  apply (X12_extractZip_success_extracts_everything
           [(mkFile (go "a.txt") false [1], noFault); (mkFile (go "d") true [], noFault)]
           (go "out/raw")).
  vm_compute. reflexivity.
Defined.

(** ** Download: what it reports and what it touches *)

Import Sanitize.

Lemma sanitize_legal (name : gostring) : sanitize name <> [] /\ legal (sanitize name).
Proof.
  destruct (sanitize_cases name) as [[_ E]|[_ [E Hne]]].
  - rewrite E. split; [discriminate|]. vm_compute. repeat constructor.
  - split; [exact Hne|]. rewrite E. apply trimSpace_Forall, replaceRuns_legal.
Qed.

Lemma fetchPageInfo_not_exists pageURL session o e :
  errOf (fetchPageInfo pageURL session o) = Some e -> errorsIs e SDirectoryExists = false.
Proof.
  unfold fetchPageInfo.
  destruct (pageNewRequest o); cbn [try]; step.
  { intros [= <-]. reflexivity. }
  destruct (pageRoundTrip o) as [msg|resp]; step.
  { intros [= <-]. reflexivity. }
  destruct (_ || _); cbn [failWhen]; step.
  { intros [= <-]. reflexivity. }
  destruct (400 <=? pageStatus resp); cbn [failWhen]; step.
  { intros [= <-]. reflexivity. }
  destruct (pageBodyErr resp); cbn [try]; step.
  { intros [= <-]. reflexivity. }
  discriminate.
Qed.

Lemma fetchPageInfo_events pageURL session o :
  Forall (fun ev => exists u c r a, ev = EvGet u c r a) (trace (fetchPageInfo pageURL session o)).
Proof.
  unfold fetchPageInfo.
  destruct (pageNewRequest o); cbn [try]; step; [constructor|].
  assert (Hget : exists u c r a, pageRequest pageURL session = EvGet u c r a)
    by (unfold pageRequest; eauto).
  destruct (pageRoundTrip o) as [msg|resp]; step; [repeat constructor; exact Hget|].
  destruct (_ || _); cbn [failWhen]; step; [repeat constructor; exact Hget|].
  destruct (400 <=? pageStatus resp); cbn [failWhen]; step; [repeat constructor; exact Hget|].
  destruct (pageBodyErr resp); cbn [try]; step; repeat constructor; exact Hget.
Qed.

Section Stages.
Variables (tempZip tempMP4 zipPath mp4Path : gostring).
Abbreviation tidy' := (tidy tempZip tempMP4 zipPath mp4Path).

Lemma transfer_tidy dest (l : list Event) : Forall (transferEvent dest) l -> Forall tidy' l.
Proof.
  intros H. eapply Forall_impl; [exact H|].
  intros ev Hev. destruct ev; simpl in *; auto; contradiction.
Qed.

Lemma inside_tidy dest (l : list Event) : Forall (inside dest) l -> Forall tidy' l.
Proof.
  intros H. eapply Forall_impl; [exact H|].
  intros ev [n [_ [->|[->|[->|[d ->]]]]]]; exact I.
Qed.

Lemma cleanup_tidy k (zipEvents : list Event) :
  Forall (transferEvent tempZip) zipEvents -> Forall tidy' (cleanup k zipEvents tempZip).
Proof.
  intros H. apply cleanup_events; [apply (transfer_tidy tempZip); exact H|left; reflexivity|exact I].
Qed.

Lemma placeZip_tidy w e r :
  let '(ev, r', zipErr) := placeZip w e tempZip zipPath r in
  Forall tidy' ev
  /\ Title r' = Title r /\ RootDir r' = RootDir r /\ MP4Path r' = MP4Path r
  /\ ExtractedDir r' = ExtractedDir r
  /\ (ZipPath r' = ZipPath r \/ ZipPath r' = zipPath).
Proof.
  unfold placeZip. destruct e as [e|].
  - destruct (errorsIs e SNotFound); [|destruct (errorsIs e SInvalidZip)];
      (split; [repeat constructor; left; reflexivity|simpl; auto 7]).
  - destruct (renameZip w); [destruct (copyZip w)|]; simpl.
    + split; [constructor|auto 7].
    + split; [repeat constructor; simpl; auto|auto 7].
    + split; [repeat constructor; simpl; auto|auto 7].
Qed.

Lemma placeMP4_tidy w started task r :
  Forall (transferEvent tempMP4) (trace task) ->
  let '(ev, r') := placeMP4 w started task tempMP4 mp4Path r in
  Forall tidy' ev
  /\ Title r' = Title r /\ RootDir r' = RootDir r /\ ZipPath r' = ZipPath r
  /\ ExtractedDir r' = ExtractedDir r
  /\ (MP4Path r' = MP4Path r \/ MP4Path r' = mp4Path).
Proof.
  intros Ht. apply (transfer_tidy tempMP4) in Ht.
  assert (Hw : forall what, tidy' (EvWait what)) by (intros; exact I).
  assert (Hr : tidy' (EvRemove tempMP4)) by (right; reflexivity).
  assert (Hm : tidy' (EvRename tempMP4 mp4Path)) by (right; split; reflexivity).
  assert (Hc : tidy' (EvCopyFile mp4Path tempMP4)) by (right; split; reflexivity).
  unfold placeMP4. cbv zeta.
  destruct started; [destruct (errOf task) as [e|]|].
  - change (bool_decide (Some e = None)) with false. change (eqb (@nil Z) []) with true.
    cbn [negb andb].
    destruct (eqb tempMP4 []); cbn [negb].
    + split; [|simpl; auto 7]. rewrite !Forall_app. repeat split; auto; repeat constructor; auto.
    + split; [|simpl; auto 7]. rewrite !Forall_app. repeat split; auto; repeat constructor; auto.
  - change (bool_decide (@None Error = None)) with true. cbn [negb andb].
    destruct (eqb tempMP4 []) eqn:Et; cbn [negb].
    + split; [|simpl; auto 7]. rewrite !Forall_app. repeat split; auto; repeat constructor; auto.
    + destruct (renameMP4 w); [destruct (copyMP4 w)|];
        (split; [|simpl; auto 7]); rewrite !Forall_app; repeat split; auto;
        repeat constructor; auto.
  - change (bool_decide (@None Error = None)) with true. change (eqb (@nil Z) []) with true.
    cbn [negb andb]. split; [constructor|simpl; auto 7].
Qed.

Lemma extract_tidy w zipErr rootDir r :
  let '(ev, r') := extract w zipErr rootDir r in
  Forall tidy' ev
  /\ Title r' = Title r /\ RootDir r' = RootDir r /\ ZipPath r' = ZipPath r
  /\ MP4Path r' = MP4Path r
  /\ (ExtractedDir r' = ExtractedDir r
      \/ (ExtractedDir r' = Join rootDir (go "raw") /\ ZipPath r <> [])).
Proof.
  unfold extract.
  destruct (bool_decide (zipErr = None) && negb (eqb (ZipPath r) [])) eqn:E.
  - apply andb_true_iff in E as [_ E]. apply negb_true_iff, eqb_false in E.
    cbv zeta. split.
    + apply Forall_app. split; [|repeat constructor].
      apply (inside_tidy (Join rootDir (go "raw"))).
      destruct (archive w) as [msg|files]; [constructor|apply extractLoop_inside].
    + destruct (errOf _); cbn [Title RootDir ZipPath MP4Path ExtractedDir setExtractedDir];
        auto 7.
  - split; [repeat constructor|auto 7].
Qed.

Lemma finish_fields w r :
  let '(r', err) := finish w r in
  Title r' = Title r /\ RootDir r' = RootDir r /\ ZipPath r' = ZipPath r
  /\ MP4Path r' = MP4Path r /\ ExtractedDir r' = ExtractedDir r
  /\ (err = None -> MP4Path r <> [] \/ ZipPath r <> [])
  /\ (forall e, err = Some e -> e = errNoAssets).
Proof.
  unfold finish. cbv zeta.
  destruct (eqb (MP4Path r) []) eqn:Em;
    cbn [MP4Path ZipPath addWarning]; rewrite Em; cbn [andb].
  - destruct (eqb (ZipPath r) []) eqn:Ez.
    + repeat split; [discriminate|]. intros e [= <-]. reflexivity.
    + apply eqb_false in Ez. destruct (writeMetadata w); repeat split; auto; discriminate.
  - apply eqb_false in Em. destruct (writeMetadata w); repeat split; auto; discriminate.
Qed.

End Stages.

(** What a run that gets past the early returns reports and touches. *)
Lemma assemble_run usesPool rawURL session base title info pageInfo zipRun w :
  let rootDir := Join base title in
  let tempZip := tempZipPath base (ID info) in
  let tempMP4 := tempMP4Path base (ID info) in
  let zipPath := Join rootDir (go "raw.zip") in
  let mp4Path := Join rootDir (go "recording.mp4") in
  let run := assemble usesPool rawURL session base title info pageInfo zipRun w in
  let r := fst (snd run) in
  Forall (transferEvent tempZip) (trace zipRun) ->
  Forall (tidy tempZip tempMP4 zipPath mp4Path) (fst run)
  /\ Title r = title /\ RootDir r = rootDir
  /\ (ZipPath r = [] \/ ZipPath r = zipPath)
  /\ (MP4Path r = [] \/ MP4Path r = mp4Path)
  /\ (ExtractedDir r = [] \/ (ExtractedDir r = Join rootDir (go "raw") /\ ZipPath r <> []))
  /\ (snd (snd run) = None -> MP4Path r <> [] \/ ZipPath r <> [])
  /\ (forall e, snd (snd run) = Some e -> e = errNoAssets).
Proof.
  intros rootDir tempZip tempMP4 zipPath mp4Path run r Hz. subst run r.
  unfold assemble. cbv zeta.
  fold rootDir tempZip tempMP4 zipPath mp4Path.
  match goal with |- context [placeZip ?w ?e ?tz ?zp ?r] =>
    pose proof (placeZip_tidy tempZip tempMP4 zipPath mp4Path w e r) as H1;
    destruct (placeZip w e tz zp r) as [[evZip r1] zipErr] end.
  match goal with |- context [placeMP4 ?w ?s ?t ?tm ?mp ?r] =>
    pose proof (placeMP4_tidy tempZip tempMP4 zipPath mp4Path w s t r) as H2;
    destruct (placeMP4 w s t tm mp r) as [evMP4 r2] end.
  match goal with |- context [extract ?w ?ze ?rd ?r] =>
    pose proof (extract_tidy tempZip tempMP4 zipPath mp4Path w ze rd r) as H3;
    destruct (extract w ze rd r) as [evEx r3] end.
  pose proof (finish_fields w r3) as H4.
  destruct (finish w r3) as [r4 err].
  destruct H1 as [E1 [T1 [R1 [M1 [X1 Z1]]]]].
  destruct H2 as [E2 [T2 [R2 [Z2 [X2 M2]]]]]; [apply runTask_events|].
  destruct H3 as [E3 [T3 [R3 [Z3 [M3 X3]]]]].
  destruct H4 as [T4 [R4 [Z4 [M4 [X4 [A4 B4]]]]]].
  cbn [fst snd]. cbn [Title RootDir MP4Path ZipPath ExtractedDir] in *.
  split.
  { rewrite !Forall_app. repeat split; try assumption.
    - apply (transfer_tidy _ _ _ _ tempZip). exact Hz.
    - repeat constructor. }
  split; [congruence|]. split; [congruence|].
  split; [rewrite Z4, Z3, Z2; destruct Z1 as [-> | ->]; auto|].
  split; [rewrite M4, M3; destruct M2 as [-> | ->]; [left; congruence|auto]|].
  split.
  - rewrite X4, Z4, Z3. destruct X3 as [-> | [-> Hne]]; [left; congruence|right; auto].
  - split; [|exact B4]. intros He. rewrite M4, Z4. apply A4. exact He.
Qed.

(** How a run of [Download] goes once the URL is parsed: it ends in one of
    its three early returns, after the clean-up, or it makes the directory
    of the recording and assembles the result. *)
Lemma Download_run usesPool rawURL opts w info :
  parsed w = inr info ->
  let base := baseOf opts in
  let session := sessionOf opts w in
  let tempZip := tempZipPath base (ID info) in
  let zipRun := zipTask usesPool rawURL session info base w in
  let run := Download usesPool rawURL opts w in
  exists name pre,
    let title := sanitize name in
    let rootDir := Join base title in
    Forall (fun ev => match ev with EvGet _ _ _ _ | EvReadDir _ => True | _ => False end) pre
    /\ ((fst run = pre ++ cleanup (cleanupAfter w) (trace zipRun) tempZip
         /\ ((exists pageErr, snd run = (noResult, Some (errAuthGuidance pageErr))
                              /\ errorsIs pageErr SDirectoryExists = false)
             \/ (snd run = (mkResult title rootDir [] [] [] [],
                            Some (errDirectoryExists rootDir))
                 /\ Overwrite opts = false
                 /\ exists n, readDir w = inr n /\ (0 < n)%nat)
             \/ (exists msg, snd run = (noResult, Some (errCreateOutputDir msg)))))
        \/ (exists pageInfo,
              let full := assemble usesPool rawURL session base title info pageInfo zipRun w in
              fst run = pre ++ [EvMkdirAll rootDir] ++ fst full
              /\ snd run = snd full)).
Proof.
  intros Hp base session tempZip zipRun run. subst run. unfold Download. rewrite Hp.
  cbv zeta. fold base session. fold tempZip. fold zipRun.
  set (pageRes := fetchPageInfo rawURL session (page w)).
  assert (Hpage : Forall (fun ev => match ev with
                                    | EvGet _ _ _ _ | EvReadDir _ => True
                                    | _ => False
                                    end) (trace pageRes)).
  { eapply Forall_impl; [apply fetchPageInfo_events|]. intros ev [u [c [r [a ->]]]]. exact I. }
  assert (Hdir : forall rootDir,
    Forall (fun ev => match ev with
                      | EvGet _ _ _ _ | EvReadDir _ => True
                      | _ => False
                      end)
      (trace pageRes ++ (if Overwrite opts then [] else
                           match readDir w with inl _ => [] | inr _ => [EvReadDir rootDir] end))).
  { intros rootDir. apply Forall_app. split; [exact Hpage|].
    destruct (Overwrite opts); [constructor|]. destruct (readDir w); repeat constructor. }
  set (title := if bool_decide (errOf pageRes = None)
                   && negb (eqb (pageTitle match snd pageRes with
                                           | inl _ => noPageInfo
                                           | inr pi => pi
                                           end) [])
                then sanitize (pageTitle match snd pageRes with
                                         | inl _ => noPageInfo
                                         | inr pi => pi
                                         end)
                else sanitize (ID info)).
  assert (Hname : exists name, title = sanitize name).
  { subst title. destruct (_ && _); eauto. }
  destruct Hname as [name Hname]. exists name.
  destruct (match errOf pageRes with Some e => errorsIs e SAuthRequired | None => false end)
    eqn:Eauth.
  { exists (trace pageRes). cbv zeta. split; [exact Hpage|]. left. split; [reflexivity|].
    left. destruct (errOf pageRes) as [e|] eqn:Ee; [|discriminate].
    exists e. split; [reflexivity|]. apply (fetchPageInfo_not_exists _ _ _ _ Ee). }
  rewrite <- Hname.
  exists (trace pageRes ++ (if Overwrite opts then [] else
                              match readDir w with
                              | inl _ => []
                              | inr _ => [EvReadDir (Join base title)]
                              end)).
  cbv zeta. split; [apply Hdir|].
  destruct (negb (Overwrite opts)
            && match readDir w with inl _ => false | inr n => (0 <? n)%nat end) eqn:Ene.
  { left. rewrite <- app_assoc. split; [reflexivity|]. right. left.
    split; [reflexivity|]. apply andb_true_iff in Ene as [Eo En].
    apply negb_true_iff in Eo. split; [exact Eo|].
    destruct (readDir w) as [|n]; [discriminate|]. exists n. split; [reflexivity|].
    apply Nat.ltb_lt. exact En. }
  destruct (mkdirRoot w) as [msg|].
  { left. rewrite <- app_assoc. split; [reflexivity|]. right. right. eauto. }
  right. exists (match snd pageRes with inl _ => noPageInfo | inr pi => pi end).
  match goal with |- context [assemble ?a ?b ?c ?d ?t ?i ?pi ?z ?w] =>
    destruct (assemble a b c d t i pi z w) as [ev out] eqn:Ea end.
  cbn [fst snd]. rewrite <- !app_assoc. split; reflexivity.
Qed.

(** X13. [Download] reports that the directory exists only when
    overwriting is not asked for and the directory of the recording holds
    something; the result then carries the title and the directory, which
    the error names, and nothing else.  With [Overwrite] set the error is
    never returned. *)
Theorem X13_Download_directory_exists_needs_no_overwrite
    (usesPool : bool) (rawURL : gostring) (opts : Options) (w : World) :
  let run := Download usesPool rawURL opts w in
  (forall e, snd (snd run) = Some e -> errorsIs e SDirectoryExists = true ->
     Overwrite opts = false
     /\ (exists n, readDir w = inr n /\ (0 < n)%nat)
     /\ exists title,
          title <> []
          /\ fst (snd run) = mkResult title (Join (baseOf opts) title) [] [] [] []
          /\ e = errDirectoryExists (Join (baseOf opts) title))
  /\ (Overwrite opts = true ->
      forall e, snd (snd run) = Some e -> errorsIs e SDirectoryExists = false).
Proof.
  intros run.
  assert (Hmain : forall e, snd (snd run) = Some e -> errorsIs e SDirectoryExists = true ->
     Overwrite opts = false
     /\ (exists n, readDir w = inr n /\ (0 < n)%nat)
     /\ exists title,
          title <> []
          /\ fst (snd run) = mkResult title (Join (baseOf opts) title) [] [] [] []
          /\ e = errDirectoryExists (Join (baseOf opts) title)).
  { intros e He Hd. subst run.
    destruct (parsed w) as [msg|info] eqn:Hp.
    { unfold Download in He. rewrite Hp in He. injection He as <-. discriminate. }
    destruct (Download_run usesPool rawURL opts w info Hp) as [name [pre [_ Hrun]]].
    cbv zeta in Hrun.
    destruct Hrun as [[_ [[pageErr [Hs Hn]]|[[Hs [Ho Hr]]|[msg Hs]]]]|[pageInfo [_ Hs]]].
    - rewrite Hs in He. injection He as <-. simpl in Hd. congruence.
    - rewrite Hs in He. injection He as <-. split; [exact Ho|]. split; [exact Hr|].
      exists (sanitize name). split; [apply sanitize_legal|]. rewrite Hs. auto.
    - rewrite Hs in He. injection He as <-. discriminate.
    - rewrite Hs in He.
      pose proof (assemble_run usesPool rawURL (sessionOf opts w) (baseOf opts)
                    (sanitize name) info pageInfo
                    (zipTask usesPool rawURL (sessionOf opts w) info (baseOf opts) w) w) as Ha.
      cbv zeta in Ha. destruct Ha as [_ [_ [_ [_ [_ [_ [_ Herr]]]]]]]; [apply runTask_events|].
      rewrite (Herr e He) in Hd. discriminate. }
  split; [exact Hmain|].
  intros Ho e He. destruct (errorsIs e SDirectoryExists) eqn:Hd; [|reflexivity].
  destruct (Hmain e He Hd) as [Ho' _]. congruence.
Qed.

Lemma X13_witness :
  Overwrite (mkOptions (go "out") [] true) = true
  /\ forall e,
       snd (snd (Download false Samples.rawURL (mkOptions (go "out") [] true)
                   Samples.existingDirWorld)) = Some e ->
       errorsIs e SDirectoryExists = false.
Proof.
  split; [reflexivity|].
  exact (proj2 (X13_Download_directory_exists_needs_no_overwrite false Samples.rawURL
                  (mkOptions (go "out") [] true) Samples.existingDirWorld) eq_refl).
Defined.

(** X14. What the result of [Download] can hold.  The three paths are
    empty or the fixed names [recording.mp4], [raw.zip] and [raw] in the
    directory of the result, and the directory of the extracted files is set
    only when the path of the archive is.  When [Download] returns no error
    the title is not empty and holds no character that [sanitize] replaces,
    and the directory is the title joined to the output directory. *)
Theorem X14_Download_result_shape
    (usesPool : bool) (rawURL : gostring) (opts : Options) (w : World) :
  let run := Download usesPool rawURL opts w in
  let r := fst (snd run) in
  (MP4Path r = [] \/ MP4Path r = Join (RootDir r) (go "recording.mp4"))
  /\ (ZipPath r = [] \/ ZipPath r = Join (RootDir r) (go "raw.zip"))
  /\ (ExtractedDir r = []
      \/ (ExtractedDir r = Join (RootDir r) (go "raw") /\ ZipPath r <> []))
  /\ (snd (snd run) = None ->
      Title r <> [] /\ legal (Title r) /\ RootDir r = Join (baseOf opts) (Title r)).
Proof.
  intros run r. subst r run.
  destruct (parsed w) as [msg|info] eqn:Hp.
  { unfold Download. rewrite Hp. cbn [fst snd MP4Path ZipPath ExtractedDir noResult].
    split; [auto|]. split; [auto|]. split; [auto|]. intros H. discriminate H. }
  destruct (Download_run usesPool rawURL opts w info Hp) as [name [pre [_ Hrun]]].
  cbv zeta in Hrun.
  destruct Hrun as [[_ [[pageErr [Hs Hn]]|[[Hs [Ho Hr]]|[msg Hs]]]]|[pageInfo [_ Hs]]];
    rewrite Hs; cbn [fst snd MP4Path ZipPath ExtractedDir noResult];
    try (split; [auto|]; split; [auto|]; split; [auto|]; intros H; discriminate H).
  pose proof (assemble_run usesPool rawURL (sessionOf opts w) (baseOf opts)
                (sanitize name) info pageInfo
                (zipTask usesPool rawURL (sessionOf opts w) info (baseOf opts) w) w) as Ha.
  cbv zeta in Ha.
  destruct Ha as [_ [Ht [Hr [Hz [Hm [Hx _]]]]]]; [apply runTask_events|].
  rewrite Hr, Ht. repeat split; auto; apply sanitize_legal.
Qed.

(** X15. From its start to the end of the extraction of the archive (the
    page request, the two transfers, the early returns, the placing of the
    archive and of the video, the extraction), [Download] removes nothing
    but its two staged files, and renames or copies nothing but a staged
    file to its final place in the directory of the recording, with or
    without [Overwrite].  What the run does to the captions, the documents
    and the chat log after the extraction is not part of the events. *)
Theorem X15_Download_removes_only_staged_files
    (usesPool : bool) (rawURL : gostring) (opts : Options) (w : World) :
  let run := Download usesPool rawURL opts w in
  let rootDir := RootDir (fst (snd run)) in
  match parsed w with
  | inl _ => fst run = []
  | inr info =>
      Forall (tidy (tempZipPath (baseOf opts) (ID info))
                   (tempMP4Path (baseOf opts) (ID info))
                   (Join rootDir (go "raw.zip")) (Join rootDir (go "recording.mp4")))
             (fst run)
  end.
Proof.
  intros run rootDir. subst rootDir run.
  destruct (parsed w) as [msg|info] eqn:Hp.
  { unfold Download. rewrite Hp. reflexivity. }
  destruct (Download_run usesPool rawURL opts w info Hp) as [name [pre [Hpre Hrun]]].
  cbv zeta in Hrun.
  assert (Hpre' : forall a b c d, Forall (tidy a b c d) pre).
  { intros a b c d. eapply Forall_impl; [exact Hpre|].
    intros ev Hev. destruct ev; simpl in *; auto; contradiction. }
  destruct Hrun as [[Hf _]|[pageInfo [Hf Hs]]].
  - rewrite Hf. apply Forall_app. split; [apply Hpre'|].
    apply cleanup_tidy, runTask_events.
  - rewrite Hf, Hs.
    pose proof (assemble_run usesPool rawURL (sessionOf opts w) (baseOf opts)
                  (sanitize name) info pageInfo
                  (zipTask usesPool rawURL (sessionOf opts w) info (baseOf opts) w) w) as Ha.
    cbv zeta in Ha.
    destruct Ha as [He [_ [Hr _]]]; [apply runTask_events|].
    rewrite Hr. rewrite !Forall_app. split; [apply Hpre'|]. split; [|exact He].
    repeat constructor.
Qed.


(* ===================================================================== *)
(** * Paths and recording URLs *)
(* ===================================================================== *)

Import GoString Errors Path Orchestrator Recording.

(** ** Cleaned paths and joined names *)

Lemma isName_pushed (c : gostring) :
  isName c -> eqb c [] || eqb c dot = false /\ eqb c dotdot = false.
Proof.
  intros [H1 [H2 [H3 _]]]. split.
  - apply orb_false_iff. split; apply eqb_false; assumption.
  - apply eqb_false. exact H3.
Qed.

(** A name is kept by the element pass. *)
Lemma cleanStack_names (rooted : bool) (names : list gostring) : forall stack,
  Forall isName names -> cleanStack rooted stack names = rev stack ++ names.
Proof.
  induction names as [|c names IH]; intros stack H; cbn [cleanStack].
  - rewrite app_nil_r. reflexivity.
  - inversion H as [|? ? Hc Hn]; subst.
    destruct (isName_pushed c Hc) as [-> ->].
    rewrite (IH (c :: stack) Hn). cbn [rev]. rewrite <- app_assoc. reflexivity.
Qed.

Lemma cleanStack_snoc (rooted : bool) (c : gostring) (comps : list gostring) :
  isName c -> forall stack,
  cleanStack rooted stack (comps ++ [c]) = cleanStack rooted stack comps ++ [c].
Proof.
  intros Hc. induction comps as [|x comps IH]; intros stack.
  - cbn [app]. rewrite (cleanStack_names rooted [c] stack) by (constructor; [exact Hc|constructor]).
    reflexivity.
  - cbn [app cleanStack].
    destruct (eqb x [] || eqb x dot); [apply IH|].
    destruct (eqb x dotdot); [|apply IH].
    destruct stack as [|top below]; [destruct rooted; apply IH|].
    destruct (eqb top dotdot); apply IH.
Qed.

Lemma cleanStack_snoc_empty (rooted : bool) (comps : list gostring) : forall stack,
  cleanStack rooted stack (comps ++ [[]]) = cleanStack rooted stack comps.
Proof.
  induction comps as [|x comps IH]; intros stack.
  - reflexivity.
  - cbn [app cleanStack].
    destruct (eqb x [] || eqb x dot); [apply IH|].
    destruct (eqb x dotdot); [|apply IH].
    destruct stack as [|top below]; [destruct rooted; apply IH|].
    destruct (eqb top dotdot); apply IH.
Qed.

Lemma cleanStack_snoc_dot (rooted : bool) (comps : list gostring) : forall stack,
  cleanStack rooted stack (comps ++ [dot]) = cleanStack rooted stack comps.
Proof.
  induction comps as [|x comps IH]; intros stack.
  - reflexivity.
  - cbn [app cleanStack].
    destruct (eqb x [] || eqb x dot); [apply IH|].
    destruct (eqb x dotdot); [|apply IH].
    destruct stack as [|top below]; [destruct rooted; apply IH|].
    destruct (eqb top dotdot); apply IH.
Qed.


Lemma cleanStack_cleaned (rooted : bool) (comps : list gostring) :
  forall (names : list gostring) (n : nat),
  Forall (fun c => ~ In sep c) comps -> Forall isName names ->
  (rooted = true -> n = 0%nat) ->
  cleaned rooted (cleanStack rooted (names ++ repeat dotdot n) comps).
Proof.
  induction comps as [|c cs IH]; intros names n Hsep Hnames Hroot; cbn [cleanStack].
  - exists n, (rev names). rewrite rev_app_distr, rev_repeat.
    split; [reflexivity|]. split; [apply Forall_rev; exact Hnames|exact Hroot].
  - inversion Hsep as [|? ? Hc Hcs]; subst.
    destruct (eqb c [] || eqb c dot) eqn:Eskip; [apply IH; assumption|].
    apply orb_false_iff in Eskip as [E1 E2].
    apply eqb_false in E1. apply eqb_false in E2.
    destruct (eqb c dotdot) eqn:Edd.
    + apply eqb_true in Edd. subst c.
      destruct names as [|top below]; cbn [app].
      * destruct n as [|n]; cbn [repeat].
        -- destruct rooted.
           ++ apply (IH [] 0%nat); auto.
           ++ apply (IH [] 1%nat); auto. discriminate.
        -- change (eqb dotdot dotdot) with true. cbv iota.
           apply (IH [] (S (S n))); auto.
           intros Hr. specialize (Hroot Hr). discriminate.
      * inversion Hnames as [|? ? Htop Hbelow]; subst.
        destruct (eqb top dotdot) eqn:Et.
        -- apply eqb_true in Et. subst top. destruct (dotdot_not_name Htop).
        -- apply (IH below n); assumption.
    + apply eqb_false in Edd.
      apply (IH (c :: names) n); [assumption| |assumption].
      constructor; [repeat split; assumption|exact Hnames].
Qed.

Lemma cleanStack_dotdots (n : nat) : forall k rest,
  cleanStack false (repeat dotdot k) (repeat dotdot n ++ rest)
  = cleanStack false (repeat dotdot (n + k)) rest.
Proof.
  induction n as [|n IH]; intros k rest; [reflexivity|].
  cbn [repeat app cleanStack].
  change (eqb dotdot [] || eqb dotdot dot) with false.
  change (eqb dotdot dotdot) with true. cbv iota.
  destruct k as [|k]; cbn [repeat].
  - rewrite (IH 1%nat). f_equal. f_equal. lia.
  - change (eqb dotdot dotdot) with true. cbv iota.
    change (dotdot :: dotdot :: repeat dotdot k) with (repeat dotdot (S (S k))).
    rewrite (IH (S (S k))). f_equal. f_equal. lia.
Qed.

(** The element pass leaves what it has left unchanged. *)
Lemma cleanStack_fixed (rooted : bool) (l : list gostring) :
  cleaned rooted l -> cleanStack rooted [] l = l.
Proof.
  intros [n [names [-> [Hn Hr]]]]. destruct rooted.
  - rewrite (Hr eq_refl). cbn [repeat app]. apply (cleanStack_names true names [] Hn).
  - pose proof (cleanStack_dotdots n 0 names) as H. cbn [repeat] in H.
    rewrite H, (cleanStack_names false names _ Hn).
    rewrite rev_repeat, Nat.add_0_r. reflexivity.
Qed.

Lemma cleaned_nosep rooted l : cleaned rooted l -> Forall (fun c => ~ In sep c) l.
Proof.
  intros [n [names [-> [Hn _]]]]. apply Forall_app. split.
  - apply Forall_forall. intros x Hx. apply list_elem_of_In, repeat_spec in Hx. subst x.
    intros H. vm_compute in H. intuition discriminate.
  - eapply Forall_impl; [exact Hn|]. intros c [_ [_ [_ Hc]]]. exact Hc.
Qed.

Lemma cleaned_nonempty rooted l : cleaned rooted l -> Forall (fun c : gostring => c <> []) l.
Proof.
  intros [n [names [-> [Hn _]]]]. apply Forall_app. split.
  - apply Forall_forall. intros x Hx. apply list_elem_of_In, repeat_spec in Hx. subst x.
    discriminate.
  - eapply Forall_impl; [exact Hn|]. intros c [Hc _]. exact Hc.
Qed.

Lemma cleaned_nodot rooted l : cleaned rooted l -> Forall (fun c : gostring => c <> dot) l.
Proof.
  intros [n [names [-> [Hn _]]]]. apply Forall_app. split.
  - apply Forall_forall. intros x Hx. apply list_elem_of_In, repeat_spec in Hx. subst x.
    discriminate.
  - eapply Forall_impl; [exact Hn|]. intros c [_ [Hc _]]. exact Hc.
Qed.


Lemma kept_cleaned (a : gostring) : cleaned (hasPrefix a [sep]) (kept a).
Proof.
  apply (cleanStack_cleaned _ _ [] 0%nat); [apply splitSep_noSep|constructor|reflexivity].
Qed.

Lemma Clean_kept (a : gostring) :
  Clean a = match kept a with
            | [] => if hasPrefix a [sep] then [sep] else dot
            | _ => (if hasPrefix a [sep] then [sep] else []) ++ joinSep (kept a)
            end.
Proof.
  unfold Clean. cbv zeta. fold (kept a).
  pose proof (kept_cleaned a) as Hc.
  destruct (kept a) as [|x l] eqn:E.
  - destruct (hasPrefix a [sep]); reflexivity.
  - assert (Hj : joinSep (x :: l) <> []).
    { apply joinSep_nonnil; [discriminate|]. apply (cleaned_nonempty _ _ Hc). }
    destruct (hasPrefix a [sep]); [reflexivity|].
    cbn [app]. apply eqb_false in Hj. rewrite Hj. reflexivity.
Qed.

Lemma joinSep_head (x : gostring) (l : list gostring) :
  x <> [] -> exists c r, joinSep (x :: l) = c :: r /\ hd_error x = Some c.
Proof.
  intros Hx. destruct x as [|c x]; [contradiction|].
  destruct l; cbn [joinSep app]; eauto.
Qed.

Lemma joinSep_snoc (l : list gostring) (c : gostring) :
  l <> [] -> joinSep (l ++ [c]) = joinSep l ++ sep :: c.
Proof.
  induction l as [|x l IH]; intros Hne; [contradiction|].
  destruct l as [|y l]; [reflexivity|].
  change (joinSep ((x :: y :: l) ++ [c])) with (x ++ sep :: joinSep ((y :: l) ++ [c])).
  rewrite IH by discriminate.
  change (joinSep (x :: y :: l)) with (x ++ sep :: joinSep (y :: l)).
  rewrite <- app_assoc. reflexivity.
Qed.

Lemma splitSep_cons_sep (s : gostring) : splitSep (sep :: s) = [] :: splitSep s.
Proof. reflexivity. Qed.

(** The elements of a cleaned path are those the cleaning kept. *)
Lemma kept_Clean (a : gostring) : kept (Clean a) = kept a /\
  hasPrefix (Clean a) [sep] = hasPrefix a [sep].
Proof.
  pose proof (kept_cleaned a) as Hc. rewrite (Clean_kept a).
  destruct (kept a) as [|x l] eqn:E.
  - destruct (hasPrefix a [sep]); split; reflexivity.
  - pose proof (cleaned_nosep _ _ Hc) as Hs. pose proof (cleaned_nonempty _ _ Hc) as Hn.
    inversion Hn as [|? ? Hx _]; subst. inversion Hs as [|? ? Hxs _]; subst.
    destruct (joinSep_head x l Hx) as [c [r [Ej Eh]]].
    assert (Hcsep : c <> sep).
    { intros ->. destruct x as [|c' x]; [discriminate|]. injection Eh as ->.
      apply Hxs. left. reflexivity. }
    destruct (hasPrefix a [sep]) eqn:Er.
    + cbn [app]. split; [|cbn [hasPrefix]; rewrite Z.eqb_refl; reflexivity].
      unfold kept. cbn [hasPrefix]. rewrite Z.eqb_refl. cbn [andb].
      change ([sep] ++ joinSep (x :: l)) with (sep :: joinSep (x :: l)).
      rewrite splitSep_cons_sep, splitSep_joinSep by (discriminate || exact Hs).
      change (cleanStack true [] ([] :: x :: l)) with (cleanStack true [] (x :: l)).
      apply cleanStack_fixed. exact Hc.
    + cbn [app].
      assert (Hp : hasPrefix (joinSep (x :: l)) [sep] = false).
      { rewrite Ej. cbn [hasPrefix]. rewrite (proj2 (Z.eqb_neq sep c)) by congruence.
        reflexivity. }
      split; [|exact Hp]. unfold kept. rewrite Hp.
      rewrite splitSep_joinSep by (discriminate || exact Hs).
      apply cleanStack_fixed. exact Hc.
Qed.

(** [filepath.Clean] is idempotent. *)
Lemma Clean_idem (a : gostring) : Clean (Clean a) = Clean a.
Proof.
  destruct (kept_Clean a) as [Hk Hr].
  rewrite (Clean_kept (Clean a)), Hk, Hr, <- (Clean_kept a). reflexivity.
Qed.

(** A trailing separator does not change the cleaned path. *)
Lemma Clean_trailing_sep (a : gostring) : a <> [] -> Clean (a ++ [sep]) = Clean a.
Proof.
  intros Ha.
  assert (Hr : hasPrefix (a ++ [sep]) [sep] = hasPrefix a [sep]).
  { destruct a as [|c a]; [contradiction|reflexivity]. }
  rewrite (Clean_kept (a ++ [sep])), (Clean_kept a), Hr.
  replace (kept (a ++ [sep])) with (kept a); [reflexivity|].
  unfold kept. rewrite Hr, splitSep_app_sep. cbn [splitSep].
  rewrite cleanStack_snoc_empty. reflexivity.
Qed.

(** A name joined to a directory lies directly in it. *)
Lemma Join_name (a c : gostring) :
  a <> [] -> isName c -> Join a c = under a ++ c.
Proof.
  intros Ha Hc. unfold Join. rewrite (proj2 (eqb_false _ _) Ha). cbn [negb].
  assert (Hr : hasPrefix (a ++ sep :: c) [sep] = hasPrefix a [sep]).
  { destruct a as [|x a]; [contradiction|reflexivity]. }
  assert (Hk : kept (a ++ sep :: c) = kept a ++ [c]).
  { unfold kept. rewrite Hr, splitSep_app_sep.
    rewrite (splitSep_single c) by (destruct Hc as [_ [_ [_ H]]]; exact H).
    apply cleanStack_snoc. exact Hc. }
  rewrite (Clean_kept (a ++ sep :: c)), Hk, Hr. unfold under. rewrite (Clean_kept a).
  pose proof (kept_cleaned a) as Hcl.
  destruct (kept a) as [|x l] eqn:E.
  - cbn [app joinSep]. destruct (hasPrefix a [sep]); reflexivity.
  - pose proof (cleaned_nonempty _ _ Hcl) as Hn. pose proof (cleaned_nodot _ _ Hcl) as Hd.
    pose proof (cleaned_nosep _ _ Hcl) as Hs.
    inversion Hn as [|? ? Hx _]; subst. inversion Hd as [|? ? Hxd _]; subst.
    inversion Hs as [|? ? Hxs _]; subst.
    destruct (joinSep_head x l Hx) as [y [r [Ej Eh]]].
    assert (Hy : y <> sep).
    { intros ->. destruct x as [|c' x]; [discriminate|]. injection Eh as ->.
      apply Hxs. left. reflexivity. }
    change ((x :: l) ++ [c]) with (x :: l ++ [c]).
    destruct (l ++ [c]) as [|z t] eqn:El; [destruct l; discriminate|]. rewrite <- El.
    change (x :: l ++ [c]) with ((x :: l) ++ [c]).
    rewrite joinSep_snoc by discriminate.
    assert (Hnd : (if hasPrefix a [sep] then [sep] else []) ++ joinSep (x :: l) <> dot).
    { destruct (hasPrefix a [sep]); cbn [app].
      - rewrite Ej. intros H. vm_compute in H. discriminate H.
      - destruct l as [|x' l].
        + cbn [joinSep]. exact Hxd.
        + change (joinSep (x :: x' :: l)) with (x ++ sep :: joinSep (x' :: l)).
          intros Heq. destruct x as [|c1 [|c2 x]]; [contradiction| |];
            cbn [app] in Heq; injection Heq as _ Heq; discriminate. }
    assert (Hns : (if hasPrefix a [sep] then [sep] else []) ++ joinSep (x :: l) <> [sep]).
    { destruct (hasPrefix a [sep]); cbn [app].
      - rewrite Ej. discriminate.
      - rewrite Ej. intros [= E1 _]. congruence. }
    rewrite (proj2 (eqb_false _ _) Hnd), (proj2 (eqb_false _ _) Hns).
    rewrite <- !app_assoc. reflexivity.
Qed.

Lemma dropToSep_nosep (c rest : gostring) :
  ~ In sep c -> dropToSep (c ++ rest) = dropToSep rest.
Proof.
  induction c as [|x c IH]; intros H; [reflexivity|].
  cbn [app dropToSep]. rewrite (proj2 (Z.eqb_neq x sep)).
  - apply IH. intros Hc. apply H. right. exact Hc.
  - intros ->. apply H. left. reflexivity.
Qed.

Lemma Dir_Join_name (a c : gostring) :
  a <> [] -> isName c -> Dir (Join a c) = Clean a.
Proof.
  intros Ha Hc. rewrite (Join_name a c Ha Hc). unfold Dir.
  rewrite rev_app_distr, dropToSep_nosep.
  2:{ intros H. apply in_rev in H. destruct Hc as [_ [_ [_ Hs]]]. contradiction. }
  unfold under.
  destruct (eqb (Clean a) dot) eqn:E1.
  - apply eqb_true in E1. rewrite E1. reflexivity.
  - destruct (eqb (Clean a) [sep]) eqn:E2.
    + apply eqb_true in E2. rewrite E2. reflexivity.
    + rewrite rev_app_distr. cbn [rev app dropToSep]. rewrite Z.eqb_refl.
      change (sep :: rev (Clean a)) with ([sep] ++ rev (Clean a)).
      rewrite rev_app_distr, rev_involutive. cbn [rev app].
      rewrite Clean_trailing_sep, Clean_idem; [reflexivity|].
      unfold Clean. cbv zeta. destruct (eqb _ []) eqn:E; [discriminate|].
      apply eqb_false in E. exact E.
Qed.

(** ** parseRecordingURL *)

Lemma dropSlashes_head (s : gostring) :
  match dropSlashes s with [] => True | c :: _ => c <> sep end.
Proof.
  induction s as [|c s IH]; cbn [dropSlashes]; [exact I|].
  destruct (c =? sep) eqn:E; [exact IH|]. apply Z.eqb_neq. exact E.
Qed.

Lemma dropSlashes_suffix (s : gostring) : exists p, s = p ++ dropSlashes s.
Proof.
  induction s as [|c s [p IH]]; cbn [dropSlashes].
  - exists []. reflexivity.
  - destruct (c =? sep).
    + exists (c :: p). cbn [app]. f_equal. exact IH.
    + exists []. reflexivity.
Qed.

(** What [strings.Trim] leaves neither starts nor ends with a slash. *)
Lemma trimSlashes_ends (s : gostring) :
  hd_error (trimSlashes s) <> Some sep /\ last (trimSlashes s) <> Some sep.
Proof.
  unfold trimSlashes. split.
  - destruct (dropSlashes_suffix (rev (dropSlashes s))) as [p Hp].
    pose proof (dropSlashes_head s) as Hh.
    apply (f_equal (@rev Z)) in Hp. rewrite rev_involutive, rev_app_distr in Hp.
    destruct (rev (dropSlashes (rev (dropSlashes s)))) as [|c t]; [discriminate|].
    rewrite Hp in Hh. cbn [app] in Hh. cbn [hd_error]. congruence.
  - pose proof (dropSlashes_head (rev (dropSlashes s))) as Hh.
    destruct (dropSlashes (rev (dropSlashes s))) as [|c t]; [discriminate|].
    cbn [rev]. rewrite last_snoc. congruence.
Qed.

Lemma joinSep_splitSep (s : gostring) : joinSep (splitSep s) = s.
Proof.
  induction s as [|c s IH]; [reflexivity|].
  cbn [splitSep]. pose proof (splitSep_nonnil s) as Hne.
  destruct (c =? sep) eqn:E.
  - apply Z.eqb_eq in E. subst c.
    destruct (splitSep s) as [|x l]; [contradiction|].
    change (joinSep ([] :: x :: l)) with ([] ++ sep :: joinSep (x :: l)).
    rewrite IH. reflexivity.
  - destruct (splitSep s) as [|x l]; [contradiction|].
    destruct l as [|y l].
    + cbn [joinSep] in *. rewrite IH. reflexivity.
    + change (joinSep ((c :: x) :: y :: l)) with (c :: (x ++ sep :: joinSep (y :: l))).
      change (joinSep (x :: y :: l)) with (x ++ sep :: joinSep (y :: l)) in IH.
      rewrite IH. reflexivity.
Qed.

Lemma splitSep_hd (s : gostring) :
  List.hd [] (splitSep s) = [] -> s = [] \/ hd_error s = Some sep.
Proof.
  destruct s as [|c s]; [auto|]. cbn [splitSep].
  destruct (c =? sep) eqn:E.
  - apply Z.eqb_eq in E. subst c. auto.
  - destruct (splitSep s); discriminate.
Qed.

Lemma splitSep_last (s : gostring) :
  List.last (splitSep s) [] = [] -> s = [] \/ last s = Some sep.
Proof.
  induction s as [|c s IH]; [auto|]. intros H. right.
  cbn [splitSep] in H. pose proof (splitSep_nonnil s) as Hne.
  destruct (splitSep s) as [|x l] eqn:Es; [contradiction|].
  destruct (c =? sep) eqn:E.
  - apply Z.eqb_eq in E. subst c.
    change (List.last ([] :: x :: l) []) with (List.last (x :: l) []) in H.
    destruct (IH H) as [->|Hl]; [reflexivity|].
    destruct s; [discriminate|exact Hl].
  - destruct l as [|y l].
    + cbn [List.last] in H. discriminate.
    + change (List.last ((c :: x) :: y :: l) []) with (List.last (x :: y :: l) []) in H.
      destruct (IH H) as [->|Hl]; [discriminate|].
      destruct s; [discriminate|exact Hl].
Qed.

Lemma last_split (l : list gostring) :
  l <> [] -> exists front, l = front ++ [List.last l []].
Proof.
  intros H. destruct (exists_last H) as [front [x ->]].
  exists front. rewrite List.last_last. reflexivity.
Qed.

(** What [parseRecordingURL] returns when it returns no error. *)
Lemma parseRecordingURL_ok urlParse raw info :
  parseRecordingURL urlParse raw = inr info ->
  exists u,
    urlParse (Source info) = inr u
    /\ Hostname info = Host u /\ Host u <> []
    /\ BaseURL info = Scheme u ++ go "://" ++ Host u ++ sep :: trimSlashes (UPath u)
    /\ ID info = List.last (splitSep (trimSlashes (UPath u))) []
    /\ ID info <> [] /\ ~ In sep (ID info)
    /\ (hasPrefix (Source info) (go "http://") = true
        \/ hasPrefix (Source info) (go "https://") = true).
Proof.
  unfold parseRecordingURL. cbv zeta.
  set (raw' := if negb (hasPrefix raw (go "http://")) && negb (hasPrefix raw (go "https://"))
               then go "https://" ++ raw else raw).
  assert (Hraw : hasPrefix raw' (go "http://") = true
                 \/ hasPrefix raw' (go "https://") = true).
  { subst raw'. destruct (hasPrefix raw (go "http://")) eqn:E1; cbn [negb andb]; [auto|].
    destruct (hasPrefix raw (go "https://")) eqn:E2; cbn [negb]; [auto|].
    right. apply hasPrefix_app. }
  destruct (urlParse raw') as [msg|u] eqn:Eu; [discriminate|].
  destruct (eqb (Host u) []) eqn:Eh; [discriminate|]. apply eqb_false in Eh.
  destruct (_ || _) eqn:Ep; [discriminate|].
  apply orb_false_iff in Ep as [_ Ep]. apply eqb_false in Ep.
  intros [= <-]. cbn [ID BaseURL Source Hostname].
  exists u. split; [exact Eu|]. split; [reflexivity|]. split; [exact Eh|].
  rewrite joinSep_splitSep. split; [reflexivity|]. split; [reflexivity|].
  destruct (trimSlashes_ends (UPath u)) as [Hhd Hlast].
  assert (Hne : trimSlashes (UPath u) <> []).
  { intros E. rewrite E in Ep. apply Ep. reflexivity. }
  split; [|split; [|exact Hraw]].
  - intros E. apply splitSep_last in E as [E|E]; contradiction.
  - pose proof (splitSep_noSep (trimSlashes (UPath u))) as Hs.
    destruct (last_split _ (splitSep_nonnil (trimSlashes (UPath u)))) as [front Hf].
    rewrite Hf in Hs. apply Forall_app in Hs as [_ Hs]. inversion Hs; assumption.
Qed.

(** X16. The recording that [parseRecordingURL] returns has an identifier
    that is not empty and holds no slash, and a host that is not empty; its
    base URL is the scheme, the host and the path without the slashes at its
    ends, as the parser gives them for the source, and ends with a slash and
    the identifier; its source starts with http:// or https://.  The errors
    are the error of the parser, the missing host and the missing
    identifier. *)
Theorem X16_parseRecordingURL_identifier
    (urlParse : gostring -> gostring + URL) (raw : gostring) :
  match parseRecordingURL urlParse raw with
  | inr info =>
      ID info <> [] /\ ~ In sep (ID info) /\ Hostname info <> []
      /\ (exists front, BaseURL info = front ++ sep :: ID info)
      /\ (exists u, urlParse (Source info) = inr u
                    /\ BaseURL info
                       = Scheme u ++ go "://" ++ Host u ++ sep :: trimSlashes (UPath u))
      /\ (hasPrefix (Source info) (go "http://") = true
          \/ hasPrefix (Source info) (go "https://") = true)
  | inl e =>
      (exists msg, e = EWrap (go "parse url: ") (EExternal msg) [])
      \/ e = ENew (go "invalid url: host missing")
      \/ e = ENew (go "invalid url: recording id missing")
  end.
Proof.
  destruct (parseRecordingURL urlParse raw) as [e|info] eqn:E.
  - revert E. unfold parseRecordingURL. cbv zeta.
    destruct (urlParse _) as [msg|u]; [intros [= <-]; eauto|].
    destruct (eqb (Host u) []); [intros [= <-]; auto|].
    destruct (_ || _); [intros [= <-]; auto|discriminate].
  - destruct (parseRecordingURL_ok urlParse raw info E)
      as [u [Hu [Hh [Hhost [Hb [Hid [Hne [Hsep Hsrc]]]]]]]].
    split; [exact Hne|]. split; [exact Hsep|]. split; [congruence|]. split; [|split].
    + destruct (last_split _ (splitSep_nonnil (trimSlashes (UPath u)))) as [front Hf].
      rewrite <- Hid in Hf. rewrite Hb, <- (joinSep_splitSep (trimSlashes (UPath u))), Hf.
      destruct front as [|x front].
      * exists (Scheme u ++ go "://" ++ Host u). cbn [app joinSep].
        rewrite <- ?app_assoc. reflexivity.
      * exists (Scheme u ++ go "://" ++ Host u ++ sep :: joinSep (x :: front)).
        rewrite joinSep_snoc by discriminate. rewrite <- ?app_assoc. cbn [app].
        rewrite <- ?app_assoc. reflexivity.
    + exists u. split; assumption.
    + exact Hsrc.
Qed.


Example parseRecordingURL_ex :
  parseRecordingURL sampleParse (go "example.com/foo/bar/")
  = inr (mkRecordingInfo (go "bar") (go "https://example.com/foo/bar")
           (go "https://example.com/foo/bar/") (go "example.com")).
Proof. reflexivity. Qed.

Lemma staged_name (id suffix : gostring) :
  ~ In sep id -> ~ In sep suffix -> (2 <= length suffix)%nat ->
  isName (go "." ++ id ++ suffix).
Proof.
  intros Hid Hs Hlen. split; [discriminate|].
  assert (Hl : (3 <= length (go "." ++ id ++ suffix))%nat).
  { rewrite !length_app. change (length (go ".")) with 1%nat. lia. }
  split; [|split].
  - intros E. rewrite E in Hl. vm_compute in Hl. lia.
  - intros E. rewrite E in Hl. vm_compute in Hl. lia.
  - rewrite !in_app_iff. intros [H|[H|H]]; [|contradiction..].
    vm_compute in H. intuition discriminate.
Qed.

(** X17. The two staged files of a recording lie directly in the output
    directory, whatever the URL: the identifier that [parseRecordingURL]
    returns holds no slash, so that the names [.ID_temp.zip] and
    [.ID_temp.mp4] name no other directory. *)
Theorem X17_staged_files_in_output_directory
    (urlParse : gostring -> gostring + URL) (raw : gostring) (info : recordingInfo)
    (base : gostring) :
  parseRecordingURL urlParse raw = inr info -> base <> [] ->
  tempZipPath base (ID info) = under base ++ go "." ++ ID info ++ go "_temp.zip"
  /\ tempMP4Path base (ID info) = under base ++ go "." ++ ID info ++ go "_temp.mp4"
  /\ Dir (tempZipPath base (ID info)) = Clean base
  /\ Dir (tempMP4Path base (ID info)) = Clean base.
Proof.
  intros Hp Hb.
  destruct (parseRecordingURL_ok urlParse raw info Hp) as [u [_ [_ [_ [_ [_ [_ [Hsep _]]]]]]]].
  assert (Hz : isName (go "." ++ ID info ++ go "_temp.zip")).
  { apply staged_name; [exact Hsep| |vm_compute; lia].
    intros H. vm_compute in H. intuition discriminate. }
  assert (Hm : isName (go "." ++ ID info ++ go "_temp.mp4")).
  { apply staged_name; [exact Hsep| |vm_compute; lia].
    intros H. vm_compute in H. intuition discriminate. }
  unfold tempZipPath, tempMP4Path.
  rewrite (Dir_Join_name _ _ Hb Hz), (Dir_Join_name _ _ Hb Hm).
  rewrite (Join_name _ _ Hb Hz), (Join_name _ _ Hb Hm). auto.
Qed.

Lemma X17_witness :
  Dir (tempZipPath (go "out") (go "bar")) = Clean (go "out").
Proof.
  destruct (X17_staged_files_in_output_directory sampleParse (go "example.com/foo/bar/")
              (mkRecordingInfo (go "bar") (go "https://example.com/foo/bar")
                 (go "https://example.com/foo/bar/") (go "example.com"))
              (go "out") eq_refl ltac:(discriminate)) as [_ [_ [H _]]].
  exact H.
Defined.

(** ** Names made by sanitize, joined to a directory *)

Import Sanitize.

Lemma legal_nosep (s : gostring) : legal s -> ~ In sep s.
Proof.
  intros H Hin. unfold legal in H. rewrite Forall_forall in H.
  apply list_elem_of_In, H in Hin. vm_compute in Hin. discriminate.
Qed.

(** X18. A name made by [sanitize] and joined to a directory, as the
    directory of a recording is made from the title and the destination of a
    document from its name, lies directly in that directory, with two
    exceptions: the name of one dot gives the directory itself and the name
    of two dots the directory above it. *)
Theorem X18_sanitized_name_stays_in_directory (dir name : gostring) :
  dir <> [] ->
  let n := sanitize name in
  (n <> dot -> n <> dotdot ->
   Join dir n = under dir ++ n /\ Dir (Join dir n) = Clean dir /\ ~ In sep n)
  /\ (n = dot -> Join dir n = Clean dir)
  /\ (n = dotdot -> Join dir n = Clean (dir ++ go "/.."))
  /\ (legal name -> noLead name -> noTrail name -> name <> [] -> n = name).
Proof.
  intros Hd n. subst n.
  assert (Hs : sanitize name <> [] /\ legal (sanitize name)).
  { destruct (sanitize_cases name) as [[_ E]|[_ [E Hne]]].
    - rewrite E. split; [discriminate|]. vm_compute. repeat constructor.
    - split; [exact Hne|]. rewrite E. apply trimSpace_Forall, replaceRuns_legal. }
  destruct Hs as [Hne Hleg]. split; [|split; [|split]].
  - intros H1 H2.
    assert (Hname : isName (sanitize name)).
    { repeat split; try assumption. apply legal_nosep. exact Hleg. }
    split; [apply Join_name; assumption|].
    split; [apply Dir_Join_name; assumption|apply legal_nosep; exact Hleg].
  - intros ->. unfold Join. rewrite (proj2 (eqb_false _ _) Hd). cbn [negb].
    change (dir ++ sep :: dot) with (dir ++ sep :: go ".").
    assert (Hr : hasPrefix (dir ++ sep :: go ".") [sep] = hasPrefix dir [sep]).
    { destruct dir; [contradiction|reflexivity]. }
    rewrite (Clean_kept (dir ++ sep :: go ".")), (Clean_kept dir), Hr.
    replace (kept (dir ++ sep :: go ".")) with (kept dir); [reflexivity|].
    unfold kept. rewrite Hr, splitSep_app_sep.
    change (splitSep (go ".")) with [dot].
    symmetry. apply cleanStack_snoc_dot.
  - intros ->. unfold Join. rewrite (proj2 (eqb_false _ _) Hd). reflexivity.
  - intros Hl Hlead Htrail Hn. apply trimmed_legal_fixed; assumption.
Qed.

Lemma X18_witness :
  Join (go "out/documents") (sanitize (go " a/b:c.pdf "))
  = under (go "out/documents") ++ sanitize (go " a/b:c.pdf ").
Proof.
  destruct (X18_sanitized_name_stays_in_directory (go "out/documents") (go " a/b:c.pdf ")
              ltac:(discriminate)) as [H _].
  apply H; vm_compute; discriminate.
Defined.

Example sanitized_name_ex :
  Join (go "out/documents") (sanitize (go " a/b:c.pdf ")) = go "out/documents/a b c.pdf".
Proof. reflexivity. Qed.
